(** * song-classifier: record store, transport, sync manager and pipeline

    A shallow embedding of the Python sources

      - [src/data/models.py]         (AlbumMetadata, TrackMetadata)
      - [src/data/__init__.py]       (the CSV-backed record store)
      - [src/utils/file_transport.py] (is_audio_file,
                                      LocalTransport.list_files)
      - [src/utils/file_metadata.py] (_merge_comment, the tag writers,
                                      the tag readers,
                                      is_already_processed)
      - [src/utils/config.py]        (load_config, save_config)
      - [src/utils/git_sync.py]      (set_sync_repo, pull_metadata,
                                      push_metadata)
      - [src/utils/ui_confirm.py]    (_build_album_options)
      - [src/main.py], [src/cli.py]  (classify_filename, process_files,
                                      cmd_process)

    Python values are modelled as follows.  A [str] is a [string], the
    bytes of its UTF-8 encoding; a [dict[str, str]] is a
    [gmap string string]; [Optional[str]] is [option string]; a raised
    exception is the [Raise] case of [result], and code that mutates
    files or module globals is a state transformer that returns the
    state reached even when it raises. *)

From stdpp Require Import gmap strings list fin_maps.
Open Scope string_scope.

(** ** Exceptions and the two monads *)

Inductive exn :=
| KeyError (k : string)
| ValueError (msg : string)
| RuntimeError (msg : string)
| MutagenError
| AttributeError
| KeyboardInterrupt
| OSError
| CalledProcessError
| Timeout
| MissingAPIKeyError
| SystemExit (code : Z)
| OtherError (msg : string).

Inductive result (A : Type) :=
| Ok (a : A)
| Raise (e : exn).
Arguments Ok {A} a.
Arguments Raise {A} e.

#[export] Instance result_ret : MRet result := fun A a => Ok a.
#[export] Instance result_bind : MBind result := fun A B f m =>
  match m with Ok a => f a | Raise e => Raise e end.
#[export] Instance result_fmap : FMap result := fun A B f m =>
  match m with Ok a => Ok (f a) | Raise e => Raise e end.

(** A computation over a mutable state [S]: the state is returned in
    both outcomes, since a Python exception does not undo the writes
    made before it. *)
Definition M (S A : Type) : Type := S -> result A * S.

#[export] Instance M_ret {S} : MRet (M S) := fun A a s => (Ok a, s).
#[export] Instance M_bind {S} : MBind (M S) := fun A B f m s =>
  match m s with
  | (Ok a, s') => f a s'
  | (Raise e, s') => (Raise e, s')
  end.

Definition raise {S A} (e : exn) : M S A := fun s => (Raise e, s).
Definition lift_result {S A} (r : result A) : M S A := fun s => (r, s).
Definition get_state {S} : M S S := fun s => (Ok s, s).
Definition modify {S} (f : S -> S) : M S unit := fun s => (Ok tt, f s).

(** ** Python truthiness and dictionary access *)

(** [bool(s)] for a string. *)
Definition truthy (s : string) : bool := negb (bool_decide (s = "")).

(** [bool(o)] for an [Optional[str]]. *)
Definition truthy_opt (o : option string) : bool :=
  match o with Some s => truthy s | None => false end.

(** [o or ""] for an [Optional[str]]. *)
Definition or_empty (o : option string) : string :=
  match o with Some s => if truthy s then s else "" | None => "" end.

(** [s or None] for a string. *)
Definition or_None (s : string) : option string :=
  if truthy s then Some s else None.

Abbreviation row := (gmap string string).

(** The characters ["\r"] and ["\n"]. *)
Definition CR : Ascii.ascii := Ascii.ascii_of_nat 13.
Definition LF : Ascii.ascii := Ascii.ascii_of_nat 10.

(** [row[k]]: raises [KeyError] when the column is missing. *)
Definition getitem (r : row) (k : string) : result string :=
  match r !! k with Some v => Ok v | None => Raise (KeyError k) end.

(** [row.get(k, "")]. *)
Definition get_or_empty (r : row) (k : string) : string := default "" (r !! k).

(** [k in row]. *)
Definition has_key (r : row) (k : string) : bool := bool_decide (is_Some (r !! k)).

(** ** src/data/models.py *)

Module AlbumMetadata.
Record t := mk { name : string; artist : string }.

Definition to_csv_row (self : t) : row :=
  <["name" := name self]> (<["artist" := artist self]> ∅).

Definition from_csv_row (r : row) : result t :=
  n ← getitem r "name";
  a ← getitem r "artist";
  mret (mk n a).
End AlbumMetadata.

Module TrackMetadata.
Record t := mk {
  key : string;
  track : string;
  artist : string;
  album : AlbumMetadata.t;
  genre : string;
  date : option string
}.

Definition to_csv_row (self : t) : row :=
  <["key" := key self]>
  (<["track" := track self]>
  (<["artist" := artist self]>
  (<["album_name" := AlbumMetadata.name (album self)]>
  (<["album_artist" := AlbumMetadata.artist (album self)]>
  (<["genre" := genre self]>
  (<["date" := or_empty (date self)]> ∅)))))).

Definition from_csv_row (r : row) : result t :=
  k ← getitem r "key";
  tr ← getitem r "track";
  ar ← getitem r "artist";
  an ← getitem r "album_name";
  aa ← getitem r "album_artist";
  g ← getitem r "genre";
  d ← getitem r "date";
  mret (mk k tr ar (AlbumMetadata.mk an aa) g (or_None d)).
End TrackMetadata.

#[export] Instance AlbumMetadata_eq_dec : EqDecision AlbumMetadata.t.
Proof. solve_decision. Defined.
#[export] Instance TrackMetadata_eq_dec : EqDecision TrackMetadata.t.
Proof. solve_decision. Defined.

(** ** src/data/__init__.py *)

Definition TRACK_FIELDNAMES : list string :=
  ["key"; "track"; "artist"; "album_name"; "album_artist"; "genre"; "date"].
Definition ALBUM_FIELDNAMES : list string := ["name"; "artist"].
Definition LEGACY_TRACK_FIELDNAMES : list string :=
  ["key"; "track"; "artist"; "album"; "genre"; "date"].

(** What the module-level [CACHE] holds for a file: the list a reader
    parsed from it. *)
Inductive cached :=
| CachedTracks (l : list TrackMetadata.t)
| CachedAlbums (l : list AlbumMetadata.t).

(** The state the data layer runs in.  A table file is held by its
    data rows, one dictionary per row keyed by the column names of the
    header, each cell as it stands in the file: the rows a [csv] reader
    yields when the file is opened with [newline=''], which is how
    [_write_csv] opens it.  The tables are taken to be well formed: the
    column names hold no carriage return, and every data row has a cell
    for each column of the header.  (For a row with fewer cells
    [csv.DictReader] fills in [None], which a [row] does not hold; the
    cells of a row beyond the header are looked at by no code.)  A path
    with no entry is a file that does not exist.  Directories are not
    part of the state, so creating one that is missing changes nothing
    here.  [config_dir] is what [get_or_create_config_dir()] resolves to
    in the process environment. *)
Record Store := mkStore {
  config_dir : string;
  files : gmap string (list row);
  CACHE : gmap string cached
}.

Definition set_files (f : gmap string (list row) -> gmap string (list row))
    (s : Store) : Store :=
  mkStore (config_dir s) (f (files s)) (CACHE s).
Definition set_CACHE (f : gmap string cached -> gmap string cached)
    (s : Store) : Store :=
  mkStore (config_dir s) (files s) (f (CACHE s)).

(** [pathlib]'s [dir / name], as a POSIX path. *)
Definition path_div (dir name : string) : string := dir +:+ "/" +:+ name.

(** src/utils/config.py *)
Definition get_or_create_config_dir : M Store string :=
  fun s => (Ok (config_dir s), s).
Definition get_or_create_metadata_file_path : M Store string :=
  d ← get_or_create_config_dir; mret (path_div d "metadata.csv").
Definition get_or_create_albums_file_path : M Store string :=
  d ← get_or_create_config_dir; mret (path_div d "albums.csv").

(** What text mode with the default [newline=None] makes of the
    characters it reads: ["\r\n"] and a lone ["\r"] become ["\n"]. *)
Fixpoint universal_newlines (s : string) : string :=
  match s with
  | EmptyString => EmptyString
  | String c rest =>
    if bool_decide (c = CR)
    then String LF (match rest with
                    | String c' rest' =>
                      if bool_decide (c' = LF) then universal_newlines rest'
                      else universal_newlines rest
                    | EmptyString => EmptyString
                    end)
    else String c (universal_newlines rest)
  end.

(** [_read_csv_rows] opens the file with [open(file_path, mode="r",
    encoding="utf-8")], without [newline='']: the reader sees the text
    after the translation of line ends, inside quoted cells too. *)
Definition _read_csv_rows (file_path : string) : M Store (list row) :=
  fun s =>
    match files s !! file_path with
    | None => (Ok [], s)
    | Some rows =>
      (Ok ((fun r : row => universal_newlines <$> r) <$> rows), s)
    end.

Definition _is_legacy_track_format (rows : list row) : bool :=
  match rows with
  | [] => false
  | r0 :: _ => has_key r0 "album" && negb (has_key r0 "album_name")
  end.

Definition _migrate_legacy_track_row (r : row) : row :=
  let album_value := get_or_empty r "album" in
  <["key" := get_or_empty r "key"]>
  (<["track" := get_or_empty r "track"]>
  (<["artist" := get_or_empty r "artist"]>
  (<["album_name" := album_value]>
  (<["album_artist" := get_or_empty r "artist"]>
  (<["genre" := get_or_empty r "genre"]>
  (<["date" := get_or_empty r "date"]> ∅)))))).

(** A cache entry that holds albums under the asset table's path is
    never produced (each reader stores under the path it read); the
    track reader takes such an entry as a miss, and symmetrically. *)
Definition _read_track_metadata (file_path : string) (use_cache : bool)
    : M Store (list TrackMetadata.t) :=
  s ← get_state;
  match (if use_cache then CACHE s !! file_path else None) with
  | Some (CachedTracks l) => mret l
  | _ =>
    rows ← _read_csv_rows file_path;
    let rows :=
      if _is_legacy_track_format rows
      then _migrate_legacy_track_row <$> rows
      else rows in
    tracks ← lift_result (mapM TrackMetadata.from_csv_row rows);
    _ ← (if use_cache
         then modify (set_CACHE (<[file_path := CachedTracks tracks]>))
         else mret tt);
    mret tracks
  end.

Definition _read_album_metadata (file_path : string) (use_cache : bool)
    : M Store (list AlbumMetadata.t) :=
  s ← get_state;
  match (if use_cache then CACHE s !! file_path else None) with
  | Some (CachedAlbums l) => mret l
  | _ =>
    rows ← _read_csv_rows file_path;
    albums ← lift_result (mapM AlbumMetadata.from_csv_row rows);
    _ ← (if use_cache
         then modify (set_CACHE (<[file_path := CachedAlbums albums]>))
         else mret tt);
    mret albums
  end.

(** [csv.DictWriter._dict_to_list]: a key outside [fieldnames] raises
    [ValueError]; a missing one is written as the empty cell.  The value
    is the dictionary [DictReader] gives back for the written line. *)
Definition dict_to_row (fieldnames : list string) (rowdict : row) : result row :=
  if bool_decide (dom rowdict ⊆ list_to_set fieldnames)
  then Ok (list_to_map ((fun k => (k, get_or_empty rowdict k)) <$> fieldnames))
  else Raise (ValueError "dict contains fields not in fieldnames").

(** [writer.writerow(row)] on the open file. *)
Definition writerow (file_path : string) (fieldnames : list string)
    (rowdict : row) : M Store unit :=
  cells ← lift_result (dict_to_row fieldnames rowdict);
  modify (set_files (fun fs =>
    <[file_path := (default [] (fs !! file_path) ++ [cells])%list]> fs)).

Fixpoint writerows (file_path : string) (fieldnames : list string)
    (rows : list row) : M Store unit :=
  match rows with
  | [] => mret tt
  | r :: rest =>
    _ ← writerow file_path fieldnames r;
    writerows file_path fieldnames rest
  end.

(** Opening with mode ["w"] truncates the file, the header follows;
    the cache entry is dropped only when every row was written. *)
Definition _write_csv (file_path : string) (rows : list row)
    (fieldnames : list string) : M Store unit :=
  _ ← modify (set_files (<[file_path := []]>));
  _ ← writerows file_path fieldnames rows;
  modify (set_CACHE (delete file_path)).

(** The three shapes [get_file_metadata] / [get_album_metadata] return:
    one record, [None], or the whole list. *)
Inductive lookup (A : Type) :=
| Single (x : option A)
| Listing (l : list A).
Arguments Single {A} x.
Arguments Listing {A} l.

(** [next((t for t in tracks if t.key == key), None)] *)
Definition first_with_key (k : string) (tracks : list TrackMetadata.t)
    : option TrackMetadata.t :=
  head (filter (fun t => TrackMetadata.key t = k) tracks).
Definition first_with_name (k : string) (albums : list AlbumMetadata.t)
    : option AlbumMetadata.t :=
  head (filter (fun a => AlbumMetadata.name a = k) albums).

Definition get_file_metadata (key : option string)
    : M Store (lookup TrackMetadata.t) :=
  file_path ← get_or_create_metadata_file_path;
  tracks ← _read_track_metadata file_path false;
  if truthy_opt key
  then mret (Single (first_with_key (default "" key) tracks))
  else mret (Listing tracks).

Definition get_album_metadata (key : option string)
    : M Store (lookup AlbumMetadata.t) :=
  file_path ← get_or_create_albums_file_path;
  albums ← _read_album_metadata file_path false;
  if truthy_opt key
  then mret (Single (first_with_name (default "" key) albums))
  else mret (Listing albums).

(** The [for ... break] loop of [upsert_album_metadata]: [Some rows']
    when a row was updated, [None] when the loop ran to its end. *)
Fixpoint update_first_album (a : AlbumMetadata.t) (rows : list row)
    : result (option (list row)) :=
  match rows with
  | [] => Ok None
  | r :: rest =>
    n ← getitem r "name";
    if bool_decide (n = AlbumMetadata.name a)
    then Ok (Some (<["artist" := AlbumMetadata.artist a]> r :: rest))
    else
      o ← update_first_album a rest;
      Ok (match o with Some l => Some (r :: l) | None => None end)
  end.

Definition upsert_album_metadata (a : AlbumMetadata.t) : M Store unit :=
  albums_file_path ← get_or_create_albums_file_path;
  existing ← _read_album_metadata albums_file_path false;
  let rows := AlbumMetadata.to_csv_row <$> existing in
  o ← lift_result (update_first_album a rows);
  let rows :=
    match o with
    | Some rows' => rows'
    | None => (rows ++ [AlbumMetadata.to_csv_row a])%list
    end in
  _write_csv albums_file_path rows ALBUM_FIELDNAMES.

(** The [for i, row in enumerate(rows) ... break] loop of
    [upsert_track_metadata]. *)
Fixpoint replace_first_track (t : TrackMetadata.t) (rows : list row)
    : result (option (list row)) :=
  match rows with
  | [] => Ok None
  | r :: rest =>
    k ← getitem r "key";
    if bool_decide (k = TrackMetadata.key t)
    then Ok (Some (TrackMetadata.to_csv_row t :: rest))
    else
      o ← replace_first_track t rest;
      Ok (match o with Some l => Some (r :: l) | None => None end)
  end.

Definition upsert_track_metadata (t : TrackMetadata.t) : M Store unit :=
  metadata_file_path ← get_or_create_metadata_file_path;
  existing ← _read_track_metadata metadata_file_path false;
  let rows := TrackMetadata.to_csv_row <$> existing in
  o ← lift_result (replace_first_track t rows);
  let rows :=
    match o with
    | Some rows' => rows'
    | None => (rows ++ [TrackMetadata.to_csv_row t])%list
    end in
  _write_csv metadata_file_path rows TRACK_FIELDNAMES.

Definition clear_cache : M Store unit := modify (set_CACHE (fun _ => ∅)).

(** ** Python string and path primitives

    A [str] is held as its sequence of bytes; [lower] folds the ASCII
    letters, which is all that the extension tests below depend on. *)

Definition lower_ascii (c : Ascii.ascii) : Ascii.ascii :=
  let n := Ascii.nat_of_ascii c in
  if ((65 <=? n)%nat && (n <=? 90)%nat)%bool
  then Ascii.ascii_of_nat (n + 32) else c.

Fixpoint lower (s : string) : string :=
  match s with
  | EmptyString => EmptyString
  | String c rest => String (lower_ascii c) (lower rest)
  end.

(** [s.startswith(p)] *)
Fixpoint startswith (s p : string) : bool :=
  match p, s with
  | EmptyString, _ => true
  | String _ _, EmptyString => false
  | String b p', String a s' => bool_decide (a = b) && startswith s' p'
  end.

(** [s.endswith(p)] *)
Definition endswith (s p : string) : bool :=
  startswith (String.rev s) (String.rev p).

(** [needle in haystack] for two strings. *)
Fixpoint contains (haystack needle : string) : bool :=
  startswith haystack needle ||
  match haystack with
  | EmptyString => false
  | String _ rest => contains rest needle
  end.

(** [s.replace("", new)]: [new] before every character and at the end. *)
Fixpoint interleave (new s : string) : string :=
  match s with
  | EmptyString => new
  | String c rest => new +:+ String c (interleave new rest)
  end.

(** The scan of [s.replace(old, new)] for a non-empty [old]: [skip]
    counts the characters of a match that are still to be dropped. *)
Fixpoint replace_go (old new : string) (skip : nat) (s : string) : string :=
  match s with
  | EmptyString => EmptyString
  | String c rest =>
    match skip with
    | S k => replace_go old new k rest
    | O =>
      if startswith s old
      then new +:+ replace_go old new (String.length old - 1) rest
      else String c (replace_go old new 0 rest)
    end
  end.

(** [s.replace(old, new)]: every non-overlapping occurrence, left to
    right. *)
Definition str_replace (s old new : string) : string :=
  match old with
  | EmptyString => interleave new s
  | _ => replace_go old new 0 s
  end.

(** [s.lstrip(c)] for a one-character [c]. *)
Fixpoint lstrip (s : string) (c : Ascii.ascii) : string :=
  match s with
  | String a rest => if bool_decide (a = c) then lstrip rest c else s
  | EmptyString => EmptyString
  end.

Definition sep : Ascii.ascii := Ascii.ascii_of_nat 47.
Definition extsep : Ascii.ascii := Ascii.ascii_of_nat 46.

(** [posixpath.join(a, b)] *)
Definition os_path_join (a b : string) : string :=
  if startswith b "/" then b
  else if bool_decide (a = "") || endswith a "/" then a +:+ b
  else a +:+ "/" +:+ b.

(** The part of a reversed path before its first separator: the last
    component, reversed. *)
Fixpoint rev_basename (r : string) : string :=
  match r with
  | EmptyString => EmptyString
  | String c rest =>
    if bool_decide (c = sep) then EmptyString else String c (rev_basename rest)
  end.

(** On a reversed file name: the reversed extension (through the last
    dot) and the reversed stem before it, when there is a dot. *)
Fixpoint rev_split_dot (r : string) : option (string * string) :=
  match r with
  | EmptyString => None
  | String c rest =>
    if bool_decide (c = extsep) then Some (String c EmptyString, rest)
    else
      match rev_split_dot rest with
      | Some (e, stem) => Some (String c e, stem)
      | None => None
      end
  end.

Fixpoint all_dots (s : string) : bool :=
  match s with
  | EmptyString => true
  | String c rest => bool_decide (c = extsep) && all_dots rest
  end.

(** The second component of [os.path.splitext(p)]: from the last dot of
    the last path component, unless only dots precede it there. *)
Definition splitext_ext (p : string) : string :=
  match rev_split_dot (rev_basename (String.rev p)) with
  | Some (e, stem) => if all_dots stem then "" else String.rev e
  | None => ""
  end.

(** ** src/utils/file_transport.py *)

Definition AUDIO_EXTENSIONS : list string :=
  [".mp3"; ".flac"; ".m4a"; ".mp4"; ".opus"; ".ogg"; ".wav"; ".aiff"; ".aif"].

Definition is_audio_file (path : string) : bool :=
  bool_decide (splitext_ext (lower path) ∈ AUDIO_EXTENSIONS).

Inductive TransportType := LOCAL | WEBDAV.

(** A directory as [os.listdir] and [os.path.isdir] show it: the
    entries in listing order, each a file or a directory with its own
    entries. *)
#[warnings="-register-all"]
Inductive entry :=
| File (name : string)
| Dir (name : string) (children : list entry).

Definition entry_name (e : entry) : string :=
  match e with File n => n | Dir n _ => n end.

(** The body of the [for entry in os.listdir(path)] loop of
    [LocalTransport.list_files], [initial_path] being the value after
    [initial_path = initial_path or path]; the recursive call evaluates
    that line again. *)
Fixpoint list_files_entry (e : entry) (path initial_path : string)
    : list string :=
  let full_path := os_path_join path (entry_name e) in
  match e with
  | Dir _ children =>
    let initial' := if truthy initial_path then initial_path else full_path in
    flat_map (fun c => list_files_entry c full_path initial') children
  | File name =>
    if is_audio_file name
    then [lstrip (str_replace full_path initial_path "") sep]
    else []
  end.

(** [LocalTransport.list_files(path, initial_path)], [listing] being
    the directory at [path]. *)
Definition list_files (listing : list entry) (path : string)
    (initial_path : option string) : list string :=
  let initial := if truthy_opt initial_path
                 then default "" initial_path else path in
  flat_map (fun e => list_files_entry e path initial) listing.

(** What the specification asks of the listing, in its own words: the
    recognized files, each once, as paths relative to the listed root.
    [prefix] is the relative path of the directory being walked. *)
Fixpoint relative_audio_paths_entry (e : entry) (prefix : string)
    : list string :=
  let rel := if bool_decide (prefix = "") then entry_name e
             else prefix +:+ "/" +:+ entry_name e in
  match e with
  | Dir _ children =>
    flat_map (fun c => relative_audio_paths_entry c rel) children
  | File name => if is_audio_file name then [rel] else []
  end.

Definition relative_audio_paths (listing : list entry) : list string :=
  flat_map (fun e => relative_audio_paths_entry e "") listing.

(** ** src/utils/constants.py *)

Definition PROCESSED_MARKER : string := "Processed by song-classifier".

(** ** src/utils/file_metadata.py

    The tag library (mutagen) is outside the repository.  An opened file
    is held as the tag dictionary the library presents.  For the
    dictionary-like containers a tag value is a Python object: [None], a
    string, a [bytes] value, a list, or something else; a list item is
    a string, a [bytes] value, or something else.  A [bytes] value is
    given by the text [v.decode("utf-8", errors="ignore")] yields for
    it, a call that never raises. *)

Inductive pyitem :=
| IStr (s : string)
| IBytes (decoded : string)
| IOther.

Inductive pyobj :=
| ONone
| OStr (s : string)
| OBytes (decoded : string)
| OList (l : list pyitem)
| OOther.

#[export] Instance pyitem_eq_dec : EqDecision pyitem.
Proof. solve_decision. Defined.
#[export] Instance pyobj_eq_dec : EqDecision pyobj.
Proof. solve_decision. Defined.

Abbreviation tags := (gmap string pyobj).

(** [tags.get(k)] *)
Definition tag_get (t : tags) (k : string) : pyobj := default ONone (t !! k).

(** The loop body shared by [_merge_comment] and [_has_marker_in_list]:
    a [bytes] item is decoded, and only strings pass the
    [isinstance(v, str)] test. *)
Definition item_str (v : pyitem) : option string :=
  match v with
  | IStr s => Some s
  | IBytes d => Some d
  | IOther => None
  end.

Definition _has_marker_in_list (value_list : pyobj) (marker : string) : bool :=
  match value_list with
  | ONone => false
  | OList items =>
    existsb (fun v => match item_str v with
                      | Some s => contains s marker
                      | None => false
                      end) items
  | OStr s => contains s marker
  | OBytes d => contains d marker
  | OOther => false
  end.

Definition _merge_comment (existing : pyobj) (marker : string) : list string :=
  let values :=
    match existing with
    | OList l => omap item_str l
    | OStr s => [s]
    | _ => []
    end in
  let values :=
    if bool_decide (marker ∈ values) then values
    else (values ++ [marker])%list in
  match values with
  | [] => [marker]
  | _ => values
  end.

(** An ID3 tag is a dictionary of frames keyed by [HashKey]; for a
    comment frame the key is made of its description and language
    ([COMM:desc:lang]).  Only the comment frames are held, each by its
    list of texts.  [ID3.add(frame)] assigns the frame to its key,
    [self[frame.HashKey] = frame], in place of a frame already there. *)
Abbreviation ID3 := (gmap (string * string) (list string)).

Definition id3_add_COMM (id3 : ID3) (desc lang : string) (text : list string)
    : ID3 :=
  <[(desc, lang) := text]> id3.

(** [id3.getall("COMM")] *)
Definition id3_getall_COMM (id3 : ID3) : list (list string) :=
  snd <$> map_to_list id3.

(** An audio file as the library opens it.  [Mp3] carries, for each
    field name of [EasyMP3], the first text [audio.get(name)] gives, and
    the comment frames of its ID3 tag; the others carry their tag
    dictionary (the empty one when [audio.tags] is [None]). *)
Inductive AudioFile :=
| Mp3 (easy : gmap string string) (id3 : ID3)
| Flac (t : tags)
| Mp4 (t : tags)
| OggOpus (t : tags)
| OggVorbis (t : tags)
| NotAudio.

(** The Unicode character U+00A9 that starts the MP4 atom names. *)
Definition atom (s : string) : string :=
  String (Ascii.ascii_of_nat 194) (String (Ascii.ascii_of_nat 169) s).

(** The statements [tags[k] = v] that the writers share, [if meta.date]
    included. *)
Definition set_fields {V} (str : string -> V)
    (title artist album albumartist genre date : string)
    (meta : TrackMetadata.t) (t : gmap string V) : gmap string V :=
  let t := <[title := str (TrackMetadata.track meta)]> t in
  let t := <[artist := str (TrackMetadata.artist meta)]> t in
  let t := <[album := str (AlbumMetadata.name (TrackMetadata.album meta))]> t in
  let t := <[albumartist :=
               str (AlbumMetadata.artist (TrackMetadata.album meta))]> t in
  let t := <[genre := str (TrackMetadata.genre meta)]> t in
  if truthy_opt (TrackMetadata.date meta)
  then <[date := str (default "" (TrackMetadata.date meta))]> t
  else t.

Section Writers.
(** [EasyID3] is code of the tag library: it turns the text assigned to
    a field into a frame, and a later [audio.get(name)] answers from the
    frame, which need not give the text back as it was assigned (a
    genre, a date).  [easy_text name v] is the first text of
    [audio.get(name)] once [audio[name] = v] was saved, [None] when the
    field is then absent. *)
Variable easy_text : string -> string -> option string.

(** [audio[name] = v] on an [EasyMP3], as the saved file shows it. *)
Definition easy_set (name v : string) (easy : gmap string string)
    : gmap string string :=
  match easy_text name v with
  | Some s => <[name := s]> easy
  | None => delete name easy
  end.

Definition _write_mp3 (meta : TrackMetadata.t) (f : AudioFile)
    : result AudioFile :=
  match f with
  | Mp3 easy id3 =>
    let easy := easy_set "title" (TrackMetadata.track meta) easy in
    let easy := easy_set "artist" (TrackMetadata.artist meta) easy in
    let easy :=
      easy_set "album" (AlbumMetadata.name (TrackMetadata.album meta)) easy in
    let easy :=
      easy_set "albumartist"
        (AlbumMetadata.artist (TrackMetadata.album meta)) easy in
    let easy := easy_set "genre" (TrackMetadata.genre meta) easy in
    let easy :=
      if truthy_opt (TrackMetadata.date meta)
      then easy_set "date" (default "" (TrackMetadata.date meta)) easy
      else easy in
    let has_marker :=
      existsb (fun texts =>
                 _has_marker_in_list (OList (IStr <$> texts)) PROCESSED_MARKER)
              (id3_getall_COMM id3) in
    let id3 :=
      if has_marker then id3
      else id3_add_COMM id3 "song-classifier" "eng" [PROCESSED_MARKER] in
    Ok (Mp3 easy id3)
  | _ => Raise MutagenError
  end.

(** The writers of the dictionary-like containers differ in the class
    that opens the file and in the key names. *)
Definition write_dict (title artist album albumartist genre date comment : string)
    (meta : TrackMetadata.t) (t : tags) : tags :=
  let t := set_fields OStr title artist album albumartist genre date meta t in
  <[comment :=
     OList (IStr <$> _merge_comment (tag_get t comment) PROCESSED_MARKER)]> t.

Definition _write_flac (meta : TrackMetadata.t) (f : AudioFile)
    : result AudioFile :=
  match f with
  | Flac t =>
    Ok (Flac (write_dict "title" "artist" "album" "albumartist" "genre"
                "date" "comment" meta t))
  | _ => Raise MutagenError
  end.

Definition _write_mp4 (meta : TrackMetadata.t) (f : AudioFile)
    : result AudioFile :=
  match f with
  | Mp4 t =>
    Ok (Mp4 (write_dict (atom "nam") (atom "ART") (atom "alb") "aART"
               (atom "gen") (atom "day") (atom "cmt") meta t))
  | _ => Raise MutagenError
  end.

(** The two Ogg writers start from [tags = audio.tags or {}].  The
    comment block of an Ogg file is false when it has no field, so for
    such a file [tags] is a plain [dict]: the fields are set on it, it
    is assigned to [audio.tags], and [audio.save()] fails on it with
    [AttributeError], which is not a [MutagenError].  Nothing was
    written to the file. *)
Definition _write_ogg_opus (meta : TrackMetadata.t) (f : AudioFile)
    : result AudioFile :=
  match f with
  | OggOpus t =>
    if bool_decide (t = ∅) then Raise AttributeError
    else
      Ok (OggOpus (write_dict "title" "artist" "album" "albumartist" "genre"
                     "date" "comment" meta t))
  | _ => Raise MutagenError
  end.

Definition _write_ogg_vorbis (meta : TrackMetadata.t) (f : AudioFile)
    : result AudioFile :=
  match f with
  | OggVorbis t =>
    if bool_decide (t = ∅) then Raise AttributeError
    else
      Ok (OggVorbis (write_dict "title" "artist" "album" "albumartist"
                       "genre" "date" "comment" meta t))
  | _ => Raise MutagenError
  end.

(** [write_file_metadata(path, meta)], [f] being the file at [path]:
    the file as saved, or the exception that leaves the function (a
    [MutagenError] is logged and raised again, any other exception is
    not caught).  A path with none of the extensions falls through and
    nothing is written. *)
Definition write_file_metadata (path : string) (meta : TrackMetadata.t)
    (f : AudioFile) : result AudioFile :=
  let lower := lower path in
  if endswith lower ".mp3" then _write_mp3 meta f
  else if endswith lower ".flac" then _write_flac meta f
  else if endswith lower ".m4a" || endswith lower ".mp4" then _write_mp4 meta f
  else if endswith lower ".opus" then _write_ogg_opus meta f
  else if endswith lower ".ogg" then
    match _write_ogg_opus meta f with
    | Raise MutagenError => _write_ogg_vorbis meta f
    | r => r
    end
  else Ok f.
End Writers.

(** The comment values a file carries: the strings of its comment field,
    for an MP3 the texts of all its comment frames. *)
Definition obj_strings (o : pyobj) : list string :=
  match o with
  | OList l => omap item_str l
  | OStr s => [s]
  | _ => []
  end.

Definition comment_values (f : AudioFile) : list string :=
  match f with
  | Mp3 _ id3 => concat (id3_getall_COMM id3)
  | Flac t | OggOpus t | OggVorbis t => obj_strings (tag_get t "comment")
  | Mp4 t => obj_strings (tag_get t (atom "cmt"))
  | NotAudio => []
  end.

(** ** The process as a whole

    [World] adds to the record store what the sync manager and the
    pipeline touch: [config.json] as [load_config()] returns it (the
    empty dictionary when the file is missing; the string-valued top
    level keys), the state of the clone directory, and [log], the calls
    made to the outside and to the store, oldest first. *)

Inductive clone_state := NoDir | PlainDir | GitRepo.

Inductive Event :=
| EvLockAcquire
| EvLockRelease
| EvRmtree (dir : string)
| EvSubprocess (argv : list string) (cwd : option string)
| EvCopy (src dst : string)
| EvStoreGet (key : option string)
| EvUpsertAlbum (a : AlbumMetadata.t)
| EvUpsertTrack (t : TrackMetadata.t)
| EvLoadFile (path initial_path : string)
| EvSaveFile (local_path remote_base_path relative_path : string)
| EvReadTags (path : string)
| EvIsProcessed (path : string)
| EvInfer (filename : string) (existing : option TrackMetadata.t)
| EvConfirm (proposed : TrackMetadata.t)
| EvWriteTags (path : string) (meta : TrackMetadata.t)
| EvRemove (path : string).

#[export] Instance Event_eq_dec : EqDecision Event.
Proof. solve_decision. Defined.

Record World := mkWorld {
  store : Store;
  config : gmap string string;
  clone : clone_state;
  log : list Event
}.

Definition set_store (f : Store -> Store) (w : World) : World :=
  mkWorld (f (store w)) (config w) (clone w) (log w).
Definition set_clone (c : clone_state) (w : World) : World :=
  mkWorld (store w) (config w) c (log w).
Definition emit (e : Event) : M World unit :=
  fun w => (Ok tt, mkWorld (store w) (config w) (clone w) (log w ++ [e])%list).

(** A store operation run inside the process. *)
Definition lift_store {A} (m : M Store A) : M World A :=
  fun w => let '(r, s) := m (store w) in (r, set_store (fun _ => s) w).

Record CompletedProcess := mkCompleted {
  returncode : Z;
  stdout : string;
  stderr : string
}.

(** What lies outside the repository: the subprocesses ([git]), the
    lock file, the network, the tag codec and the inference provider.
    A subprocess may rewrite the table files of the clone, so it maps
    the files before to the files after. *)
Record Env := mkEnv {
  subprocess_run :
    list string -> option string -> gmap string (list row) ->
    CompletedProcess * gmap string (list row);
  lock_free : bool;
  webdav_credentials : option string * option string;
  webdav_list : string -> result (list string);
  webdav_download : string -> string -> result unit;
  webdav_upload : string -> string -> result unit;
  local_listing : string -> list entry;
  read_file_metadata : string -> result (option TrackMetadata.t);
  is_already_processed : string -> result bool;
  parse_metadata_with_ai :
    string -> option TrackMetadata.t -> result TrackMetadata.t;
  validate_api_key : result unit;
  validate_path : string -> result string
}.

Inductive Transport :=
| LocalTransport
| WebdavTransport (webdav_hostname : string)
                  (webdav_login webdav_password : option string).

Definition cleanup_local_files (t : Transport) : bool :=
  match t with LocalTransport => false | WebdavTransport _ _ _ => true end.

Record Namespace := mkArgs {
  verbose : bool;
  dry_run : bool;
  path : option string;
  webdav : option string;
  webdav_user : option string;
  webdav_password : option string;
  no_skip_processed : bool;
  no_skip_in_metadata : bool;
  no_sync : bool
}.

(** The characters [str.strip()] removes are U+0009 to U+000D, U+001C
    to U+0020, U+0085, U+00A0, U+1680, U+2000 to U+200A, U+2028, U+2029,
    U+202F, U+205F and U+3000; below, each by the bytes of its UTF-8
    encoding. *)
Definition space_1 (a : nat) : bool :=
  ((9 <=? a) && (a <=? 13) || (28 <=? a) && (a <=? 32))%nat.

Definition space_2 (a b : nat) : bool :=
  ((a =? 194) && ((b =? 133) || (b =? 160)))%nat.

Definition space_3 (a b c : nat) : bool :=
  ((a =? 225) && (b =? 154) && (c =? 128)
   || (a =? 226) && (b =? 128)
      && ((128 <=? c) && (c <=? 138) || (c =? 168) || (c =? 169)
          || (c =? 175))
   || (a =? 226) && (b =? 129) && (c =? 159)
   || (a =? 227) && (b =? 128) && (c =? 128))%nat.

(** [s.strip()] is empty. *)
Fixpoint all_whitespace (s : string) : bool :=
  match s with
  | EmptyString => true
  | String a rest =>
    if space_1 (Ascii.nat_of_ascii a) then all_whitespace rest
    else
      match rest with
      | EmptyString => false
      | String b rest1 =>
        if space_2 (Ascii.nat_of_ascii a) (Ascii.nat_of_ascii b)
        then all_whitespace rest1
        else
          match rest1 with
          | EmptyString => false
          | String c rest2 =>
            space_3 (Ascii.nat_of_ascii a) (Ascii.nat_of_ascii b)
              (Ascii.nat_of_ascii c)
            && all_whitespace rest2
          end
      end
  end.

(** [a or b] on two optional strings. *)
Definition opt_or (a b : option string) : option string :=
  if truthy_opt a then a else b.

Section Process.
Variable env : Env.

(** *** src/utils/git_sync.py *)

Definition get_git_repo_dir : M World string :=
  d ← lift_store get_or_create_config_dir; mret (path_div d "metadata-repo").

Definition load_config : M World (gmap string string) :=
  _ ← lift_store get_or_create_config_dir;
  w ← get_state; mret (config w).

Definition get_sync_repo : M World (option string) :=
  c ← load_config; mret (c !! "sync_repo").

(** [subprocess.run(argv, cwd=cwd, capture_output=True, text=True)] *)
Definition spawn (argv : list string) (cwd : option string)
    : M World CompletedProcess :=
  fun w =>
    let '(r, fs) := subprocess_run env argv cwd (files (store w)) in
    (Ok r, set_store (set_files (fun _ => fs)) w).

Definition run (argv : list string) (cwd : option string)
    : M World CompletedProcess :=
  _ ← emit (EvSubprocess argv cwd); spawn argv cwd.

Definition _run_git (args : list string) (cwd : string) (check : bool)
    : M World CompletedProcess :=
  r ← run ("git" :: args) (Some cwd);
  if check && negb (bool_decide (returncode r = 0%Z))
  then raise CalledProcessError
  else mret r.

Definition rmtree (dir : string) : M World unit :=
  _ ← emit (EvRmtree dir);
  _ ← modify (set_store (set_files
         (filter (fun kv => ¬ startswith (fst kv) (dir +:+ "/")))));
  modify (set_clone NoDir).

Definition _ensure_repo_cloned (repo_url : string) : M World string :=
  repo_dir ← get_git_repo_dir;
  w ← get_state;
  match clone w with
  | GitRepo => mret repo_dir
  | st =>
    _ ← (match st with PlainDir => rmtree repo_dir | _ => mret tt end);
    r ← run ["git"; "clone"; repo_url; repo_dir] None;
    if negb (bool_decide (returncode r = 0%Z))
    then raise (RuntimeError ("Failed to clone repository: " +:+ stderr r))
    else _ ← modify (set_clone GitRepo); mret repo_dir
  end.

(** [shutil.copy2(src, dst)] when [src.exists()]. *)
Definition copy_if_exists (src dst : string) : M World unit :=
  w ← get_state;
  match files (store w) !! src with
  | Some content =>
    _ ← emit (EvCopy src dst);
    modify (set_store (set_files (<[dst := content]>)))
  | None => mret tt
  end.

Definition _sync_file_to_repo (filename repo_dir : string) : M World unit :=
  config_dir ← lift_store get_or_create_config_dir;
  copy_if_exists (path_div config_dir filename) (path_div repo_dir filename).

Definition _sync_file_from_repo (filename repo_dir : string) : M World unit :=
  config_dir ← lift_store get_or_create_config_dir;
  copy_if_exists (path_div repo_dir filename) (path_div config_dir filename).

(** [with _get_repo_lock(): body]: the lock is released on every way
    out of the body; a lock that stays held makes the acquisition time
    out. *)
Definition with_repo_lock {A} (body : M World A) : M World A :=
  if lock_free env
  then fun w =>
    match emit EvLockAcquire w with
    | (_, w1) => let '(r, w2) := body w1 in (r, snd (emit EvLockRelease w2))
    end
  else raise Timeout.

Definition pull_metadata : M World bool :=
  repo_url ← get_sync_repo;
  if negb (truthy_opt repo_url) then mret false
  else with_repo_lock (
    repo_dir ← _ensure_repo_cloned (default "" repo_url);
    _ ← _run_git ["pull"; "--rebase"] repo_dir false;
    _ ← _sync_file_from_repo "metadata.csv" repo_dir;
    _ ← _sync_file_from_repo "albums.csv" repo_dir;
    mret true).

Definition push_metadata : M World bool :=
  repo_url ← get_sync_repo;
  if negb (truthy_opt repo_url) then mret false
  else with_repo_lock (
    repo_dir ← _ensure_repo_cloned (default "" repo_url);
    _ ← _sync_file_to_repo "metadata.csv" repo_dir;
    _ ← _sync_file_to_repo "albums.csv" repo_dir;
    r ← _run_git ["status"; "--porcelain"] repo_dir true;
    if all_whitespace (stdout r) then mret true
    else
      _ ← _run_git ["add"; "metadata.csv"; "albums.csv"] repo_dir true;
      r ← _run_git ["commit"; "-m"; "Update metadata from song-classifier"]
            repo_dir false;
      if negb (bool_decide (returncode r = 0%Z))
         && negb (contains (stdout r) "nothing to commit")
      then mret false
      else
        r ← _run_git ["push"] repo_dir false;
        if negb (bool_decide (returncode r = 0%Z)) then mret false
        else mret true).
End Process.

Section Pipeline.
Variable env : Env.

(** *** src/utils/file_transport.py: the two transports *)

Definition FileTransport (transport_type : TransportType)
    (webdav_host webdav_username webdav_password : option string)
    : result Transport :=
  match transport_type with
  | LOCAL => Ok LocalTransport
  | WEBDAV =>
    if negb (truthy_opt webdav_host)
    then Raise (ValueError "webdav_host must be provided for WebdavTransport")
    else
      let '(config_user, config_pass) := webdav_credentials env in
      let '(username, password) :=
        match webdav_username, webdav_password with
        | Some _, Some _ => (webdav_username, webdav_password)
        | _, _ => (opt_or webdav_username config_user,
                   opt_or webdav_password config_pass)
        end in
      Ok (WebdavTransport (default "" webdav_host) username password)
  end.

(** [list(file_transport.list_files(path))] *)
Definition transport_list_files (t : Transport) (path : string)
    : M World (list string) :=
  match t with
  | LocalTransport => mret (list_files (local_listing env path) path None)
  | WebdavTransport _ _ _ => lift_result (webdav_list env path)
  end.

Definition get_or_create_temp_dir : M World string :=
  d ← lift_store get_or_create_config_dir; mret (path_div d "temp").

Definition load_file (t : Transport) (path initial_path : string)
    : M World string :=
  match t with
  | LocalTransport => mret (os_path_join initial_path path)
  | WebdavTransport _ _ _ =>
    temp_dir ← get_or_create_temp_dir;
    let local_path := os_path_join temp_dir path in
    let remote_path := os_path_join initial_path path in
    _ ← lift_result (webdav_download env remote_path local_path);
    mret local_path
  end.

Definition save_file (t : Transport)
    (local_path remote_base_path relative_path : string)
    : M World (option string) :=
  match t with
  | LocalTransport => mret None
  | WebdavTransport _ _ _ =>
    let remote_path := os_path_join remote_base_path relative_path in
    _ ← lift_result (webdav_upload env remote_path local_path);
    mret (Some remote_path)
  end.

(** *** src/main.py *)

(** The truth value of what [get_file_metadata] returns: a record is
    true, [None] is false, a list is true when it is not empty. *)
Definition lookup_truthy (l : lookup TrackMetadata.t) : bool :=
  match l with
  | Single (Some _) => true
  | Single None => false
  | Listing l => negb (bool_decide (l = []))
  end.

(** [if file_transport.cleanup_local_files: try: os.remove(local_path)
    except OSError: pass] *)
Definition remove_local_copy (t : Transport) (local_path : string)
    : M World unit :=
  if cleanup_local_files t then emit (EvRemove local_path) else mret tt.

Definition classify_filename (filename base_path : string)
    (file_transport : Transport)
    (skip_processed_files skip_files_in_metadata dry_run : bool)
    : M World (option TrackMetadata.t) :=
  known ← (if skip_files_in_metadata
           then
             _ ← emit (EvStoreGet (Some filename));
             r ← lift_store (get_file_metadata (Some filename));
             mret (lookup_truthy r)
           else mret false);
  if (known : bool) then mret None
  else
    _ ← emit (EvLoadFile filename base_path);
    local_path ← load_file file_transport filename base_path;
    _ ← emit (EvReadTags local_path);
    existing ← lift_result (read_file_metadata env local_path);
    processed ← (if skip_processed_files
                 then
                   _ ← emit (EvIsProcessed local_path);
                   lift_result (is_already_processed env local_path)
                 else mret false);
    if (processed : bool)
    then _ ← remove_local_copy file_transport local_path; mret None
    else
      _ ← emit (EvInfer filename existing);
      ai_metadata ← lift_result (parse_metadata_with_ai env filename existing);
      if dry_run
      then
        _ ← remove_local_copy file_transport local_path;
        mret (Some ai_metadata)
      else
        (* [confirmed = confirm_metadata(ai_metadata)]: [confirm_metadata]
           is declared [async def] and is called without [await], so
           [confirmed] is a coroutine object and the form is not run.
           The next statement evaluates [confirmed.album], which raises
           [AttributeError]; the statements after it (the two upserts,
           [write_file_metadata], [save_file], the removal of the local
           copy) are never reached. *)
        raise AttributeError.

(** *** src/cli.py *)

(** The [for] loop of [process_files], [processed] being the counter
    on entry. *)
Fixpoint process_loop (files : list string) (base_path : string)
    (file_transport : Transport)
    (skip_processed skip_in_metadata dry_run : bool) (processed : nat)
    : M World nat :=
  match files with
  | [] => mret processed
  | filename :: rest =>
    r ← classify_filename filename base_path file_transport
          skip_processed skip_in_metadata dry_run;
    process_loop rest base_path file_transport
      skip_processed skip_in_metadata dry_run
      (match r with Some _ => S processed | None => processed end)
  end.

Definition process_files (files : list string) (base_path : string)
    (file_transport : Transport)
    (skip_processed skip_in_metadata dry_run verbose : bool) : M World nat :=
  process_loop files base_path file_transport
    skip_processed skip_in_metadata dry_run 0.

Definition sys_exit {A} (code : Z) : M World A := raise (SystemExit code).

(** The part of [cmd_process] from [files_processed = 0] to its end.
    The assignment inside [try] takes place only when [asyncio.run]
    returns; in the handler the variable still has the value it was
    given before the [try]. *)
Definition process_and_sync (args : Namespace) (files : list string)
    (path : string) (file_transport : Transport)
    (skip_processed skip_in_metadata : bool) : M World unit :=
  fun w =>
    let files_processed := 0%nat in
    match process_files files path file_transport skip_processed
            skip_in_metadata (dry_run args) (verbose args) w with
    | (Ok n, w') =>
      let files_processed := n in
      (if negb (no_sync args) && negb (dry_run args)
       then _ ← push_metadata env; mret tt
       else mret tt) w'
    | (Raise KeyboardInterrupt, w') =>
      (_ ← (if negb (no_sync args) && (0 <? files_processed)%nat
            then _ ← push_metadata env; mret tt
            else mret tt);
       sys_exit 130) w'
    | (Raise e, w') => (Raise e, w')
    end.

Definition cmd_process (args : Namespace) : M World unit :=
  _ ← (if negb (dry_run args)
       then
         match validate_api_key env with
         | Raise MissingAPIKeyError => sys_exit 1
         | r => lift_result r
         end
       else mret tt);
  path ← (match validate_path env (default "." (opt_or (path args) (Some ".")))
          with
          | Raise (ValueError _) => sys_exit 1
          | r => lift_result r
          end);
  let transport_type := if truthy_opt (webdav args) then WEBDAV else LOCAL in
  let skip_processed := negb (no_skip_processed args) in
  let skip_in_metadata := negb (no_skip_in_metadata args) in
  _ ← (if negb (no_sync args)
       then _ ← pull_metadata env; mret tt
       else mret tt);
  file_transport ← lift_result
    (FileTransport transport_type (webdav args) (webdav_user args)
       (webdav_password args));
  files ← transport_list_files file_transport path;
  if bool_decide (files = []) then mret tt
  else process_and_sync args files path file_transport
         skip_processed skip_in_metadata.
End Pipeline.

(** ** src/utils/file_metadata.py: the readers and the processed test

    [read_file_metadata] and [is_already_processed] as functions of the
    file found at the path; the pipeline above reaches them through the
    environment.  A field of an MP3 read through [EasyMP3] is the list
    of texts of its frame; [Mp3] holds the first of them, which is all
    that the readers look at. *)

Module file_metadata.

(** [audio.get(k)] on an [EasyMP3]. *)
Definition easy_get (easy : gmap string string) (k : string) : pyobj :=
  match easy !! k with
  | Some s => OList [IStr s]
  | None => ONone
  end.

Section Readers.
(** [str(v)] for a list item that is not a string. *)
Variable py_str : pyitem -> string.

Definition _safe_first (value : pyobj) : option string :=
  match value with
  | OList (v :: _) => Some (match v with IStr s => s | _ => py_str v end)
  | OStr s => Some s
  | _ => None
  end.

(** What the five readers do with the fields they fetched, from
    [if not any([...])] on; [albumartist] is [None] in the readers that
    do not fetch it. *)
Definition from_fields (path : string)
    (title artist album albumartist genre date : option string)
    : option TrackMetadata.t :=
  if negb (existsb truthy_opt [title; artist; album; genre; date])
  then None
  else
    Some (TrackMetadata.mk path (or_empty title) (or_empty artist)
            (AlbumMetadata.mk (or_empty album)
               (or_empty (opt_or albumartist artist)))
            (or_empty genre) date).

Definition _from_mp3 (path : string) (f : AudioFile)
    : option TrackMetadata.t :=
  match f with
  | Mp3 easy _ =>
    let title := _safe_first (easy_get easy "title") in
    let artist := _safe_first (easy_get easy "artist") in
    let album := _safe_first (easy_get easy "album") in
    let genre := _safe_first (easy_get easy "genre") in
    let date := opt_or (_safe_first (easy_get easy "date"))
                       (_safe_first (easy_get easy "originaldate")) in
    from_fields path title artist album None genre date
  | _ => None
  end.

Definition _from_flac (path : string) (f : AudioFile)
    : option TrackMetadata.t :=
  match f with
  | Flac t =>
    let title := _safe_first (tag_get t "title") in
    let artist := _safe_first (tag_get t "artist") in
    let album := _safe_first (tag_get t "album") in
    let genre := _safe_first (tag_get t "genre") in
    let date := _safe_first (tag_get t "date") in
    from_fields path title artist album None genre date
  | _ => None
  end.

Definition _from_mp4 (path : string) (f : AudioFile)
    : option TrackMetadata.t :=
  match f with
  | Mp4 t =>
    let title := _safe_first (tag_get t (atom "nam")) in
    let artist := _safe_first (tag_get t (atom "ART")) in
    let album := _safe_first (tag_get t (atom "alb")) in
    let genre := _safe_first (tag_get t (atom "gen")) in
    let date := _safe_first (tag_get t (atom "day")) in
    from_fields path title artist album None genre date
  | _ => None
  end.

(** The body the two Ogg readers share once the file is open. *)
Definition from_vorbis_comment (path : string) (t : tags)
    : option TrackMetadata.t :=
  let title := _safe_first (tag_get t "title") in
  let artist := _safe_first (tag_get t "artist") in
  let album := _safe_first (tag_get t "album") in
  let albumartist := _safe_first (tag_get t "albumartist") in
  let genre := _safe_first (tag_get t "genre") in
  let date := _safe_first (tag_get t "date") in
  from_fields path title artist album albumartist genre date.

Definition _from_ogg_opus (path : string) (f : AudioFile)
    : option TrackMetadata.t :=
  match f with
  | OggOpus t => from_vorbis_comment path t
  | _ => None
  end.

Definition _from_ogg_vorbis (path : string) (f : AudioFile)
    : option TrackMetadata.t :=
  match f with
  | OggVorbis t => from_vorbis_comment path t
  | _ => None
  end.

(** [read_file_metadata(path)], [file] being what is at [path]:
    [None] when nothing is. *)
Definition read_file_metadata (path : string) (file : option AudioFile)
    : option TrackMetadata.t :=
  match file with
  | None => None
  | Some f =>
    let lower := lower path in
    if endswith lower ".mp3" then _from_mp3 path f
    else if endswith lower ".flac" then _from_flac path f
    else if endswith lower ".m4a" || endswith lower ".mp4"
    then _from_mp4 path f
    else if endswith lower ".opus" then _from_ogg_opus path f
    else if endswith lower ".ogg" then
      match _from_ogg_opus path f with
      | Some r => Some r
      | None => _from_ogg_vorbis path f
      end
    else None
  end.
End Readers.

(** [is_already_processed(path)], [f] being the file at [path]; a file
    that the class chosen by the extension cannot open makes the
    library raise [MutagenError], which is answered with [False]. *)
Definition is_already_processed (path : string) (f : AudioFile) : bool :=
  let lower := lower path in
  if endswith lower ".mp3" then
    match f with
    | Mp3 _ id3 =>
      existsb (fun texts =>
                 _has_marker_in_list (OList (IStr <$> texts)) PROCESSED_MARKER)
              (id3_getall_COMM id3)
    | _ => false
    end
  else if endswith lower ".flac" then
    match f with
    | Flac t => _has_marker_in_list (tag_get t "comment") PROCESSED_MARKER
    | _ => false
    end
  else if endswith lower ".m4a" || endswith lower ".mp4" then
    match f with
    | Mp4 t => _has_marker_in_list (tag_get t (atom "cmt")) PROCESSED_MARKER
    | _ => false
    end
  else if endswith lower ".opus" then
    match f with
    | OggOpus t => _has_marker_in_list (tag_get t "comment") PROCESSED_MARKER
    | _ => false
    end
  else if endswith lower ".ogg" then
    if match f with
       | OggOpus t => _has_marker_in_list (tag_get t "comment") PROCESSED_MARKER
       | _ => false
       end
    then true
    else
      match f with
      | OggVorbis t =>
        _has_marker_in_list (tag_get t "comment") PROCESSED_MARKER
      | _ => false
      end
  else false.
End file_metadata.

(** ** src/utils/config.py, src/utils/git_sync.py: writing the
    configuration *)

Definition set_config (f : gmap string string -> gmap string string)
    (w : World) : World :=
  mkWorld (store w) (f (config w)) (clone w) (log w).

Definition save_config (c : gmap string string) : M World unit :=
  _ ← lift_store get_or_create_config_dir;
  modify (set_config (fun _ => c)).

Definition set_sync_repo (repo_url : string) : M World unit :=
  c ← load_config;
  save_config (<["sync_repo" := repo_url]> c).

(** ** src/utils/ui_confirm.py: the options of the album selector *)

Module ui_confirm.
(** [f"{name} ({artist})"] *)
Definition album_label (name artist : string) : string :=
  name +:+ " (" +:+ artist +:+ ")".

Definition _build_album_options (initial : TrackMetadata.t)
    (albums : list AlbumMetadata.t) : list (string * string) * string :=
  let album_options :=
    (fun a => (album_label (AlbumMetadata.name a) (AlbumMetadata.artist a),
               AlbumMetadata.name a)) <$> albums in
  let album_options :=
    (album_options ++ [("Create new...", "__create__")])%list in
  let option_values := snd <$> album_options in
  let initial_name := AlbumMetadata.name (TrackMetadata.album initial) in
  let initial_artist := AlbumMetadata.artist (TrackMetadata.album initial) in
  let absent :=
    truthy initial_name && negb (bool_decide (initial_name ∈ option_values)) in
  let initial_label :=
    if truthy initial_artist then album_label initial_name initial_artist
    else initial_name in
  let album_options :=
    if absent then (initial_label, initial_name) :: album_options
    else album_options in
  let option_values :=
    if absent then initial_name :: option_values else option_values in
  let desired_default := or_None initial_name in
  let default_value :=
    if truthy_opt desired_default
       && bool_decide (default "" desired_default ∈ option_values)
    then default "" desired_default
    else
      match option_values with
      | v :: _ => v
      | [] => "__create__"
      end in
  (album_options, default_value).
End ui_confirm.

(** * Specification

    The vocabulary of the statements below: views of the store and of
    the call log, the conditions under which the properties are stated,
    and the concrete records, stores and environments they are
    evaluated on. *)

(** The records of the test fixtures, and a store with no file. *)
Definition sample_album : AlbumMetadata.t :=
  AlbumMetadata.mk "Test Album" "Test Artist".
Definition sample_track : TrackMetadata.t :=
  TrackMetadata.mk "test_file.mp3" "Test Track" "Test Artist" sample_album
    "Electronic" (Some "2024").
Definition empty_store : Store := mkStore "/cfg" ∅ ∅.

(** A record as it comes back from its own row: a date given as the
    empty string comes back absent. *)
Definition normalize (t : TrackMetadata.t) : TrackMetadata.t :=
  TrackMetadata.mk (TrackMetadata.key t) (TrackMetadata.track t)
    (TrackMetadata.artist t) (TrackMetadata.album t) (TrackMetadata.genre t)
    (or_None (or_empty (TrackMetadata.date t))).

(** The text holds a carriage return. *)
Fixpoint has_cr (s : string) : bool :=
  match s with
  | EmptyString => false
  | String c rest => bool_decide (c = CR) || has_cr rest
  end.

(** Some text of the record holds a carriage return. *)
Definition album_has_cr (a : AlbumMetadata.t) : bool :=
  has_cr (AlbumMetadata.name a) || has_cr (AlbumMetadata.artist a).
Definition track_has_cr (t : TrackMetadata.t) : bool :=
  has_cr (TrackMetadata.key t) || has_cr (TrackMetadata.track t)
  || has_cr (TrackMetadata.artist t) || album_has_cr (TrackMetadata.album t)
  || has_cr (TrackMetadata.genre t)
  || has_cr (default "" (TrackMetadata.date t)).

(** A record as the reader gives it back from the row it was written
    to. *)
Definition album_as_read (a : AlbumMetadata.t) : AlbumMetadata.t :=
  AlbumMetadata.mk (universal_newlines (AlbumMetadata.name a))
    (universal_newlines (AlbumMetadata.artist a)).
Definition track_as_read (t : TrackMetadata.t) : TrackMetadata.t :=
  TrackMetadata.mk (universal_newlines (TrackMetadata.key t))
    (universal_newlines (TrackMetadata.track t))
    (universal_newlines (TrackMetadata.artist t))
    (album_as_read (TrackMetadata.album t))
    (universal_newlines (TrackMetadata.genre t))
    (universal_newlines <$> TrackMetadata.date t).

(** The rows of a file as [_read_csv_rows] gives them. *)
Definition rows_as_read (rows : list row) : list row :=
  (fun r : row => universal_newlines <$> r) <$> rows.

(** A record with no date. *)
Definition undated_track : TrackMetadata.t :=
  TrackMetadata.mk "test.mp3" "Track" "Artist" sample_album "House" None.

(** Every cell of the row is free of carriage returns. *)
Definition clean_row (r : row) : Prop :=
  forall k v, r !! k = Some v -> has_cr v = false.

(** The upsert on the list of records, which the row-level loop
    implements. *)
Fixpoint upsert_tracks (t : TrackMetadata.t) (ts : list TrackMetadata.t)
    : list TrackMetadata.t :=
  match ts with
  | [] => [t]
  | x :: rest =>
    if bool_decide (TrackMetadata.key x = TrackMetadata.key t)
    then t :: rest
    else x :: upsert_tracks t rest
  end.

(** The files of the two tables. *)
Definition metadata_path (s : Store) : string :=
  path_div (config_dir s) "metadata.csv".
Definition albums_path (s : Store) : string :=
  path_div (config_dir s) "albums.csv".

(** The number of data rows of the asset table. *)
Definition row_count (s : Store) : nat :=
  length (default [] (files s !! metadata_path s)).

(** The asset table as the store reads it. *)
Definition load_tracks (s : Store) : result (list TrackMetadata.t) :=
  fst (_read_track_metadata (metadata_path s) false s).
Definition load_albums (s : Store) : result (list AlbumMetadata.t) :=
  fst (_read_album_metadata (albums_path s) false s).

(** Upserts one after the other. *)
Fixpoint upsert_all (rs : list TrackMetadata.t) : M Store unit :=
  match rs with
  | [] => mret tt
  | r :: rest => _ ← upsert_track_metadata r; upsert_all rest
  end.

(** Some record of the list has the key. *)
Definition has_track_key (k : string) (l : list TrackMetadata.t) : Prop :=
  Exists (fun x => TrackMetadata.key x = k) l.

(** A record whose key is the empty string. *)
Definition keyless_track : TrackMetadata.t :=
  TrackMetadata.mk "" "Test Track" "Test Artist" sample_album "Electronic" None.

(** The cells of the row, as the reader gives them, are the fields of
    the record. *)
Definition row_holds_album (r : row) (a : AlbumMetadata.t) : Prop :=
  universal_newlines <$> r !! "name" = Some (AlbumMetadata.name a) /\
  universal_newlines <$> r !! "artist" = Some (AlbumMetadata.artist a).
Definition row_holds_track (r : row) (t : TrackMetadata.t) : Prop :=
  universal_newlines <$> r !! "key" = Some (TrackMetadata.key t) /\
  universal_newlines <$> r !! "track" = Some (TrackMetadata.track t) /\
  universal_newlines <$> r !! "artist" = Some (TrackMetadata.artist t) /\
  universal_newlines <$> r !! "album_name"
    = Some (AlbumMetadata.name (TrackMetadata.album t)) /\
  universal_newlines <$> r !! "album_artist"
    = Some (AlbumMetadata.artist (TrackMetadata.album t)) /\
  universal_newlines <$> r !! "genre" = Some (TrackMetadata.genre t) /\
  universal_newlines <$> r !! "date" = Some (default "" (TrackMetadata.date t)) /\
  TrackMetadata.date t ≠ Some "".

(** A store with two assets and one album on file. *)
Definition listed_store : Store :=
  mkStore "/cfg"
    {[ "/cfg/metadata.csv" :=
         [TrackMetadata.to_csv_row sample_track;
          TrackMetadata.to_csv_row undated_track];
       "/cfg/albums.csv" := [AlbumMetadata.to_csv_row sample_album] ]} ∅.

(** A row of the legacy schema: every legacy column, and no
    [album_name] column. *)
Definition is_legacy_row (r : row) : bool :=
  forallb (has_key r) LEGACY_TRACK_FIELDNAMES && negb (has_key r "album_name").

(** What the migration makes of one legacy row, whose cells come as the
    reader gives them. *)
Definition migrated (r : row) (t : TrackMetadata.t) : Prop :=
  universal_newlines <$> r !! "album"
    = Some (AlbumMetadata.name (TrackMetadata.album t)) /\
  universal_newlines <$> r !! "artist" = Some (TrackMetadata.artist t) /\
  AlbumMetadata.artist (TrackMetadata.album t) = TrackMetadata.artist t /\
  universal_newlines <$> r !! "key" = Some (TrackMetadata.key t).

(** The legacy table of the test fixtures. *)
Definition legacy_rows : list row :=
  [ <["key" := "test1.mp3"]> (<["track" := "Track One"]>
      (<["artist" := "Artist One"]> (<["album" := "Album One"]>
      (<["genre" := "House"]> (<["date" := "2024"]> ∅)))));
    <["key" := "test2.mp3"]> (<["track" := "Track Two"]>
      (<["artist" := "Artist Two"]> (<["album" := "Album Two"]>
      (<["genre" := "Techno"]> (<["date" := "2023"]> ∅))))) ].

Definition legacy_store : Store :=
  mkStore "/cfg" {[ "/cfg/metadata.csv" := legacy_rows ]} ∅.

(** Kinds of calls in the log: to the record store, changing the
    record store, publishing through the transport, to the confirmation
    form, writing tags. *)
Definition is_store_call (e : Event) : bool :=
  match e with
  | EvStoreGet _ | EvUpsertAlbum _ | EvUpsertTrack _ => true
  | _ => false
  end.
Definition is_store_mutation (e : Event) : bool :=
  match e with
  | EvUpsertAlbum _ | EvUpsertTrack _ => true
  | _ => false
  end.
Definition is_publish (e : Event) : bool :=
  match e with EvSaveFile _ _ _ => true | _ => false end.
Definition is_confirm_call (e : Event) : bool :=
  match e with EvConfirm _ => true | _ => false end.
Definition is_tag_write (e : Event) : bool :=
  match e with EvWriteTags _ _ => true | _ => false end.

(** What the inference proposes in the environments below. *)
Definition inferred_track (filename : string) : TrackMetadata.t :=
  TrackMetadata.mk filename "Test Song" "Test Artist" sample_album
    "Electronic" (Some "2024").

(** An environment where every collaborator succeeds; the inference
    proposes [inferred_track]. *)
Definition quiet_env : Env :=
  mkEnv (fun _ _ fs => (mkCompleted 0 "" "", fs)) true (None, None)
    (fun _ => Ok []) (fun _ _ => Ok tt) (fun _ _ => Ok tt) (fun _ => [])
    (fun _ => Ok None) (fun _ => Ok false)
    (fun filename _ => Ok (inferred_track filename))
    (Ok tt) (fun p => Ok p).

(** A world whose asset table has a record for [known.mp3]. *)
Definition known_track : TrackMetadata.t :=
  TrackMetadata.mk "known.mp3" "Existing" "Artist"
    (AlbumMetadata.mk "Album" "Artist") "House" (Some "2024").

Definition known_world : World :=
  mkWorld
    (mkStore "/cfg"
       {[ "/cfg/metadata.csv" := [TrackMetadata.to_csv_row known_track] ]} ∅)
    ∅ NoDir [].

(** Where [load_file] puts the local copy. *)
Definition local_copy (t : Transport) (filename base_path : string)
    (w : World) : string :=
  match t with
  | LocalTransport => os_path_join base_path filename
  | WebdavTransport _ _ _ =>
    os_path_join (path_div (config_dir (store w)) "temp") filename
  end.

(** The run gets as far as the dry-run test: the asset is not skipped
    at the start, the fetch succeeds, the tags are read as [existing],
    the asset is not skipped as processed, and the inference returns
    [ai]. *)
Definition reaches_dry_run_check (env : Env) (filename base_path : string)
    (t : Transport) (skip_processed_files skip_files_in_metadata : bool)
    (w : World) (existing : option TrackMetadata.t) (ai : TrackMetadata.t)
    : Prop :=
  let local_path := local_copy t filename base_path w in
  (skip_files_in_metadata = true ->
   exists l, fst (get_file_metadata (Some filename) (store w)) = Ok l /\
             lookup_truthy l = false) /\
  match t with
  | LocalTransport => True
  | WebdavTransport _ _ _ =>
    webdav_download env (os_path_join base_path filename) local_path = Ok tt
  end /\
  read_file_metadata env local_path = Ok existing /\
  (skip_processed_files = true ->
   is_already_processed env local_path = Ok false) /\
  parse_metadata_with_ai env filename existing = Ok ai.

(** No call that changes the store, asks the operator, writes tags or
    publishes. *)
Definition read_only_call (e : Event) : bool :=
  negb (is_store_mutation e) && negb (is_confirm_call e)
  && negb (is_tag_write e) && negb (is_publish e).

(** A world with no table file, no configuration and no clone. *)
Definition empty_world : World := mkWorld empty_store ∅ NoDir [].

(** The key of the comment frame the MP3 writer adds. *)
Definition own_key : string * string := ("song-classifier", "eng").

(** The file is of the container its extension announces, so that the
    writer chosen by [write_file_metadata] can open it. *)
Definition supported (path : string) (f : AudioFile) : bool :=
  let l := lower path in
  match f with
  | Mp3 _ _ => endswith l ".mp3"
  | Flac _ => endswith l ".flac"
  | Mp4 _ => endswith l ".m4a" || endswith l ".mp4"
  | OggOpus _ => endswith l ".opus" || endswith l ".ogg"
  | OggVorbis _ => endswith l ".ogg"
  | NotAudio => false
  end.

(** An Ogg file whose comment block has no field. *)
Definition ogg_without_fields (f : AudioFile) : bool :=
  match f with
  | OggOpus t | OggVorbis t => bool_decide (t = ∅)
  | _ => false
  end.

(** An [EasyID3] that gives every text back as it was assigned. *)
Definition plain_text : string -> string -> option string :=
  fun _ v => Some v.

(** The writer for the container of a file. *)
Definition writer_of (easy_text : string -> string -> option string)
    (f : AudioFile) : TrackMetadata.t -> AudioFile -> result AudioFile :=
  match f with
  | Mp3 _ _ => _write_mp3 easy_text
  | Flac _ => _write_flac
  | Mp4 _ => _write_mp4
  | OggOpus _ => _write_ogg_opus
  | OggVorbis _ => _write_ogg_vorbis
  | NotAudio => fun _ f => Ok f
  end.

(** Some comment value contains the marker. *)
Definition carries_marker (f : AudioFile) : bool :=
  existsb (fun v => contains v PROCESSED_MARKER) (comment_values f).

(** The container with comment frames. *)
Definition is_mp3 (f : AudioFile) : bool :=
  match f with Mp3 _ _ => true | _ => false end.

(** For an MP3: no comment frame under the writer's own key yet, or the
    marker already there.  Other containers have no such frame. *)
Definition own_frame_clear (f : AudioFile) : Prop :=
  match f with
  | Mp3 _ id3 => id3 !! own_key = None \/ carries_marker f = true
  | _ => True
  end.

(** The comment frames under keys other than the writer's own. *)
Definition other_frames (f : AudioFile) : ID3 :=
  match f with
  | Mp3 _ id3 => delete own_key id3
  | _ => ∅
  end.

(** An Ogg Vorbis file with one comment. *)
Definition annotated_ogg : AudioFile :=
  OggVorbis {[ "comment" := OList [IStr "my note"] ]}.

(** An MP3 whose comment frame under the writer's own key holds a note
    and not the marker. *)
Definition annotated_mp3 : AudioFile :=
  Mp3 ∅ {[ own_key := ["my note"] ]}.

(** Induction on a directory tree, with the hypothesis for every child
    of a directory. *)
Fixpoint entry_ind_nested (P : entry -> Prop)
    (HFile : forall name, P (File name))
    (HDir : forall name children, Forall P children -> P (Dir name children))
    (e : entry) : P e :=
  match e with
  | File name => HFile name
  | Dir name children =>
    HDir name children
      ((fix go (l : list entry) : Forall P l :=
          match l with
          | [] => Forall_nil_2 P
          | c :: cs => Forall_cons_2 P c cs (entry_ind_nested P HFile HDir c) (go cs)
          end) children)
  end.

(** A path component or relative path that is not empty and neither
    starts nor ends with the separator. *)
Definition is_clean (p : string) : bool :=
  negb (bool_decide (p = "")) && negb (startswith p "/")
  && negb (endswith p "/").

(** Every entry of the tree has such a name. *)
Fixpoint clean_tree (e : entry) : bool :=
  is_clean (entry_name e) &&
  match e with
  | File _ => true
  | Dir _ children => forallb clean_tree children
  end.

(** The directory at relative path [prefix] under [root]. *)
Definition under (root prefix : string) : string :=
  if bool_decide (prefix = "") then root else root +:+ "/" +:+ prefix.

(** The relative path of the entry [name] of that directory. *)
Definition relative_to (prefix name : string) : string :=
  if bool_decide (prefix = "") then name else prefix +:+ "/" +:+ name.

(** The directory [/m], which holds [a/x.mp3] and [a/m/x.mp3]. *)
Definition nested_listing : list entry :=
  [Dir "a" [File "x.mp3"; Dir "m" [File "x.mp3"]]].

(** The upsert on the list of albums, which the row-level loop
    implements: the first album of that name gets the new artist. *)
Fixpoint upsert_albums (a : AlbumMetadata.t) (l : list AlbumMetadata.t)
    : list AlbumMetadata.t :=
  match l with
  | [] => [a]
  | x :: rest =>
    if bool_decide (AlbumMetadata.name x = AlbumMetadata.name a)
    then AlbumMetadata.mk (AlbumMetadata.name x) (AlbumMetadata.artist a) :: rest
    else x :: upsert_albums a rest
  end.

(** Some album of the list has the name. *)
Definition has_album_name (n : string) (l : list AlbumMetadata.t) : Prop :=
  Exists (fun x => AlbumMetadata.name x = n) l.

(** A store holding an album table with one album. *)
Definition album_store : Store :=
  mkStore "/cfg"
    {[ "/cfg/albums.csv" :=
         [AlbumMetadata.to_csv_row (AlbumMetadata.mk "Test Album" "Old Artist")] ]}
    ∅.

(** The data rows of the album table, none when the file is missing. *)
Definition album_rows (s : Store) : list row :=
  default [] (files s !! albums_path s).

(** Every row has a cell in each of the columns. *)
Definition complete_rows (fieldnames : list string) (rows : list row)
    : bool :=
  forallb (fun r => forallb (has_key r) fieldnames) rows.

(** The data rows of the asset table, none when the file is missing. *)
Definition asset_rows (s : Store) : list row :=
  default [] (files s !! metadata_path s).

(** A store whose asset table has the record of [known.mp3]. *)
Definition known_store : Store :=
  mkStore "/cfg"
    {[ "/cfg/metadata.csv" := [TrackMetadata.to_csv_row known_track] ]} ∅.

(** A store whose asset table has no [genre] column. *)
Definition torn_store : Store :=
  mkStore "/cfg"
    {[ "/cfg/metadata.csv" :=
         [delete "genre" (TrackMetadata.to_csv_row sample_track)] ]} ∅.

(** A record whose key holds a carriage return. *)
Definition cr_track : TrackMetadata.t :=
  TrackMetadata.mk ("a" +:+ String CR "b.mp3") "Track" "Artist"
    sample_album "House" None.

(** Every list the cache holds is the list an uncached read of its
    file returns. *)
Definition cache_coherent (s : Store) : Prop :=
  forall p,
    match CACHE s !! p with
    | Some (CachedTracks l) => fst (_read_track_metadata p false s) = Ok l
    | Some (CachedAlbums l) => fst (_read_album_metadata p false s) = Ok l
    | None => True
    end.

(** The path is not cached as a list of the other kind. *)
Definition no_albums_cached (s : Store) (p : string) : Prop :=
  forall l, CACHE s !! p ≠ Some (CachedAlbums l).
Definition no_tracks_cached (s : Store) (p : string) : Prop :=
  forall l, CACHE s !! p ≠ Some (CachedTracks l).

(** A store that has cached its asset table. *)
Definition warm_store : Store :=
  mkStore "/cfg"
    {[ "/cfg/metadata.csv" := [TrackMetadata.to_csv_row known_track] ]}
    {[ "/cfg/metadata.csv" := CachedTracks [known_track] ]}.

(** The processed test on an opened file of each container. *)
Definition has_marker (f : AudioFile) : bool :=
  match f with
  | Mp3 _ id3 =>
    existsb (fun texts =>
               _has_marker_in_list (OList (IStr <$> texts)) PROCESSED_MARKER)
            (id3_getall_COMM id3)
  | Flac t | OggOpus t | OggVorbis t =>
    _has_marker_in_list (tag_get t "comment") PROCESSED_MARKER
  | Mp4 t => _has_marker_in_list (tag_get t (atom "cmt")) PROCESSED_MARKER
  | NotAudio => false
  end.

(** An Ogg Opus file with a title and no comment. *)
Definition titled_opus : AudioFile := OggOpus {[ "title" := OStr "Old" ]}.

(** The extensions [is_audio_file] recognizes and no writer handles. *)
Definition UNWRITTEN_EXTENSIONS : list string := [".wav"; ".aiff"; ".aif"].

(** The reader for the container of a file. *)
Definition reader_of (py_str : pyitem -> string) (f : AudioFile)
    : string -> AudioFile -> option TrackMetadata.t :=
  match f with
  | Mp3 _ _ => file_metadata._from_mp3 py_str
  | Flac _ => file_metadata._from_flac py_str
  | Mp4 _ => file_metadata._from_mp4 py_str
  | OggOpus _ => file_metadata._from_ogg_opus py_str
  | OggVorbis _ => file_metadata._from_ogg_vorbis py_str
  | NotAudio => fun _ _ => None
  end.

(** The two Ogg containers, whose readers look at the album artist. *)
Definition is_ogg (f : AudioFile) : bool :=
  match f with OggOpus _ | OggVorbis _ => true | _ => false end.

(** The fields of a record the readers test before they answer. *)
Definition has_text (meta : TrackMetadata.t) : bool :=
  existsb truthy
    [TrackMetadata.track meta; TrackMetadata.artist meta;
     AlbumMetadata.name (TrackMetadata.album meta); TrackMetadata.genre meta].

(** A FLAC file tagged with a date and nothing else. *)
Definition dated_flac : AudioFile :=
  Flac {[ "date" := OList [IStr "1999"] ]}.

(** The record a reader can find in a file after [meta] was written to
    it: in an MP3 each text is what [EasyID3] makes of it (the empty
    text for a field that is then absent), in the other containers the
    text itself. *)
Definition as_saved (easy_text : string -> string -> option string)
    (f : AudioFile) (meta : TrackMetadata.t) : TrackMetadata.t :=
  if is_mp3 f then
    TrackMetadata.mk (TrackMetadata.key meta)
      (or_empty (easy_text "title" (TrackMetadata.track meta)))
      (or_empty (easy_text "artist" (TrackMetadata.artist meta)))
      (AlbumMetadata.mk
         (or_empty (easy_text "album"
                      (AlbumMetadata.name (TrackMetadata.album meta))))
         (AlbumMetadata.artist (TrackMetadata.album meta)))
      (or_empty (easy_text "genre" (TrackMetadata.genre meta)))
      (TrackMetadata.date meta)
  else meta.

(** The date a reader finds after a record with a date was written: in
    an MP3 what [EasyID3] makes of it or else the original date of the
    file, in the other containers the date itself. *)
Definition saved_date (easy_text : string -> string -> option string)
    (f : AudioFile) (meta : TrackMetadata.t) : option string :=
  match f with
  | Mp3 easy _ =>
    opt_or (easy_text "date" (default "" (TrackMetadata.date meta)))
           (easy !! "originaldate")
  | _ => TrackMetadata.date meta
  end.

(** What [EasyID3] does to a genre given by its number and to a date
    that is not a time stamp; every other text is kept. *)
Definition numbered_genre_text (name v : string) : option string :=
  if bool_decide (name = "genre") && bool_decide (v = "17") then Some "Rock"
  else if bool_decide (name = "date") && bool_decide (v = "June 2024")
  then None
  else Some v.

(** A record whose genre is a number and whose date is no time stamp. *)
Definition numbered_track : TrackMetadata.t :=
  TrackMetadata.mk "live.mp3" "Opening" "Some DJ"
    (AlbumMetadata.mk "Festival 2022" "Various Artists") "17"
    (Some "June 2024").

(** An MP3 tagged with a date and nothing else. *)
Definition dated_mp3 : AudioFile := Mp3 {[ "date" := "1999" ]} ∅.

(** Nothing but dots between the last separator of [stem] and its end:
    the name that would precede an extension is empty or made of dots
    only. *)
Definition bare_name (stem : string) : bool :=
  all_dots (rev_basename (String.rev stem)).

(** The directory of the clone. *)
Definition repo_dir_of (w : World) : string :=
  path_div (config_dir (store w)) "metadata-repo".

(** The world with [evs] appended to its log. *)
Definition logged (w : World) (evs : list Event) : World :=
  mkWorld (store w) (config w) (clone w) (log w ++ evs)%list.

(** The world with the table files replaced. *)
Definition with_files (w : World) (fs : gmap string (list row)) : World :=
  mkWorld (mkStore (config_dir (store w)) fs (CACHE (store w)))
    (config w) (clone w) (log w).

(** A lock that is never released, where everything else succeeds. *)
Definition locked_env : Env :=
  mkEnv (subprocess_run quiet_env) false (None, None)
    (webdav_list quiet_env) (webdav_download quiet_env)
    (webdav_upload quiet_env) (local_listing quiet_env)
    (read_file_metadata quiet_env) (is_already_processed quiet_env)
    (parse_metadata_with_ai quiet_env)
    (Ok tt) (fun p => Ok p).

(** The [git] commands among the calls, by their arguments. *)
Definition git_commands (evs : list Event) : list (list string) :=
  omap (fun e => match e with
                 | EvSubprocess ("git" :: args) _ => Some args
                 | _ => None
                 end) evs.

(** [git <args>] in the clone answers with a result that satisfies [P],
    whatever the files are. *)
Definition git_answers (env : Env) (w : World) (args : list string)
    (P : CompletedProcess -> Prop) : Prop :=
  forall fs,
    P (fst (subprocess_run env ("git" :: args) (Some (repo_dir_of w)) fs)).

(** The two table files. *)
Definition TABLES : list string := ["metadata.csv"; "albums.csv"].

(** The files after [shutil.copy2(src, dst)] guarded by [src.exists()]. *)
Definition copied (src dst : string) (fs : gmap string (list row))
    : gmap string (list row) :=
  match fs !! src with
  | Some content => <[dst := content]> fs
  | None => fs
  end.

(** From [w] to [w'] the table files became [fs] and the [git] commands
    [cmds] were run, in this order; the configuration, the state of the
    clone directory and the cache are the same, and the log was only
    added to. *)
Definition sync_step (w w' : World) (fs : gmap string (list row))
    (cmds : list (list string)) : Prop :=
  files (store w') = fs /\
  config_dir (store w') = config_dir (store w) /\
  CACHE (store w') = CACHE (store w) /\
  config w' = config w /\ clone w' = clone w /\
  exists evs, log w' = (log w ++ evs)%list /\ git_commands evs = cmds.

(** What [push_metadata] does with the answer of [git status]. *)
Definition push_after_status (env : Env) (repo_dir : string)
    (r : CompletedProcess) : M World bool :=
  if all_whitespace (stdout r) then mret true
  else
    _ ← _run_git env ["add"; "metadata.csv"; "albums.csv"] repo_dir true;
    r ← _run_git env ["commit"; "-m"; "Update metadata from song-classifier"]
          repo_dir false;
    if negb (bool_decide (returncode r = 0%Z))
       && negb (contains (stdout r) "nothing to commit")
    then mret false
    else
      r ← _run_git env ["push"] repo_dir false;
      if negb (bool_decide (returncode r = 0%Z)) then mret false
      else mret true.

(** The calls of a sync operation, from taking the lock to releasing
    it, ran the [git] commands [cmds]. *)
Definition locked_run (w w' : World) (cmds : list (list string)) : Prop :=
  git_commands (drop (length (log w)) (log w')) = cmds /\
  head (drop (length (log w)) (log w')) = Some EvLockAcquire /\
  last (log w') = Some EvLockRelease.

(** The answers of [git] in the environments below: [git status] reports
    a change, and the command [failing] returns 1. *)
Definition git_env (failing : string) : Env :=
  mkEnv (fun argv _ fs =>
           match argv with
           | _ :: cmd :: _ =>
             if bool_decide (cmd = failing)
             then (mkCompleted 1 "" "fatal", fs)
             else if bool_decide (cmd = "status")
             then (mkCompleted 0 " M metadata.csv" "", fs)
             else (mkCompleted 0 "" "", fs)
           | _ => (mkCompleted 0 "" "", fs)
           end)
    true (None, None)
    (webdav_list quiet_env) (webdav_download quiet_env)
    (webdav_upload quiet_env) (local_listing quiet_env)
    (read_file_metadata quiet_env) (is_already_processed quiet_env)
    (parse_metadata_with_ai quiet_env)
    (Ok tt) (fun p => Ok p).

(** [git clone] of the configured repository fails, whatever the files
    are. *)
Definition clone_fails (env : Env) (w : World) (repo_url : string) : Prop :=
  forall fs,
    returncode (fst (subprocess_run env
                       ["git"; "clone"; repo_url; repo_dir_of w] None fs))
    ≠ 0%Z.

(** A world with a repository configured and a directory that is not a
    clone where the clone should be. *)
Definition uncloned_world : World :=
  mkWorld empty_store {[ "sync_repo" := "git@example.org:meta.git" ]}
    PlainDir [].

(** From [w] to [w'] the log was only added to, by calls that satisfy
    [P]; the configuration and the state of the clone directory are the
    same, and so is the record store when [keep_store] is set. *)
Definition frame (P : Event -> bool) (keep_store : bool) (w w' : World)
    : Prop :=
  (keep_store = true -> store w' = store w) /\
  config w' = config w /\ clone w' = clone w /\
  exists evs, log w' = (log w ++ evs)%list /\ forallb P evs = true.

(** A computation that stays within the frame, whatever its outcome. *)
Definition keeps (P : Event -> bool) (keep_store : bool) {A}
    (m : M World A) : Prop :=
  forall w, frame P keep_store w (snd (m w)).

(** The calls of the sync manager. *)
Definition is_sync_call (e : Event) : bool :=
  match e with
  | EvLockAcquire | EvLockRelease | EvRmtree _ | EvSubprocess _ _
  | EvCopy _ _ => true
  | _ => false
  end.

Definition no_sync_call (e : Event) : bool := negb (is_sync_call e).

(** The arguments of [process --no-sync /music]. *)
Definition no_sync_args : Namespace :=
  mkArgs false false (Some "/music") None None None false false true.

(** If [m] returns normally from a world in [Pre], its result and the
    world it leaves are in [Post]. *)
Definition triple {A} (Pre : World -> Prop) (m : M World A)
    (Post : A -> World -> Prop) : Prop :=
  forall w a w', Pre w -> m w = (Ok a, w') -> Post a w'.

(** The asset gets as far as the test for the marker: the store does
    not know it, its local copy is there and its tags can be read. *)
Definition reaches_processed_check (env : Env) (filename base_path : string)
    (t : Transport) (skip_files_in_metadata : bool) (w : World)
    (existing : option TrackMetadata.t) : Prop :=
  let local_path := local_copy t filename base_path w in
  (skip_files_in_metadata = true ->
   exists l, fst (get_file_metadata (Some filename) (store w)) = Ok l /\
             lookup_truthy l = false) /\
  match t with
  | LocalTransport => True
  | WebdavTransport _ _ _ =>
    webdav_download env (os_path_join base_path filename) local_path = Ok tt
  end /\
  read_file_metadata env local_path = Ok existing.

(** An environment in which every file carries the marker. *)
Definition marked_env : Env :=
  mkEnv (subprocess_run quiet_env) true (None, None)
    (webdav_list quiet_env) (webdav_download quiet_env)
    (webdav_upload quiet_env) (local_listing quiet_env)
    (read_file_metadata quiet_env) (fun _ => Ok true)
    (parse_metadata_with_ai quiet_env)
    (Ok tt) (fun p => Ok p).

(** An environment without an API key, and one that rejects the path. *)
Definition keyless_env : Env :=
  mkEnv (subprocess_run quiet_env) true (None, None)
    (webdav_list quiet_env) (webdav_download quiet_env)
    (webdav_upload quiet_env) (local_listing quiet_env)
    (read_file_metadata quiet_env) (is_already_processed quiet_env)
    (parse_metadata_with_ai quiet_env)
    (Raise MissingAPIKeyError) (fun p => Ok p).

(** The inference is cancelled (Ctrl-C) while it works on [b.mp3]. *)
Definition interrupting_env : Env :=
  mkEnv (fun _ _ fs => (mkCompleted 0 "" "", fs)) true (None, None)
    (fun _ => Ok []) (fun _ _ => Ok tt) (fun _ _ => Ok tt)
    (fun _ => [File "a.mp3"; File "b.mp3"])
    (fun _ => Ok None) (fun _ => Ok false)
    (fun filename _ => if bool_decide (filename = "b.mp3")
                       then Raise KeyboardInterrupt
                       else Ok (inferred_track filename))
    (Ok tt) (fun p => Ok p).

(** A world with a shared repository configured and cloned, and the
    arguments of a plain [process /music] and of
    [process --dry-run /music]. *)
Definition synced_world : World :=
  mkWorld empty_store {[ "sync_repo" := "git@example.org:meta.git" ]} GitRepo [].

Definition process_args : Namespace :=
  mkArgs false false (Some "/music") None None None false false false.

Definition dry_run_args : Namespace :=
  mkArgs false true (Some "/music") None None None false false false.

(** * Properties *)

Lemma bind_run {S A B} (m : M S A) (f : A -> M S B) (s : S) :
  (m ≫= f) s =
  match m s with (Ok a, s') => f a s' | (Raise e, s') => (Raise e, s') end.
Proof. reflexivity. Qed.

(** ** Rows and records *)

Lemma or_None_or_empty (d : option string) :
  d ≠ Some "" -> or_None (or_empty d) = d.
Proof.
  intros Hd. destruct d as [s|]; [|reflexivity].
  unfold or_empty, or_None, truthy.
  destruct (decide (s = "")) as [->|Hs]; [congruence|].
  rewrite (bool_decide_eq_false_2 _ Hs). simpl.
  rewrite (bool_decide_eq_false_2 _ Hs). reflexivity.
Qed.

Lemma or_None_not_empty (s : string) : or_None s ≠ Some "".
Proof.
  unfold or_None, truthy. case_bool_decide; simpl; congruence.
Qed.

Lemma normalize_valid (t : TrackMetadata.t) :
  TrackMetadata.date t ≠ Some "" -> normalize t = t.
Proof.
  intros H. destruct t; unfold normalize; simpl in *.
  by rewrite or_None_or_empty.
Qed.

Lemma normalize_key t : TrackMetadata.key (normalize t) = TrackMetadata.key t.
Proof. reflexivity. Qed.

Lemma album_from_to (a : AlbumMetadata.t) :
  AlbumMetadata.from_csv_row (AlbumMetadata.to_csv_row a) = Ok a.
Proof. destruct a. reflexivity. Qed.

Lemma track_from_to (t : TrackMetadata.t) :
  TrackMetadata.from_csv_row (TrackMetadata.to_csv_row t) = Ok (normalize t).
Proof. destruct t as [k tr ar [an aa] g d]. reflexivity. Qed.

(** ** Line ends *)

Lemma universal_newlines_cons (c : Ascii.ascii) (s : string) :
  c ≠ CR ->
  universal_newlines (String c s) = String c (universal_newlines s).
Proof. intros H. cbn. by rewrite (bool_decide_eq_false_2 _ H). Qed.

Lemma universal_newlines_id (s : string) :
  has_cr s = false -> universal_newlines s = s.
Proof.
  induction s as [|c s IH]; [reflexivity|].
  cbn [has_cr]. intros [Hc Hs]%orb_false_iff.
  apply bool_decide_eq_false in Hc.
  rewrite universal_newlines_cons by done. by rewrite IH.
Qed.

Lemma has_cr_universal_newlines (s : string) :
  has_cr (universal_newlines s) = false.
Proof.
  cut (has_cr (universal_newlines s) = false /\
       forall c, has_cr (universal_newlines (String c s)) = false);
    [by intros [H _]|].
  induction s as [|c' s [IH1 IH2]].
  - split; [reflexivity|]. intros c. cbn.
    destruct (decide (c = CR)) as [->|Hc]; [reflexivity|].
    rewrite (bool_decide_eq_false_2 _ Hc). cbn.
    by rewrite (bool_decide_eq_false_2 _ Hc).
  - split; [apply IH2|]. intros c.
    destruct (decide (c = CR)) as [->|Hc].
    + change (universal_newlines (String CR (String c' s)))
        with (String LF (if bool_decide (c' = LF) then universal_newlines s
                         else universal_newlines (String c' s))).
      cbn [has_cr]. rewrite bool_decide_eq_false_2 by discriminate.
      cbn [orb]. destruct (bool_decide (c' = LF)); [exact IH1|apply IH2].
    + rewrite universal_newlines_cons by done. cbn [has_cr].
      rewrite (bool_decide_eq_false_2 _ Hc). apply IH2.
Qed.

Lemma universal_newlines_truthy (s : string) :
  truthy (universal_newlines s) = truthy s.
Proof.
  destruct s as [|c s]; [reflexivity|]. cbn.
  by destruct (bool_decide (c = CR)).
Qed.

Lemma universal_newlines_or_empty (d : option string) :
  universal_newlines (or_empty d) = or_empty (universal_newlines <$> d).
Proof.
  destruct d as [s|]; [|reflexivity]. cbn [fmap option_fmap option_map or_empty].
  rewrite universal_newlines_truthy. by destruct (truthy s).
Qed.

Lemma album_as_read_id (a : AlbumMetadata.t) :
  album_has_cr a = false -> album_as_read a = a.
Proof.
  destruct a as [n ar]. unfold album_has_cr, album_as_read. cbn.
  intros [H1 H2]%orb_false_iff. by rewrite !universal_newlines_id.
Qed.

Lemma track_as_read_id (t : TrackMetadata.t) :
  track_has_cr t = false -> track_as_read t = t.
Proof.
  destruct t as [k tr ar al g d]. unfold track_has_cr, track_as_read. cbn.
  intros H. repeat (apply orb_false_iff in H as [H ?]).
  rewrite !universal_newlines_id, album_as_read_id by done.
  f_equal. destruct d as [s|]; [|reflexivity]. cbn in *.
  by rewrite universal_newlines_id.
Qed.

Lemma album_row_as_read (a : AlbumMetadata.t) :
  universal_newlines <$> AlbumMetadata.to_csv_row a
  = AlbumMetadata.to_csv_row (album_as_read a).
Proof.
  destruct a. unfold AlbumMetadata.to_csv_row. cbn.
  by rewrite !fmap_insert, fmap_empty.
Qed.

Lemma track_row_as_read (t : TrackMetadata.t) :
  universal_newlines <$> TrackMetadata.to_csv_row t
  = TrackMetadata.to_csv_row (track_as_read t).
Proof.
  destruct t as [k tr ar [n aa] g d]. unfold TrackMetadata.to_csv_row. cbn.
  by rewrite !fmap_insert, fmap_empty, universal_newlines_or_empty.
Qed.

Lemma track_rows_as_read (l : list TrackMetadata.t) :
  rows_as_read (TrackMetadata.to_csv_row <$> l)
  = TrackMetadata.to_csv_row <$> (track_as_read <$> l).
Proof.
  unfold rows_as_read. rewrite <- !list_fmap_compose.
  apply list_fmap_ext. intros ? x _. apply track_row_as_read.
Qed.

Lemma album_rows_as_read (l : list AlbumMetadata.t) :
  rows_as_read (AlbumMetadata.to_csv_row <$> l)
  = AlbumMetadata.to_csv_row <$> (album_as_read <$> l).
Proof.
  unfold rows_as_read. rewrite <- !list_fmap_compose.
  apply list_fmap_ext. intros ? x _. apply album_row_as_read.
Qed.

Lemma tracks_as_read_id (l : list TrackMetadata.t) :
  Forall (fun t => track_has_cr t = false) l -> track_as_read <$> l = l.
Proof.
  induction 1 as [|x l Hx _ IH]; [reflexivity|].
  by rewrite fmap_cons, IH, track_as_read_id.
Qed.

Lemma albums_as_read_id (l : list AlbumMetadata.t) :
  Forall (fun a => album_has_cr a = false) l -> album_as_read <$> l = l.
Proof.
  induction 1 as [|x l Hx _ IH]; [reflexivity|].
  by rewrite fmap_cons, IH, album_as_read_id.
Qed.

(** C2: deserializing the serialized row gives the record back, for
    every album record and for every asset record whose date is absent
    or a non-empty string; an absent date is written as the empty cell
    and read back as absent, and no row is ever read as a record whose
    date is the empty string. *)
Theorem row_roundtrip :
  (forall a : AlbumMetadata.t,
     AlbumMetadata.from_csv_row (AlbumMetadata.to_csv_row a) = Ok a) /\
  (forall t : TrackMetadata.t,
     TrackMetadata.date t ≠ Some "" ->
     TrackMetadata.from_csv_row (TrackMetadata.to_csv_row t) = Ok t) /\
  (forall t : TrackMetadata.t,
     TrackMetadata.date t = None ->
     TrackMetadata.to_csv_row t !! "date" = Some "" /\
     TrackMetadata.date <$> TrackMetadata.from_csv_row (TrackMetadata.to_csv_row t)
       = Ok None) /\
  (forall (r : row) (t' : TrackMetadata.t),
     TrackMetadata.from_csv_row r = Ok t' ->
     TrackMetadata.date t' ≠ Some "").
Proof.
  split; [apply album_from_to|]. split; [|split].
  - intros t Hdate. rewrite track_from_to, normalize_valid by done. reflexivity.
  - intros t Hdate. rewrite track_from_to.
    destruct t as [k tr ar [an aa] g d]. cbn in *. subst d. split; reflexivity.
  - intros r t'. unfold TrackMetadata.from_csv_row.
    repeat match goal with
           | |- context [getitem r ?k ≫= _] =>
             destruct (getitem r k); simpl; [|discriminate]
           end.
    intros [= <-]. cbn. apply or_None_not_empty.
Qed.

(** The record with no date: its row has an empty date cell and reads
    back as the record. *)
Lemma row_roundtrip_witness :
  TrackMetadata.from_csv_row (TrackMetadata.to_csv_row undated_track)
    = Ok undated_track /\
  TrackMetadata.to_csv_row undated_track !! "date" = Some "" /\
  TrackMetadata.date
    <$> TrackMetadata.from_csv_row (TrackMetadata.to_csv_row undated_track)
    = Ok None.
Proof.
  split.
  - apply (proj1 (proj2 row_roundtrip) undated_track). discriminate.
  - apply (proj1 (proj2 (proj2 row_roundtrip)) undated_track). reflexivity.
Defined.

Lemma mapM_track_rows (ts : list TrackMetadata.t) :
  mapM TrackMetadata.from_csv_row (TrackMetadata.to_csv_row <$> ts)
  = Ok (normalize <$> ts).
Proof.
  induction ts as [|t ts IH]; [reflexivity|].
  cbn [fmap list_fmap mapM]. rewrite track_from_to. cbn [mbind result_bind].
  fold (fmap (M:=list) TrackMetadata.to_csv_row ts).
  rewrite IH. reflexivity.
Qed.

Lemma rows_not_legacy (ts : list TrackMetadata.t) :
  _is_legacy_track_format (TrackMetadata.to_csv_row <$> ts) = false.
Proof. destruct ts as [|[k tr ar [an aa] g d] ts]; reflexivity. Qed.

Lemma track_row_written (t : TrackMetadata.t) :
  dict_to_row TRACK_FIELDNAMES (TrackMetadata.to_csv_row t)
  = Ok (TrackMetadata.to_csv_row t).
Proof. destruct t as [k tr ar [an aa] g d]. reflexivity. Qed.

Lemma album_row_written (a : AlbumMetadata.t) :
  dict_to_row ALBUM_FIELDNAMES (AlbumMetadata.to_csv_row a)
  = Ok (AlbumMetadata.to_csv_row a).
Proof. destruct a. reflexivity. Qed.

(** The reader with the default [use_cache=False] neither looks at the
    cache nor changes the state. *)
Lemma read_track_run (p : string) (s : Store) :
  _read_track_metadata p false s =
  (mapM TrackMetadata.from_csv_row
     (let rows := rows_as_read (default [] (files s !! p)) in
      if _is_legacy_track_format rows
      then _migrate_legacy_track_row <$> rows else rows), s).
Proof.
  unfold _read_track_metadata, _read_csv_rows, get_state, lift_result,
    rows_as_read.
  rewrite !bind_run. destruct (files s !! p) as [rows|]; simpl.
  - destruct (mapM _ _); reflexivity.
  - reflexivity.
Qed.

Lemma read_album_run (p : string) (s : Store) :
  _read_album_metadata p false s =
  (mapM AlbumMetadata.from_csv_row
     (rows_as_read (default [] (files s !! p))), s).
Proof.
  unfold _read_album_metadata, _read_csv_rows, get_state, lift_result,
    rows_as_read.
  rewrite !bind_run. destruct (files s !! p) as [rows|]; simpl.
  - destruct (mapM _ _); reflexivity.
  - reflexivity.
Qed.

Lemma rows_as_read_clean (rows : list row) :
  Forall clean_row (rows_as_read rows).
Proof.
  unfold rows_as_read. apply Forall_fmap, Forall_forall.
  intros r _ k v. cbn. rewrite lookup_fmap.
  destruct (r !! k) as [v0|]; [|discriminate].
  intros [= <-]. apply has_cr_universal_newlines.
Qed.

Lemma get_or_empty_clean (r : row) (c : string) :
  clean_row r -> has_cr (get_or_empty r c) = false.
Proof.
  intros Hr. unfold get_or_empty.
  destruct (r !! c) as [x|] eqn:E; [by eapply Hr|reflexivity].
Qed.

Lemma migrate_clean (r : row) :
  clean_row r -> clean_row (_migrate_legacy_track_row r).
Proof.
  intros Hr k v. unfold _migrate_legacy_track_row.
  repeat (rewrite lookup_insert_Some;
          intros [[_ <-]|[_ H]]; [by apply get_or_empty_clean|]; revert H).
  by rewrite lookup_empty.
Qed.

Lemma getitem_clean (r : row) (k v : string) :
  clean_row r -> getitem r k = Ok v -> has_cr v = false.
Proof.
  unfold getitem. intros Hr. destruct (r !! k) eqn:E; [|discriminate].
  intros [= <-]. by eapply Hr.
Qed.

Lemma or_None_clean (d : string) :
  has_cr d = false -> has_cr (default "" (or_None d)) = false.
Proof. unfold or_None. by destruct (truthy d). Qed.

Lemma track_from_clean (r : row) (t : TrackMetadata.t) :
  clean_row r -> TrackMetadata.from_csv_row r = Ok t -> track_has_cr t = false.
Proof.
  intros Hr. unfold TrackMetadata.from_csv_row.
  repeat match goal with
         | |- context [getitem r ?k ≫= _] =>
           let E := fresh "E" in
           destruct (getitem r k) eqn:E; simpl; [|discriminate];
           apply (getitem_clean _ _ _ Hr) in E
         end.
  intros [= <-]. unfold track_has_cr, album_has_cr. cbn.
  rewrite or_None_clean by done.
  repeat match goal with H : has_cr _ = false |- _ => rewrite H; clear H end.
  reflexivity.
Qed.

Lemma album_from_clean (r : row) (a : AlbumMetadata.t) :
  clean_row r -> AlbumMetadata.from_csv_row r = Ok a -> album_has_cr a = false.
Proof.
  intros Hr. unfold AlbumMetadata.from_csv_row.
  repeat match goal with
         | |- context [getitem r ?k ≫= _] =>
           let E := fresh "E" in
           destruct (getitem r k) eqn:E; simpl; [|discriminate];
           apply (getitem_clean _ _ _ Hr) in E
         end.
  intros [= <-]. unfold album_has_cr. cbn.
  repeat match goal with H : has_cr _ = false |- _ => rewrite H; clear H end.
  reflexivity.
Qed.

Lemma mapM_Forall {A B} (P : A -> Prop) (Q : B -> Prop) (f : A -> result B)
    (l : list A) (k : list B) :
  (forall a b, P a -> f a = Ok b -> Q b) ->
  Forall P l -> mapM f l = Ok k -> Forall Q k.
Proof.
  intros Hf Hl. revert k. induction Hl as [|a l Ha _ IH]; intros k.
  - intros [= <-]. constructor.
  - cbn [mapM]. destruct (f a) as [b|] eqn:E; [|discriminate].
    cbn [mbind result_bind]. destruct (mapM f l) as [k'|]; [|discriminate].
    intros [= <-]. constructor; [by eapply Hf|by apply IH].
Qed.

Lemma writerows_run (p : string) (F : list string) (rows rows' : list row) :
  Forall2 (fun r r' => dict_to_row F r = Ok r') rows rows' ->
  forall (s : Store) (acc : list row),
    files s !! p = Some acc ->
    writerows p F rows s =
    (Ok tt, set_files (<[p := (acc ++ rows')%list]>) s).
Proof.
  induction 1 as [|r r' rows rows' Hr _ IH]; intros s acc Hacc.
  - simpl. unfold mret, M_ret, set_files. rewrite app_nil_r.
    rewrite insert_id by done. by destruct s.
  - cbn [writerows]. unfold writerow, lift_result, modify.
    rewrite !bind_run, Hr. cbn.
    erewrite IH.
    2:{ unfold set_files; cbn. rewrite Hacc. cbn. apply lookup_insert_eq. }
    unfold set_files; cbn. rewrite insert_insert_eq, <- app_assoc. reflexivity.
Qed.

Lemma write_csv_run (p : string) (F : list string) (rows rows' : list row)
    (s : Store) :
  Forall2 (fun r r' => dict_to_row F r = Ok r') rows rows' ->
  _write_csv p rows F s =
  (Ok tt, mkStore (config_dir s) (<[p := rows']> (files s))
            (delete p (CACHE s))).
Proof.
  intros H. unfold _write_csv, modify. rewrite !bind_run.
  erewrite (writerows_run p F rows rows' H _ []).
  2:{ cbn. apply lookup_insert_eq. }
  cbn. unfold set_files, set_CACHE; cbn. rewrite insert_insert_eq. reflexivity.
Qed.

Lemma replace_first_track_rows (t : TrackMetadata.t) (ts : list TrackMetadata.t) :
  exists o,
    replace_first_track t (TrackMetadata.to_csv_row <$> ts) = Ok o /\
    match o with
    | Some rows' => rows'
    | None => ((TrackMetadata.to_csv_row <$> ts) ++ [TrackMetadata.to_csv_row t])%list
    end = TrackMetadata.to_csv_row <$> upsert_tracks t ts.
Proof.
  induction ts as [|x ts (o & Ho & Heq)].
  - exists None. split; reflexivity.
  - cbn [fmap list_fmap replace_first_track upsert_tracks].
    fold (fmap (M:=list) TrackMetadata.to_csv_row ts).
    assert (getitem (TrackMetadata.to_csv_row x) "key" = Ok (TrackMetadata.key x))
      as -> by (destruct x as [k tr ar [an aa] g d]; reflexivity).
    cbn [mbind result_bind].
    case_bool_decide.
    + eexists; split; [reflexivity|]. reflexivity.
    + rewrite Ho. cbn [mbind result_bind].
      eexists; split; [reflexivity|].
      destruct o; cbn; rewrite <- Heq; reflexivity.
Qed.

(** ** The record store *)

Lemma get_file_run (key : option string) (s : Store) :
  get_file_metadata key s =
  (match load_tracks s with
   | Ok ts => Ok (if truthy_opt key
                  then Single (first_with_key (default "" key) ts)
                  else Listing ts)
   | Raise e => Raise e
   end, s).
Proof.
  unfold get_file_metadata, get_or_create_metadata_file_path,
    get_or_create_config_dir, load_tracks.
  rewrite !bind_run. cbn -[_read_track_metadata].
  fold (metadata_path s). rewrite bind_run, read_track_run. cbn.
  destruct (mapM _ _); [|reflexivity]. destruct (truthy_opt key); reflexivity.
Qed.

Lemma get_album_run (key : option string) (s : Store) :
  get_album_metadata key s =
  (match load_albums s with
   | Ok l => Ok (if truthy_opt key
                 then Single (first_with_name (default "" key) l)
                 else Listing l)
   | Raise e => Raise e
   end, s).
Proof.
  unfold get_album_metadata, get_or_create_albums_file_path,
    get_or_create_config_dir, load_albums.
  rewrite !bind_run. cbn -[_read_album_metadata].
  fold (albums_path s). rewrite bind_run, read_album_run. cbn.
  destruct (mapM _ _); [|reflexivity]. destruct (truthy_opt key); reflexivity.
Qed.

Lemma load_tracks_run (s : Store) (ts : list TrackMetadata.t) :
  load_tracks s = Ok ts ->
  _read_track_metadata (metadata_path s) false s = (Ok ts, s).
Proof.
  unfold load_tracks. rewrite read_track_run. cbn [fst].
  intros ->. reflexivity.
Qed.

Lemma upsert_track_run (t : TrackMetadata.t) (s : Store)
    (ts : list TrackMetadata.t) :
  load_tracks s = Ok ts ->
  upsert_track_metadata t s =
  (Ok tt, mkStore (config_dir s)
            (<[metadata_path s := TrackMetadata.to_csv_row <$> upsert_tracks t ts]>
               (files s))
            (delete (metadata_path s) (CACHE s))).
Proof.
  intros Hread. apply load_tracks_run in Hread.
  unfold upsert_track_metadata, get_or_create_metadata_file_path,
    get_or_create_config_dir.
  rewrite !bind_run. cbn -[_read_track_metadata _write_csv].
  fold (metadata_path s). rewrite bind_run, Hread.
  destruct (replace_first_track_rows t ts) as (o & Ho & Heq).
  unfold lift_result. rewrite bind_run, Ho. rewrite Heq.
  apply write_csv_run.
  clear. induction (upsert_tracks t ts) as [|x l IH]; cbn; constructor;
    [apply track_row_written | exact IH].
Qed.

Lemma load_stored (s : Store) (l : list TrackMetadata.t) :
  files s !! metadata_path s = Some (TrackMetadata.to_csv_row <$> l) ->
  load_tracks s = Ok (normalize <$> (track_as_read <$> l)).
Proof.
  intros H. unfold load_tracks. rewrite read_track_run. cbn.
  rewrite H. cbn [default from_option id]. rewrite track_rows_as_read.
  rewrite rows_not_legacy. apply mapM_track_rows.
Qed.

(** What the store reads holds no carriage return. *)
Lemma loaded_tracks_clean (s : Store) (ts : list TrackMetadata.t) :
  load_tracks s = Ok ts -> Forall (fun t => track_has_cr t = false) ts.
Proof.
  unfold load_tracks. rewrite read_track_run. cbn [fst].
  apply (mapM_Forall clean_row); [intros; by eapply track_from_clean|].
  pose proof (rows_as_read_clean (default [] (files s !! metadata_path s)))
    as Hc. cbn zeta.
  destruct (_is_legacy_track_format _); [|exact Hc].
  apply Forall_fmap. eapply Forall_impl; [exact Hc|].
  intros r Hr. by apply migrate_clean.
Qed.

Lemma upsert_tracks_Forall (P : TrackMetadata.t -> Prop) (t : TrackMetadata.t)
    (ts : list TrackMetadata.t) :
  P t -> Forall P ts -> Forall P (upsert_tracks t ts).
Proof.
  intros Ht. induction 1 as [|x l Hx Hl IH]; cbn [upsert_tracks].
  - by repeat constructor.
  - case_bool_decide; by constructor.
Qed.

Lemma first_with_key_upsert (t : TrackMetadata.t) (ts : list TrackMetadata.t) :
  first_with_key (TrackMetadata.key t) (normalize <$> upsert_tracks t ts)
  = Some (normalize t).
Proof.
  unfold first_with_key. induction ts as [|x ts IH]; cbn [upsert_tracks].
  - rewrite fmap_cons, filter_cons_True by reflexivity. reflexivity.
  - case_bool_decide; rewrite fmap_cons.
    + rewrite filter_cons_True by reflexivity. reflexivity.
    + rewrite filter_cons_False by (rewrite normalize_key; done). apply IH.
Qed.

Lemma upsert_tracks_has_key (t : TrackMetadata.t) (ts : list TrackMetadata.t) :
  has_track_key (TrackMetadata.key t) (upsert_tracks t ts).
Proof.
  induction ts as [|x ts IH]; cbn.
  - by constructor.
  - case_bool_decide; [by constructor|by constructor 2].
Qed.

Lemma upsert_tracks_length (t : TrackMetadata.t) (l : list TrackMetadata.t) :
  has_track_key (TrackMetadata.key t) l ->
  length (upsert_tracks t l) = length l.
Proof.
  induction 1 as [x l Hx|x l _ IH]; cbn.
  - rewrite bool_decide_eq_true_2 by done. reflexivity.
  - case_bool_decide; cbn; [reflexivity|]. by rewrite IH.
Qed.

Lemma has_track_key_normalize (k : string) (l : list TrackMetadata.t) :
  has_track_key k l -> has_track_key k (normalize <$> l).
Proof.
  unfold has_track_key. rewrite !Exists_exists.
  intros (x & Hx & Hk). exists (normalize x). split; [|done].
  apply list_elem_of_fmap. eauto.
Qed.

Lemma has_track_key_as_read (k : string) (l : list TrackMetadata.t) :
  has_cr k = false ->
  has_track_key k l -> has_track_key k (track_as_read <$> l).
Proof.
  intros Hk. unfold has_track_key. rewrite !Exists_exists.
  intros (x & Hx & <-). exists (track_as_read x).
  split; [apply list_elem_of_fmap; eauto|].
  cbn. by apply universal_newlines_id.
Qed.

(** Once a key without a carriage return is in the table, further
    upserts of that key keep the number of rows. *)
Lemma upsert_all_count (k : string) (rs : list TrackMetadata.t) :
  has_cr k = false ->
  Forall (fun r' => TrackMetadata.key r' = k) rs ->
  forall (s : Store) (l : list TrackMetadata.t),
    files s !! metadata_path s = Some (TrackMetadata.to_csv_row <$> l) ->
    has_track_key k l ->
    exists s2, upsert_all rs s = (Ok tt, s2) /\ row_count s2 = row_count s.
Proof.
  intros Hcr. induction 1 as [|r rs Hr _ IH]; intros s l Hfile Hk.
  - exists s. split; reflexivity.
  - cbn [upsert_all]. rewrite bind_run.
    rewrite (upsert_track_run r s _ (load_stored s l Hfile)).
    set (s1 := mkStore _ _ _).
    destruct (IH s1 (upsert_tracks r (normalize <$> (track_as_read <$> l))))
      as (s2 & Hs2 & Hcount).
    + unfold s1, metadata_path; cbn. apply lookup_insert_eq.
    + subst k. apply upsert_tracks_has_key.
    + exists s2. split; [exact Hs2|]. rewrite Hcount. unfold row_count.
      replace (files s1 !! metadata_path s1)
        with (Some (TrackMetadata.to_csv_row
                      <$> upsert_tracks r
                            (normalize <$> (track_as_read <$> l))))
        by (symmetry; apply lookup_insert_eq).
      rewrite Hfile. cbn [default from_option id]. rewrite !length_fmap.
      rewrite upsert_tracks_length; [by rewrite !length_fmap|].
      subst k. by apply has_track_key_normalize, has_track_key_as_read.
Qed.




Lemma getitem_as_read (r : row) (k v : string) :
  universal_newlines <$> r !! k = Some v ->
  getitem (universal_newlines <$> r) k = Ok v.
Proof. unfold getitem. rewrite lookup_fmap. by intros ->. Qed.

Lemma or_None_default (d : option string) :
  d ≠ Some "" -> or_None (default "" d) = d.
Proof.
  intros Hd. destruct d as [x|]; [|reflexivity]. cbn. unfold or_None, truthy.
  rewrite bool_decide_eq_false_2 by congruence. reflexivity.
Qed.

Lemma read_held_tracks (rows : list row) (ts : list TrackMetadata.t) :
  Forall2 row_holds_track rows ts ->
  _is_legacy_track_format (rows_as_read rows) = false /\
  mapM TrackMetadata.from_csv_row (rows_as_read rows) = Ok ts.
Proof.
  intros H. split.
  - destruct H as [|r t rows ts (_ & _ & _ & Hn & _) _]; [reflexivity|].
    cbn. unfold has_key. rewrite !lookup_fmap.
    rewrite (bool_decide_eq_true_2 (is_Some (_ <$> r !! "album_name")))
      by (rewrite Hn; eauto).
    apply andb_false_r.
  - induction H as [|r t rows ts Hr _ IH]; [reflexivity|].
    unfold rows_as_read in *. cbn [fmap list_fmap mapM].
    fold (fmap (M:=list) (fun r : row => universal_newlines <$> r) rows).
    rewrite IH. destruct Hr as (H1 & H2 & H3 & H4 & H5 & H6 & H7 & H8).
    unfold TrackMetadata.from_csv_row.
    rewrite (getitem_as_read _ _ _ H1), (getitem_as_read _ _ _ H2),
      (getitem_as_read _ _ _ H3), (getitem_as_read _ _ _ H4),
      (getitem_as_read _ _ _ H5), (getitem_as_read _ _ _ H6),
      (getitem_as_read _ _ _ H7).
    cbn [mbind result_bind mret result_ret]. rewrite or_None_default by done.
    by destruct t as [? ? ? [] ? ?].
Qed.

Lemma read_held_albums (rows : list row) (l : list AlbumMetadata.t) :
  Forall2 row_holds_album rows l ->
  mapM AlbumMetadata.from_csv_row (rows_as_read rows) = Ok l.
Proof.
  induction 1 as [|r a rows l [H1 H2] _ IH]; [reflexivity|].
  unfold rows_as_read in *. cbn [fmap list_fmap mapM].
  fold (fmap (M:=list) (fun r : row => universal_newlines <$> r) rows).
  rewrite IH. unfold AlbumMetadata.from_csv_row.
  rewrite (getitem_as_read _ _ _ H1), (getitem_as_read _ _ _ H2).
  by destruct a.
Qed.



(** ** Legacy tables *)

Lemma has_key_get (r : row) (k : string) :
  has_key r k = true -> r !! k = Some (get_or_empty r k).
Proof.
  unfold has_key, get_or_empty. intros H%bool_decide_eq_true.
  destruct H as [v ->]. reflexivity.
Qed.

Lemma has_key_as_read (r : row) (k : string) :
  has_key (universal_newlines <$> r) k = has_key r k.
Proof.
  unfold has_key. rewrite lookup_fmap. apply bool_decide_ext.
  by rewrite fmap_is_Some.
Qed.

Lemma is_legacy_row_as_read (r : row) :
  is_legacy_row (universal_newlines <$> r) = is_legacy_row r.
Proof.
  unfold is_legacy_row. cbn. by rewrite !has_key_as_read.
Qed.

Lemma get_or_empty_as_read (r : row) (k : string) :
  has_key r k = true ->
  universal_newlines <$> r !! k
  = Some (get_or_empty (universal_newlines <$> r) k).
Proof.
  intros H. rewrite <- lookup_fmap. apply has_key_get.
  by rewrite has_key_as_read.
Qed.

Lemma migrate_legacy_row (r : row) :
  is_legacy_row r = true ->
  exists t,
    TrackMetadata.from_csv_row
      (_migrate_legacy_track_row (universal_newlines <$> r)) = Ok t /\
    migrated r t.
Proof.
  unfold is_legacy_row. intros [Hall _]%andb_true_iff.
  cbn in Hall. repeat (apply andb_true_iff in Hall as [? Hall]).
  eexists. split; [reflexivity|].
  unfold migrated. cbn. repeat split; by apply get_or_empty_as_read.
Qed.

Lemma migrate_legacy_rows (rows : list row) :
  forallb is_legacy_row rows = true ->
  exists tracks,
    mapM TrackMetadata.from_csv_row
      (_migrate_legacy_track_row <$> rows_as_read rows) = Ok tracks /\
    Forall2 migrated rows tracks.
Proof.
  induction rows as [|r rows IH]; intros Hall.
  - exists []. split; [reflexivity|constructor].
  - cbn in Hall. apply andb_true_iff in Hall as [Hr Hrows].
    destruct (migrate_legacy_row r Hr) as (t & Ht & Hm).
    destruct (IH Hrows) as (ts & Hts & Hms).
    exists (t :: ts). split; [|by constructor].
    unfold rows_as_read in *. cbn [fmap list_fmap mapM].
    fold (fmap (M:=list) (fun r : row => universal_newlines <$> r) rows).
    fold (fmap (M:=list) _migrate_legacy_track_row
            ((fun r : row => universal_newlines <$> r) <$> rows)).
    rewrite Ht. cbn [mbind result_bind]. rewrite Hts. reflexivity.
Qed.



(** ** The pipeline *)

Lemma lift_store_pure {A} (m : M Store A) (w : World) (r : result A) :
  m (store w) = (r, store w) -> lift_store m w = (r, w).
Proof. unfold lift_store. intros ->. by destruct w. Qed.

Lemma emit_run (e : Event) (w : World) :
  emit e w = (Ok tt, mkWorld (store w) (config w) (clone w) (log w ++ [e])%list).
Proof. reflexivity. Qed.

Lemma known_key_truthy (k : string) (ts : list TrackMetadata.t) :
  has_track_key k ts ->
  lookup_truthy (if truthy_opt (Some k)
                 then Single (first_with_key k ts) else Listing ts) = true.
Proof.
  intros Hk. destruct (truthy_opt (Some k)).
  - unfold first_with_key. induction Hk as [x l Hx|x l _ IH].
    + rewrite filter_cons_True by done. reflexivity.
    + destruct (decide (TrackMetadata.key x = k)).
      * rewrite filter_cons_True by done. reflexivity.
      * rewrite filter_cons_False by done. exact IH.
  - destruct Hk; reflexivity.
Qed.

(** C4, amended: when the store has a record for the asset's key and
    [skip_files_in_metadata] is set, the pipeline returns [None]; the
    one call it makes is the read-only store lookup that decides the
    skip; the store, the configuration and the clone are as before. *)
Theorem skip_known_asset (env : Env) (filename base_path : string)
    (file_transport : Transport) (skip_processed_files dry_run : bool)
    (w : World) (ts : list TrackMetadata.t) :
  load_tracks (store w) = Ok ts ->
  has_track_key filename ts ->
  classify_filename env filename base_path file_transport
    skip_processed_files true dry_run w
  = (Ok None,
     mkWorld (store w) (config w) (clone w)
       (log w ++ [EvStoreGet (Some filename)])%list).
Proof.
  intros Hload Hk. unfold classify_filename.
  rewrite !bind_run, emit_run. lazy beta iota.
  rewrite bind_run. erewrite lift_store_pure.
  2:{ cbn [store]. rewrite get_file_run, Hload. reflexivity. }
  cbn [mret M_ret]. rewrite known_key_truthy by done. reflexivity.
Qed.

(** [known.mp3] is skipped in [known_world]. *)
Lemma skip_known_asset_witness :
  classify_filename quiet_env "known.mp3" "/music" LocalTransport
    true true false known_world
  = (Ok None,
     mkWorld (store known_world) (config known_world) (clone known_world)
       (log known_world ++ [EvStoreGet (Some "known.mp3")])%list).
Proof.
  apply (skip_known_asset quiet_env "known.mp3" "/music" LocalTransport
           true false known_world [known_track]).
  - reflexivity.
  - constructor. reflexivity.
Defined.

(** C4 as stated fails on "no Store calls": the skip is decided by a
    call to the store, [get_file_metadata(key=filename)]. *)
Lemma skip_known_asset_calls_store :
  exists w',
    classify_filename quiet_env "known.mp3" "/music" LocalTransport
      true true false known_world = (Ok None, w') /\
    log known_world = [] /\
    log w' = [EvStoreGet (Some "known.mp3")] /\
    existsb is_store_call (log w') = true.
Proof. eexists. repeat split; vm_compute; reflexivity. Qed.

Lemma get_file_pure (key : option string) (s : Store)
    (l : lookup TrackMetadata.t) :
  fst (get_file_metadata key s) = Ok l ->
  get_file_metadata key s = (Ok l, s).
Proof. rewrite get_file_run. cbn [fst]. intros ->. reflexivity. Qed.

(** C5: an asset that reaches the dry-run test with dry-run enabled is
    answered with the record the inference proposed; the inference is
    called, the confirmation form is not, and the record store is left
    as it was. *)
Theorem dry_run_only_infers (env : Env) (filename base_path : string)
    (t : Transport) (skip_processed_files skip_files_in_metadata : bool)
    (w : World) (existing : option TrackMetadata.t) (ai : TrackMetadata.t) :
  reaches_dry_run_check env filename base_path t skip_processed_files
    skip_files_in_metadata w existing ai ->
  exists evs,
    classify_filename env filename base_path t skip_processed_files
      skip_files_in_metadata true w
    = (Ok (Some ai),
       mkWorld (store w) (config w) (clone w) (log w ++ evs)%list) /\
    EvInfer filename existing ∈ evs /\
    (forall p, EvConfirm p ∉ evs) /\
    forallb read_only_call evs = true.
Proof.
  intros (Hstart & Hfetch & Hread & Hproc & Hinfer).
  exists ((if skip_files_in_metadata then [EvStoreGet (Some filename)] else [])
          ++ [EvLoadFile filename base_path;
              EvReadTags (local_copy t filename base_path w)]
          ++ (if skip_processed_files
              then [EvIsProcessed (local_copy t filename base_path w)] else [])
          ++ [EvInfer filename existing]
          ++ (if cleanup_local_files t
              then [EvRemove (local_copy t filename base_path w)] else []))%list.
  split; [|split; [|split]].
  - unfold reaches_dry_run_check in *.
    assert (Hknown : skip_files_in_metadata = true ->
              exists l, get_file_metadata (Some filename) (store w)
                        = (Ok l, store w) /\ lookup_truthy l = false).
    { intros E. destruct (Hstart E) as (l & Hl & Hlt).
      exists l. split; [by apply get_file_pure|done]. }
    clear Hstart.
    unfold classify_filename, load_file, remove_local_copy,
      get_or_create_temp_dir, lift_result, lift_store, emit,
      get_or_create_config_dir, mbind, M_bind, mret, M_ret.
    destruct skip_files_in_metadata;
      [destruct (Hknown eq_refl) as (l & Hl & Hlt)|];
      destruct skip_processed_files; try specialize (Hproc eq_refl);
      destruct t; cbn -[get_file_metadata os_path_join path_div] in *;
      repeat (first [rewrite Hl | rewrite Hlt | rewrite Hfetch | rewrite Hread
                    | rewrite Hproc | rewrite Hinfer];
              cbn -[get_file_metadata os_path_join path_div]);
      rewrite <- ?app_assoc; reflexivity.
  - rewrite !elem_of_app. right. right. right. left. apply list_elem_of_here.
  - intros p.
    destruct skip_files_in_metadata, skip_processed_files,
      (cleanup_local_files t); cbn;
      rewrite ?elem_of_cons, elem_of_nil; intros Hin;
      repeat (destruct Hin as [Hin|Hin]; try discriminate Hin); done.
  - destruct skip_files_in_metadata, skip_processed_files,
      (cleanup_local_files t); reflexivity.
Qed.

(** The dry run of the integration test. *)
Lemma dry_run_only_infers_witness :
  exists evs,
    classify_filename quiet_env "test_song.mp3" "/music" LocalTransport
      false false true empty_world
    = (Ok (Some (inferred_track "test_song.mp3")),
       mkWorld (store empty_world) (config empty_world) (clone empty_world)
         (log empty_world ++ evs)%list) /\
    EvInfer "test_song.mp3" None ∈ evs /\
    (forall p, EvConfirm p ∉ evs) /\
    forallb read_only_call evs = true.
Proof.
  apply (dry_run_only_infers quiet_env "test_song.mp3" "/music" LocalTransport
           false false empty_world None (inferred_track "test_song.mp3")).
  repeat split; try discriminate.
Defined.

(** ** The sync manager *)

Lemma get_sync_repo_run (w : World) :
  get_sync_repo w = (Ok (config w !! "sync_repo"), w).
Proof. by destruct w as [[] ? ? ?]. Qed.

(** C9: with no shared repository configured (no [sync_repo] entry, or
    an empty one), [push_metadata] returns [False] and the world is
    exactly as before: no lock taken, no clone, no copy, no git
    command. *)
Theorem push_without_repo (env : Env) (w : World) :
  truthy_opt (config w !! "sync_repo") = false ->
  push_metadata env w = (Ok false, w).
Proof.
  intros H. unfold push_metadata. rewrite bind_run, get_sync_repo_run.
  rewrite H. reflexivity.
Qed.

(** Nothing is configured in [empty_world]. *)
Lemma push_without_repo_witness :
  push_metadata quiet_env empty_world = (Ok false, empty_world).
Proof. apply (push_without_repo quiet_env empty_world). reflexivity. Defined.

(** ** The tag writers *)

Lemma startswith_refl (s : string) : startswith s s = true.
Proof.
  induction s as [|c s IH]; [reflexivity|].
  cbn. rewrite bool_decide_eq_true_2 by reflexivity. exact IH.
Qed.

Lemma contains_refl (s : string) : contains s s = true.
Proof. destruct s; cbn; [reflexivity|]. by rewrite startswith_refl, bool_decide_eq_true_2. Qed.

Lemma omap_item_str (l : list string) : omap item_str (IStr <$> l) = l.
Proof. induction l as [|x l IH]; cbn; [reflexivity|]. by rewrite IH. Qed.

Lemma obj_strings_list (l : list string) : obj_strings (OList (IStr <$> l)) = l.
Proof. apply omap_item_str. Qed.

(** [_merge_comment] keeps the strings of the existing value in order
    and appends the marker unless it is one of them. *)
Lemma merge_comment_spec (existing : pyobj) (marker : string) :
  _merge_comment existing marker =
  if bool_decide (marker ∈ obj_strings existing)
  then obj_strings existing
  else (obj_strings existing ++ [marker])%list.
Proof.
  unfold _merge_comment.
  change (match existing with
          | OList l => omap item_str l
          | OStr s => [s]
          | _ => []
          end) with (obj_strings existing).
  case_bool_decide as Hin.
  - destruct (obj_strings existing); [by apply elem_of_nil in Hin|reflexivity].
  - destruct (obj_strings existing); reflexivity.
Qed.

Lemma merge_comment_idempotent (existing : pyobj) (marker : string) :
  _merge_comment (OList (IStr <$> _merge_comment existing marker)) marker
  = _merge_comment existing marker.
Proof.
  rewrite (merge_comment_spec (OList _)), obj_strings_list.
  rewrite bool_decide_eq_true_2; [reflexivity|].
  rewrite merge_comment_spec. case_bool_decide; [done|].
  apply elem_of_app. right. apply list_elem_of_here.
Qed.

Lemma write_dispatch (easy_text : string -> string -> option string)
    (path : string) (meta : TrackMetadata.t) (f : AudioFile) :
  supported path f = true ->
  write_file_metadata easy_text path meta f = writer_of easy_text f meta f.
Proof.
  unfold supported, write_file_metadata, endswith.
  generalize (String.rev (lower path)). intros r H.
  destruct f as [easy id3|t|t|t|t|]; try discriminate H; cbn in H |- *;
    destruct r as [|a r]; try discriminate H; cbn in H |- *;
    repeat match type of H with
           | (_ || _) = true => apply orb_true_iff in H as [H|H]
           | (_ && _) = true => apply andb_true_iff in H as [Ha H]
           end;
    apply bool_decide_eq_true in Ha; subst a; cbn; rewrite ?H;
    try reflexivity; by destruct (bool_decide (t = ∅)).
Qed.

Lemma tag_get_set_fields (title artist album albumartist genre date comment : string)
    (meta : TrackMetadata.t) (t : tags) :
  comment ∉ [title; artist; album; albumartist; genre; date] ->
  tag_get (set_fields OStr title artist album albumartist genre date meta t)
    comment = tag_get t comment.
Proof.
  intros Hnot. unfold tag_get, set_fields.
  assert (forall k, k ∈ [title; artist; album; albumartist; genre; date] ->
                    k ≠ comment) as Hne by (intros k Hk ->; done).
  destruct (truthy_opt (TrackMetadata.date meta));
    rewrite !lookup_insert_ne; try reflexivity;
    apply Hne; rewrite !elem_of_cons; auto 10.
Qed.

Lemma write_dict_comment (title artist album albumartist genre date comment : string)
    (meta : TrackMetadata.t) (t : tags) :
  comment ∉ [title; artist; album; albumartist; genre; date] ->
  obj_strings (tag_get (write_dict title artist album albumartist genre date
                          comment meta t) comment)
  = _merge_comment (tag_get t comment) PROCESSED_MARKER.
Proof.
  intros Hnot. unfold write_dict.
  unfold tag_get at 1. rewrite lookup_insert_eq. cbn [default from_option id].
  rewrite obj_strings_list, tag_get_set_fields by done. reflexivity.
Qed.

Lemma std_keys : "comment" ∉ ["title"; "artist"; "album"; "albumartist"; "genre"; "date"].
Proof. rewrite !not_elem_of_cons. repeat split; try discriminate. apply not_elem_of_nil. Qed.

Lemma mp4_keys :
  atom "cmt" ∉ [atom "nam"; atom "ART"; atom "alb"; "aART"; atom "gen"; atom "day"].
Proof. rewrite !not_elem_of_cons. repeat split; try discriminate. apply not_elem_of_nil. Qed.

(** What each writer of a dictionary-like container leaves in the
    comment field. *)
Lemma write_dict_not_empty
    (title artist album albumartist genre date comment : string)
    (meta : TrackMetadata.t) (t : tags) :
  write_dict title artist album albumartist genre date comment meta t ≠ ∅.
Proof. unfold write_dict. apply insert_non_empty. Qed.

Lemma dict_writer_comment (easy_text : string -> string -> option string)
    (meta : TrackMetadata.t) (f : AudioFile) :
  is_mp3 f = false -> f ≠ NotAudio -> ogg_without_fields f = false ->
  exists f',
    writer_of easy_text f meta f = Ok f' /\ is_mp3 f' = false /\
    f' ≠ NotAudio /\ ogg_without_fields f' = false /\
    writer_of easy_text f' = writer_of easy_text f /\
    comment_values f' =
    if bool_decide (PROCESSED_MARKER ∈ comment_values f)
    then comment_values f
    else (comment_values f ++ [PROCESSED_MARKER])%list.
Proof.
  intros Hmp3 Hna Hogg.
  destruct f; try discriminate Hmp3; try done; cbn in Hogg;
    cbn [writer_of _write_flac _write_mp4 _write_ogg_opus _write_ogg_vorbis];
    rewrite ?Hogg;
    (eexists; split; [reflexivity|]; split; [done|]; split; [done|];
     split; [cbn; try reflexivity;
             apply bool_decide_eq_false_2, write_dict_not_empty|];
     split; [done|];
     cbn [comment_values];
     rewrite write_dict_comment by (apply std_keys || apply mp4_keys);
     apply merge_comment_spec).
Qed.

(** Membership in the comment values of an ID3 tag. *)
Lemma elem_of_id3_values (id3 : ID3) (v : string) :
  v ∈ concat (id3_getall_COMM id3) <->
  exists k texts, id3 !! k = Some texts /\ v ∈ texts.
Proof.
  unfold id3_getall_COMM. rewrite list_elem_of_In, in_concat. split.
  - intros (texts & Hin & Hv). apply list_elem_of_In in Hin, Hv.
    apply list_elem_of_fmap in Hin as ([k texts'] & -> & Hk).
    apply elem_of_map_to_list in Hk. eauto.
  - intros (k & texts & Hk & Hv). exists texts.
    split; apply list_elem_of_In; [|done].
    apply list_elem_of_fmap. exists (k, texts). split; [done|].
    by apply elem_of_map_to_list.
Qed.

Lemma has_marker_texts (texts : list string) :
  _has_marker_in_list (OList (IStr <$> texts)) PROCESSED_MARKER
  = existsb (fun v => contains v PROCESSED_MARKER) texts.
Proof.
  cbn. induction texts as [|x texts IH]; cbn; [reflexivity|]. by rewrite IH.
Qed.

Lemma has_marker_frames (ls : list (list string)) :
  existsb (fun texts =>
             _has_marker_in_list (OList (IStr <$> texts)) PROCESSED_MARKER) ls
  = existsb (fun v => contains v PROCESSED_MARKER) (concat ls).
Proof.
  induction ls as [|l ls IH]; cbn [existsb concat]; [reflexivity|].
  by rewrite existsb_app, IH, has_marker_texts.
Qed.

(** What the MP3 writer leaves in the comment frames. *)
Lemma mp3_writer_frames (easy_text : string -> string -> option string)
    (meta : TrackMetadata.t) (easy : gmap string string) (id3 : ID3) :
  exists easy',
    _write_mp3 easy_text meta (Mp3 easy id3) =
    Ok (Mp3 easy'
          (if carries_marker (Mp3 easy id3) then id3
           else <[own_key := [PROCESSED_MARKER]]> id3)).
Proof.
  eexists. unfold _write_mp3, id3_add_COMM, carries_marker.
  rewrite has_marker_frames. reflexivity.
Qed.

Lemma existsb_marker (l : list string) :
  existsb (fun v => contains v PROCESSED_MARKER) l = true <->
  exists v, v ∈ l /\ contains v PROCESSED_MARKER = true.
Proof.
  rewrite existsb_exists. split; intros (v & Hv & Hc); exists v;
    (split; [by apply list_elem_of_In|done]).
Qed.

Lemma marker_value_carries (l : list string) :
  PROCESSED_MARKER ∈ l ->
  existsb (fun v => contains v PROCESSED_MARKER) l = true.
Proof.
  intros H. apply existsb_marker. exists PROCESSED_MARKER.
  split; [done|apply contains_refl].
Qed.

(** C7, amended.  Writing the confirmed record to a file of a supported
    container (for the two Ogg containers: a file whose comment block
    has at least one field) puts the marker into its comment values
    and, when the marker is already one of them, leaves them as they
    are; a second write changes nothing.  No existing comment value is
    lost in the FLAC, MP4/M4A, Ogg-Opus and Ogg-Vorbis containers, nor
    in an MP3 that has no comment frame under the writer's own key or
    already carries the marker; in every MP3 the frames under other keys
    are kept.  This holds whatever [EasyID3] makes of the texts. *)
Theorem write_merges_marker (easy_text : string -> string -> option string)
    (path : string) (meta : TrackMetadata.t) (f : AudioFile) :
  supported path f = true ->
  ogg_without_fields f = false ->
  exists f',
    write_file_metadata easy_text path meta f = Ok f' /\
    carries_marker f' = true /\
    (is_mp3 f = false -> PROCESSED_MARKER ∈ comment_values f') /\
    (PROCESSED_MARKER ∈ comment_values f ->
     comment_values f' = comment_values f) /\
    (own_frame_clear f ->
     forall v, v ∈ comment_values f -> v ∈ comment_values f') /\
    other_frames f' = other_frames f /\
    exists f'',
      write_file_metadata easy_text path meta f' = Ok f'' /\
      comment_values f'' = comment_values f'.
Proof.
  intros Hsup Hogg. rewrite (write_dispatch easy_text path meta f Hsup).
  destruct (is_mp3 f) eqn:Hmp3.
  - destruct f as [easy id3| | | | |]; try discriminate Hmp3.
    cbn [writer_of].
    destruct (mp3_writer_frames easy_text meta easy id3) as (easy' & ->).
    eexists. split; [reflexivity|].
    assert (Hcarries : carries_marker
              (Mp3 easy' (if carries_marker (Mp3 easy id3) then id3
                          else <[own_key := [PROCESSED_MARKER]]> id3)) = true).
    { destruct (carries_marker (Mp3 easy id3)) eqn:E; [exact E|].
      apply existsb_marker. exists PROCESSED_MARKER.
      split; [|apply contains_refl].
      cbn [comment_values]. apply elem_of_id3_values.
      exists own_key, [PROCESSED_MARKER].
      split; [apply lookup_insert_eq|apply list_elem_of_here]. }
    split; [exact Hcarries|]. split; [discriminate|]. split; [|split; [|split]].
    + intros Hin. apply marker_value_carries in Hin.
      change (carries_marker (Mp3 easy id3) = true) in Hin. by rewrite Hin.
    + intros [Hnone|Hc] v Hv; [|by rewrite Hc].
      destruct (carries_marker (Mp3 easy id3)); [done|].
      cbn [comment_values] in *. apply elem_of_id3_values in Hv.
      destruct Hv as (k & texts & Hk & Hv). apply elem_of_id3_values.
      exists k, texts. split; [|done].
      rewrite lookup_insert_ne; [done|]. intros <-. congruence.
    + cbn [other_frames]. destruct (carries_marker (Mp3 easy id3)); [done|].
      apply delete_insert_eq.
    + assert (supported path (Mp3 easy' (if carries_marker (Mp3 easy id3)
                then id3 else <[own_key := [PROCESSED_MARKER]]> id3)) = true)
        as Hsup' by exact Hsup.
      rewrite (write_dispatch easy_text path meta _ Hsup'). cbn [writer_of].
      destruct (mp3_writer_frames easy_text meta easy'
                  (if carries_marker (Mp3 easy id3) then id3
                   else <[own_key := [PROCESSED_MARKER]]> id3)) as (easy'' & ->).
      eexists. split; [reflexivity|]. by rewrite Hcarries.
  - assert (f ≠ NotAudio) as Hna by (intros ->; discriminate Hsup).
    destruct (dict_writer_comment easy_text meta f Hmp3 Hna Hogg)
      as (f' & Hw & Hmp3' & Hna' & Hogg' & Hwr & Hcv).
    exists f'. split; [exact Hw|].
    assert (Hin' : PROCESSED_MARKER ∈ comment_values f').
    { rewrite Hcv. case_bool_decide; [done|].
      apply elem_of_app. right. apply list_elem_of_here. }
    split; [by apply marker_value_carries|]. split; [done|].
    split; [|split; [|split]].
    + intros Hin. by rewrite Hcv, bool_decide_eq_true_2.
    + intros _ v Hv. rewrite Hcv. case_bool_decide; [done|].
      apply elem_of_app. by left.
    + destruct f, f'; try done.
    + assert (supported path f' = true) as Hsup'.
      { destruct f, f'; try done; cbn in Hwr, Hogg, Hw; rewrite ?Hogg in Hw;
          try discriminate Hw; congruence. }
      rewrite (write_dispatch easy_text path meta f' Hsup').
      destruct (dict_writer_comment easy_text meta f' Hmp3' Hna' Hogg')
        as (f'' & Hw' & _ & _ & _ & _ & Hcv').
      exists f''. split; [exact Hw'|].
      by rewrite Hcv', bool_decide_eq_true_2.
Qed.

(** Writing to the Ogg Vorbis file that has one comment. *)
Lemma write_merges_marker_witness :
  exists f',
    write_file_metadata plain_text "Song.OGG" sample_track annotated_ogg
      = Ok f' /\
    carries_marker f' = true /\
    (is_mp3 annotated_ogg = false -> PROCESSED_MARKER ∈ comment_values f') /\
    (PROCESSED_MARKER ∈ comment_values annotated_ogg ->
     comment_values f' = comment_values annotated_ogg) /\
    (own_frame_clear annotated_ogg ->
     forall v, v ∈ comment_values annotated_ogg -> v ∈ comment_values f') /\
    other_frames f' = other_frames annotated_ogg /\
    exists f'',
      write_file_metadata plain_text "Song.OGG" sample_track f' = Ok f'' /\
      comment_values f'' = comment_values f'.
Proof.
  apply (write_merges_marker plain_text "Song.OGG" sample_track
           annotated_ogg); reflexivity.
Defined.

(** C7 as stated fails for MP3: the writer adds its frame under its own
    key, and a comment already stored under that key without the marker
    is replaced by it, whatever [EasyID3] makes of the texts. *)
Lemma write_mp3_replaces_own_frame :
  supported "song.mp3" annotated_mp3 = true /\
  comment_values annotated_mp3 = ["my note"] /\
  forall easy_text, exists f',
    write_file_metadata easy_text "song.mp3" sample_track annotated_mp3
      = Ok f' /\
    comment_values f' = [PROCESSED_MARKER] /\
    "my note" ∉ comment_values f'.
Proof.
  split; [reflexivity|]. split; [reflexivity|]. intros easy_text.
  eexists. split; [reflexivity|]. split; [reflexivity|].
  change ("my note" ∉ [PROCESSED_MARKER]).
  rewrite list_elem_of_singleton. discriminate.
Qed.

(** ** The local listing *)

(** The filter of the listing is right for every tree: each recognized
    file gives one path and no other file gives any. *)
Lemma list_files_entry_length (e : entry) :
  forall path initial_path prefix,
    length (list_files_entry e path initial_path)
    = length (relative_audio_paths_entry e prefix).
Proof.
  induction e as [name|name children IH] using entry_ind_nested;
    intros path initial_path prefix.
  - cbn. destruct (is_audio_file name); reflexivity.
  - cbn [list_files_entry relative_audio_paths_entry entry_name].
    set (full := os_path_join path name).
    set (initial' := if truthy initial_path then initial_path else full).
    set (rel := if bool_decide (prefix = "") then name
                else prefix +:+ "/" +:+ name).
    clearbody rel initial' full.
    induction IH as [|c cs Hc _ IHcs]; cbn [flat_map]; [reflexivity|].
    rewrite !length_app, (Hc full initial' rel), IHcs. reflexivity.
Qed.

(** X1: the filter of the listing over a whole directory.  Whatever
    the root and the initial path, [list_files] yields as many paths as
    the tree has files that [is_audio_file] accepts, at any depth. *)
Lemma list_files_length (listing : list entry) (path : string)
    (initial_path : option string) :
  length (list_files listing path initial_path)
  = length (relative_audio_paths listing).
Proof.
  unfold list_files, relative_audio_paths.
  generalize (if truthy_opt initial_path then default "" initial_path else path).
  intros initial. induction listing as [|e es IH]; cbn [flat_map]; [reflexivity|].
  rewrite !length_app, IH, (list_files_entry_length e path initial "").
  reflexivity.
Qed.

Lemma str_app_cons (x : Ascii.ascii) (a b : string) :
  String x a +:+ b = String x (a +:+ b).
Proof. reflexivity. Qed.

Lemma str_app_assoc (a b c : string) : (a +:+ b) +:+ c = a +:+ (b +:+ c).
Proof.
  induction a as [|x a IH]; [reflexivity|].
  by rewrite !str_app_cons, IH.
Qed.

Lemma rev_app_app (a b acc : string) :
  String.rev_app (a +:+ b) acc = String.rev_app b (String.rev_app a acc).
Proof.
  revert acc. induction a as [|x a IH]; intros acc; [reflexivity|].
  rewrite str_app_cons. cbn [String.rev_app]. apply IH.
Qed.

Lemma rev_app_acc (s acc : string) :
  String.rev_app s acc = String.rev_app s "" +:+ acc.
Proof.
  revert acc. induction s as [|x s IH]; intros acc; [reflexivity|].
  cbn [String.rev_app].
  rewrite (IH (String x acc)), (IH (String x "")), str_app_assoc. reflexivity.
Qed.

Lemma rev_app_distr (a b : string) :
  String.rev (a +:+ b) = String.rev b +:+ String.rev a.
Proof. unfold String.rev. rewrite rev_app_app. apply rev_app_acc. Qed.

Lemma rev_nonempty (s : string) : s ≠ "" -> String.rev s ≠ "".
Proof.
  destruct s as [|x s]; [done|]. intros _. unfold String.rev.
  cbn [String.rev_app]. rewrite rev_app_acc.
  destruct (String.rev_app s ""); discriminate.
Qed.

Lemma startswith_app_l (a b : string) :
  a ≠ "" -> startswith (a +:+ b) "/" = startswith a "/".
Proof.
  destruct a as [|x a]; [done|]. intros _. rewrite str_app_cons.
  cbn [startswith]. by destruct (a +:+ b), a.
Qed.

Lemma endswith_app_r (a b : string) :
  b ≠ "" -> endswith (a +:+ b) "/" = endswith b "/".
Proof.
  intros Hb. unfold endswith. rewrite rev_app_distr.
  apply startswith_app_l. by apply rev_nonempty.
Qed.

Lemma startswith_app_self (p t : string) : startswith (p +:+ t) p = true.
Proof.
  induction p as [|x p IH]; [by destruct t|].
  rewrite str_app_cons. cbn [startswith].
  by rewrite bool_decide_eq_true_2.
Qed.

Lemma contains_cons (c : Ascii.ascii) (t old : string) :
  contains (String c t) old = false ->
  startswith (String c t) old = false /\ contains t old = false.
Proof. cbn [contains]. intros H. by apply orb_false_iff in H. Qed.

Lemma replace_go_absent (old new t : string) :
  contains t old = false -> replace_go old new 0 t = t.
Proof.
  induction t as [|c t IH]; intros H; [reflexivity|].
  apply contains_cons in H as [Hs Hc]. cbn [replace_go].
  rewrite Hs. by rewrite IH.
Qed.

Lemma replace_go_skip (old new u t : string) :
  replace_go old new (String.length u) (u +:+ t) = replace_go old new 0 t.
Proof.
  induction u as [|c u IH]; [reflexivity|].
  rewrite str_app_cons. cbn [String.length replace_go]. exact IH.
Qed.

(** Removing [old] from a string that starts with it and does not
    contain it further on leaves the rest. *)
Lemma str_replace_prefix (old t : string) :
  old ≠ "" -> contains t old = false ->
  str_replace (old +:+ t) old "" = t.
Proof.
  intros Hold Hc. unfold str_replace.
  destruct old as [|c old]; [done|].
  rewrite str_app_cons. cbn [replace_go]. rewrite <- str_app_cons.
  rewrite startswith_app_self.
  replace (String.length (String c old) - 1) with (String.length old)
    by (cbn [String.length]; lia).
  rewrite replace_go_skip. by apply replace_go_absent.
Qed.

Lemma is_clean_spec (p : string) :
  is_clean p = true <->
  p ≠ "" /\ startswith p "/" = false /\ endswith p "/" = false.
Proof.
  unfold is_clean. rewrite !andb_true_iff, !negb_true_iff.
  rewrite bool_decide_eq_false. tauto.
Qed.

Lemma os_path_join_clean (path name : string) :
  path ≠ "" -> endswith path "/" = false -> startswith name "/" = false ->
  os_path_join path name = path +:+ "/" +:+ name.
Proof.
  intros Hp He Hn. unfold os_path_join.
  by rewrite Hn, He, (bool_decide_eq_false_2 _ Hp).
Qed.

Lemma under_clean (root prefix : string) :
  root ≠ "" -> endswith root "/" = false ->
  prefix = "" \/ is_clean prefix = true ->
  under root prefix ≠ "" /\ endswith (under root prefix) "/" = false.
Proof.
  intros Hr He [->|Hc]; [done|]. apply is_clean_spec in Hc as (Hp & _ & Hpe).
  unfold under. rewrite (bool_decide_eq_false_2 _ Hp). split.
  - destruct root; [done|rewrite str_app_cons; discriminate].
  - rewrite endswith_app_r by (rewrite str_app_cons; discriminate).
    by rewrite endswith_app_r.
Qed.

Lemma relative_to_clean (prefix name : string) :
  prefix = "" \/ is_clean prefix = true -> is_clean name = true ->
  is_clean (relative_to prefix name) = true.
Proof.
  intros [->|Hc] Hn; [done|]. unfold relative_to.
  apply is_clean_spec in Hc as (Hp & Hps & _).
  apply is_clean_spec in Hn as (Hne & _ & Hnn).
  rewrite (bool_decide_eq_false_2 _ Hp). apply is_clean_spec. repeat split.
  - destruct prefix; [done|rewrite str_app_cons; discriminate].
  - by rewrite startswith_app_l.
  - rewrite endswith_app_r by (rewrite str_app_cons; discriminate).
    by rewrite endswith_app_r.
Qed.

Lemma under_step (root prefix name : string) :
  root ≠ "" -> endswith root "/" = false ->
  prefix = "" \/ is_clean prefix = true -> is_clean name = true ->
  os_path_join (under root prefix) name
  = root +:+ "/" +:+ relative_to prefix name /\
  under root (relative_to prefix name)
  = root +:+ "/" +:+ relative_to prefix name.
Proof.
  intros Hr He Hp Hn.
  destruct (under_clean root prefix Hr He Hp) as [Hu Hue].
  pose proof (relative_to_clean prefix name Hp Hn) as Hrel.
  apply is_clean_spec in Hn as (Hne & Hns & _).
  apply is_clean_spec in Hrel as (Hrne & _ & _).
  split.
  - rewrite os_path_join_clean by done. unfold under, relative_to.
    case_bool_decide; [reflexivity|]. by rewrite !str_app_assoc.
  - unfold under. by rewrite (bool_decide_eq_false_2 _ Hrne).
Qed.

Lemma startswith_nil (s : string) : startswith s "" = true.
Proof. by destruct s. Qed.

Lemma lstrip_sep (rel : string) :
  startswith rel "/" = false -> lstrip ("/" +:+ rel) sep = rel.
Proof.
  intros H. change ("/" +:+ rel) with (String sep rel). cbn [lstrip].
  rewrite bool_decide_eq_true_2 by reflexivity.
  destruct rel as [|a rel]; [reflexivity|]. cbn [lstrip].
  case_bool_decide as E; [|reflexivity]. subst a. exfalso. revert H.
  cbn [startswith]. rewrite bool_decide_eq_true_2 by reflexivity.
  rewrite startswith_nil. discriminate.
Qed.

(** On a tree of clean names under a root that is not empty and does
    not end with the separator, the listing of an entry is its list of
    relative paths, provided the root's path does not occur in any of
    them (taken with the separator before it). *)
Lemma list_files_entry_relative (root : string) (e : entry) :
  root ≠ "" -> endswith root "/" = false ->
  forall prefix,
    clean_tree e = true ->
    prefix = "" \/ is_clean prefix = true ->
    Forall (fun rel => contains ("/" +:+ rel) root = false)
      (relative_audio_paths_entry e prefix) ->
    list_files_entry e (under root prefix) root
    = relative_audio_paths_entry e prefix.
Proof.
  intros Hr He.
  induction e as [name|name children IH] using entry_ind_nested;
    intros prefix Hclean Hp Hocc.
  - cbn in Hclean. rewrite andb_true_r in Hclean.
    destruct (under_step root prefix name Hr He Hp Hclean) as [Hjoin _].
    pose proof (relative_to_clean prefix name Hp Hclean) as Hrel.
    apply is_clean_spec in Hrel as (_ & Hrs & _).
    cbn [list_files_entry relative_audio_paths_entry entry_name] in *.
    fold (relative_to prefix name) in *.
    destruct (is_audio_file name); [|reflexivity].
    apply Forall_cons in Hocc as [Hocc _].
    rewrite Hjoin, (str_replace_prefix root _ Hr Hocc).
    by rewrite lstrip_sep.
  - cbn [clean_tree entry_name] in Hclean.
    apply andb_true_iff in Hclean as [Hname Hkids].
    destruct (under_step root prefix name Hr He Hp Hname) as [Hjoin Hunder].
    pose proof (relative_to_clean prefix name Hp Hname) as Hrel.
    cbn [list_files_entry relative_audio_paths_entry entry_name] in *.
    fold (relative_to prefix name) in *.
    rewrite Hjoin, <- Hunder.
    assert (truthy root = true) as ->
      by (unfold truthy; by rewrite (bool_decide_eq_false_2 _ Hr)).
    induction IH as [|c cs Hc _ IHcs]; [reflexivity|].
    cbn [flat_map forallb] in *.
    apply andb_true_iff in Hkids as [Hck Hcsk].
    apply Forall_app in Hocc as [Hocc1 Hocc2].
    rewrite (Hc (relative_to prefix name)) by auto.
    by rewrite IHcs.
Qed.

(** X2: the listing is right whenever the root's path does not occur
    again below the root.  For a root that is not empty and does not
    end with the separator, and a tree whose names are not empty and
    neither start nor end with the separator, [list_files] yields, in
    the order of the walk, the path of every audio file relative to the
    root. *)
Lemma list_files_relative (listing : list entry) (root : string) :
  root ≠ "" -> endswith root "/" = false ->
  forallb clean_tree listing = true ->
  Forall (fun rel => contains ("/" +:+ rel) root = false)
    (relative_audio_paths listing) ->
  list_files listing root None = relative_audio_paths listing.
Proof.
  intros Hr He Hclean Hocc. unfold list_files, relative_audio_paths in *.
  cbn [truthy_opt].
  induction listing as [|e es IH]; [reflexivity|].
  cbn [flat_map forallb] in *.
  apply andb_true_iff in Hclean as [He1 He2].
  apply Forall_app in Hocc as [Hocc1 Hocc2].
  rewrite <- (list_files_entry_relative root e Hr He "") by auto.
  by rewrite IH.
Qed.

(** The tree of the listing test. *)
Lemma list_files_relative_flat :
  list_files [File "song.mp3"; File "album.FLAC"; File "readme.txt";
              Dir "subdir" [File "nested.mp3"]] "/tmp/music" None
  = ["song.mp3"; "album.FLAC"; "subdir/nested.mp3"].
Proof. by apply list_files_relative; [| |done|repeat constructor]. Defined.

(** C8 on the code: a root whose path occurs again below it.  Listing
    [/m], the second file comes out under the first one's name: the
    root prefix is removed with [str.replace], which removes every
    occurrence.  One path is yielded twice, and [a/m/x.mp3], the path of
    the second file relative to the root, is not yielded. *)
Theorem list_files_repeated_root :
  list_files nested_listing "/m" None = ["a/x.mp3"; "a/x.mp3"] /\
  relative_audio_paths nested_listing = ["a/x.mp3"; "a/m/x.mp3"] /\
  ~ NoDup (list_files nested_listing "/m" None) /\
  "a/m/x.mp3" ∉ list_files nested_listing "/m" None.
Proof.
  split; [reflexivity|]. split; [reflexivity|].
  change (list_files nested_listing "/m" None) with ["a/x.mp3"; "a/x.mp3"].
  split.
  - intros H. apply NoDup_cons in H as [H _]. apply H, list_elem_of_here.
  - rewrite !not_elem_of_cons. repeat split; try discriminate.
    apply not_elem_of_nil.
Qed.

(** ** The record store: tables that are missing, unreadable or shared *)

Lemma mapM_album_rows (l : list AlbumMetadata.t) :
  mapM AlbumMetadata.from_csv_row (AlbumMetadata.to_csv_row <$> l) = Ok l.
Proof.
  induction l as [|a l IH]; [reflexivity|].
  cbn [fmap list_fmap mapM]. rewrite album_from_to. cbn [mbind result_bind].
  fold (fmap (M:=list) AlbumMetadata.to_csv_row l).
  rewrite IH. reflexivity.
Qed.

Lemma update_first_album_rows (a : AlbumMetadata.t) (l : list AlbumMetadata.t) :
  exists o,
    update_first_album a (AlbumMetadata.to_csv_row <$> l) = Ok o /\
    match o with
    | Some rows' => rows'
    | None => ((AlbumMetadata.to_csv_row <$> l) ++ [AlbumMetadata.to_csv_row a])%list
    end = AlbumMetadata.to_csv_row <$> upsert_albums a l.
Proof.
  induction l as [|x l (o & Ho & Heq)].
  - exists None. split; reflexivity.
  - cbn [fmap list_fmap update_first_album upsert_albums].
    fold (fmap (M:=list) AlbumMetadata.to_csv_row l).
    assert (getitem (AlbumMetadata.to_csv_row x) "name" = Ok (AlbumMetadata.name x))
      as -> by (destruct x; reflexivity).
    cbn [mbind result_bind].
    case_bool_decide.
    + eexists; split; [reflexivity|]. destruct x as [n ar]. reflexivity.
    + rewrite Ho. cbn [mbind result_bind].
      eexists; split; [reflexivity|].
      destruct o; cbn; rewrite <- Heq; reflexivity.
Qed.

Lemma load_albums_run (s : Store) (l : list AlbumMetadata.t) :
  load_albums s = Ok l ->
  _read_album_metadata (albums_path s) false s = (Ok l, s).
Proof.
  unfold load_albums. rewrite read_album_run. cbn [fst].
  intros ->. reflexivity.
Qed.

Lemma upsert_album_run (a : AlbumMetadata.t) (s : Store)
    (l : list AlbumMetadata.t) :
  load_albums s = Ok l ->
  upsert_album_metadata a s =
  (Ok tt, mkStore (config_dir s)
            (<[albums_path s := AlbumMetadata.to_csv_row <$> upsert_albums a l]>
               (files s))
            (delete (albums_path s) (CACHE s))).
Proof.
  intros Hread. apply load_albums_run in Hread.
  unfold upsert_album_metadata, get_or_create_albums_file_path,
    get_or_create_config_dir.
  rewrite !bind_run. cbn -[_read_album_metadata _write_csv].
  fold (albums_path s). rewrite bind_run, Hread.
  destruct (update_first_album_rows a l) as (o & Ho & Heq).
  unfold lift_result. rewrite bind_run, Ho. rewrite Heq.
  apply write_csv_run.
  clear. induction (upsert_albums a l) as [|x l' IH]; cbn; constructor;
    [apply album_row_written | exact IH].
Qed.

Lemma load_albums_stored (s : Store) (l : list AlbumMetadata.t) :
  files s !! albums_path s = Some (AlbumMetadata.to_csv_row <$> l) ->
  load_albums s = Ok (album_as_read <$> l).
Proof.
  intros H. unfold load_albums. rewrite read_album_run. cbn.
  rewrite H. cbn [default from_option id]. rewrite album_rows_as_read.
  apply mapM_album_rows.
Qed.

Lemma loaded_albums_clean (s : Store) (l : list AlbumMetadata.t) :
  load_albums s = Ok l -> Forall (fun a => album_has_cr a = false) l.
Proof.
  unfold load_albums. rewrite read_album_run. cbn [fst].
  apply (mapM_Forall clean_row); [intros; by eapply album_from_clean|].
  apply rows_as_read_clean.
Qed.

Lemma upsert_albums_Forall (a : AlbumMetadata.t) (l : list AlbumMetadata.t) :
  album_has_cr a = false ->
  Forall (fun x => album_has_cr x = false) l ->
  Forall (fun x => album_has_cr x = false) (upsert_albums a l).
Proof.
  intros Ha. induction 1 as [|x l Hx Hl IH]; cbn [upsert_albums].
  - by repeat constructor.
  - case_bool_decide; constructor; try done.
    unfold album_has_cr in *. cbn.
    apply orb_false_iff in Hx as [-> _]. by apply orb_false_iff in Ha as [_ ->].
Qed.

Lemma first_with_name_upsert (a : AlbumMetadata.t) (l : list AlbumMetadata.t) :
  first_with_name (AlbumMetadata.name a) (upsert_albums a l) = Some a.
Proof.
  unfold first_with_name. induction l as [|x l IH]; cbn [upsert_albums].
  - rewrite filter_cons_True by reflexivity. reflexivity.
  - case_bool_decide as Hx.
    + rewrite filter_cons_True by exact Hx. cbn. rewrite Hx. by destruct a.
    + rewrite filter_cons_False by done. apply IH.
Qed.

Lemma first_with_name_upsert_ne (n : string) (a : AlbumMetadata.t)
    (l : list AlbumMetadata.t) :
  n ≠ AlbumMetadata.name a ->
  first_with_name n (upsert_albums a l) = first_with_name n l.
Proof.
  intros Hn. unfold first_with_name.
  induction l as [|x l IH]; cbn [upsert_albums].
  - rewrite filter_cons_False by (cbn; congruence). reflexivity.
  - case_bool_decide as Hx.
    + rewrite !filter_cons_False by (cbn; congruence). reflexivity.
    + destruct (decide (AlbumMetadata.name x = n)) as [Hxn|Hxn].
      * rewrite !filter_cons_True by done. reflexivity.
      * rewrite !filter_cons_False by done. apply IH.
Qed.

Lemma upsert_albums_length (a : AlbumMetadata.t) (l : list AlbumMetadata.t) :
  length (upsert_albums a l)
  = if bool_decide (has_album_name (AlbumMetadata.name a) l)
    then length l else S (length l).
Proof.
  unfold has_album_name. induction l as [|x l IH]; cbn [upsert_albums].
  - rewrite bool_decide_eq_false_2; [reflexivity|]. intros H; inversion H.
  - destruct (decide (AlbumMetadata.name x = AlbumMetadata.name a)) as [Hx|Hx].
    + rewrite (bool_decide_eq_true_2 _ Hx).
      rewrite bool_decide_eq_true_2 by (by constructor). reflexivity.
    + rewrite (bool_decide_eq_false_2 _ Hx). cbn [length]. rewrite IH.
      destruct (decide (Exists (fun x => AlbumMetadata.name x
                                         = AlbumMetadata.name a) l))
        as [Hl|Hl].
      * rewrite (bool_decide_eq_true_2 _ Hl).
        rewrite bool_decide_eq_true_2 by (by constructor 2). reflexivity.
      * rewrite (bool_decide_eq_false_2 _ Hl).
        rewrite bool_decide_eq_false_2; [reflexivity|].
        rewrite Exists_cons. tauto.
Qed.

(** X3: with no table file, the asset table and the album table read as
    empty: a lookup without a key lists nothing, a lookup by key finds
    nothing, the store is left as it was, and the first upsert creates
    the table with that one row. *)
Theorem missing_tables_read_empty (s : Store) (k : string)
    (t : TrackMetadata.t) :
  k ≠ "" ->
  files s !! metadata_path s = None ->
  files s !! albums_path s = None ->
  get_file_metadata None s = (Ok (Listing []), s) /\
  get_file_metadata (Some k) s = (Ok (Single None), s) /\
  get_album_metadata None s = (Ok (Listing []), s) /\
  get_album_metadata (Some k) s = (Ok (Single None), s) /\
  exists s1,
    upsert_track_metadata t s = (Ok tt, s1) /\
    files s1 !! metadata_path s1 = Some [TrackMetadata.to_csv_row t].
Proof.
  intros Hk Hm Ha.
  assert (Hts : load_tracks s = Ok []).
  { unfold load_tracks. rewrite read_track_run. cbn. by rewrite Hm. }
  assert (Has : load_albums s = Ok []).
  { unfold load_albums. rewrite read_album_run. cbn. by rewrite Ha. }
  rewrite !get_file_run, !get_album_run, Hts, Has. cbn.
  unfold truthy. rewrite (bool_decide_eq_false_2 _ Hk). cbn.
  repeat split.
  eexists. split; [apply (upsert_track_run t s [] Hts)|].
  unfold metadata_path; cbn. apply lookup_insert_eq.
Qed.

Lemma missing_tables_read_empty_witness :
  get_file_metadata None empty_store = (Ok (Listing []), empty_store) /\
  get_file_metadata (Some "test_file.mp3") empty_store
    = (Ok (Single None), empty_store) /\
  get_album_metadata None empty_store = (Ok (Listing []), empty_store) /\
  get_album_metadata (Some "test_file.mp3") empty_store
    = (Ok (Single None), empty_store) /\
  exists s1,
    upsert_track_metadata sample_track empty_store = (Ok tt, s1) /\
    files s1 !! metadata_path s1 = Some [TrackMetadata.to_csv_row sample_track].
Proof.
  apply (missing_tables_read_empty empty_store "test_file.mp3" sample_track).
  - discriminate.
  - reflexivity.
  - reflexivity.
Defined.

Lemma complete_album_rows_load (s : Store) :
  complete_rows ALBUM_FIELDNAMES (album_rows s) = true ->
  exists l, load_albums s = Ok l.
Proof.
  unfold load_albums, album_rows, complete_rows.
  rewrite read_album_run. cbn [fst].
  generalize (default [] (files s !! albums_path s)). intros rows Hall.
  induction rows as [|r rows IH]; [by exists []|].
  cbn in Hall. apply andb_true_iff in Hall as [Hr Hrows].
  destruct (IH Hrows) as (l & Hl).
  unfold rows_as_read in *. cbn [fmap list_fmap mapM].
  fold (fmap (M:=list) (fun r : row => universal_newlines <$> r) rows).
  rewrite Hl.
  repeat (apply andb_true_iff in Hr as [? Hr]).
  unfold AlbumMetadata.from_csv_row, getitem.
  repeat match goal with
         | H : has_key r ?k = true |- _ =>
           rewrite <- (has_key_as_read r k) in H; apply has_key_get in H;
           rewrite H; clear H
         end.
  cbn. by eexists.
Qed.



Lemma from_csv_row_date (r : row) (t : TrackMetadata.t) :
  TrackMetadata.from_csv_row r = Ok t -> TrackMetadata.date t ≠ Some "".
Proof.
  unfold TrackMetadata.from_csv_row.
  repeat match goal with
         | |- context [getitem r ?k ≫= _] =>
           destruct (getitem r k); simpl; [|discriminate]
         end.
  intros [= <-]. cbn. apply or_None_not_empty.
Qed.

(** Records that were read from a table are unchanged by a further
    write and read. *)
Lemma loaded_tracks_fixed (s : Store) (ts : list TrackMetadata.t) :
  load_tracks s = Ok ts ->
  Forall (fun x => normalize (track_as_read x) = x) ts.
Proof.
  intros Hload. pose proof (loaded_tracks_clean s ts Hload) as Hclean.
  revert Hload. unfold load_tracks. rewrite read_track_run. cbn [fst].
  intros Hm.
  assert (Forall (fun x => TrackMetadata.date x ≠ Some "") ts) as Hdate.
  { eapply (mapM_Forall (fun _ => True)); [|apply Forall_true; done|exact Hm].
    intros r t _. apply from_csv_row_date. }
  clear Hm. induction Hclean as [|x l Hx _ IH]; [constructor|].
  apply Forall_cons in Hdate as [Hd Hdl]. constructor; [|by apply IH].
  by rewrite track_as_read_id, normalize_valid.
Qed.

(** A function that fixes the records of the list and keeps the key of
    the new record goes through the upsert. *)
Lemma fmap_upsert_tracks (f : TrackMetadata.t -> TrackMetadata.t)
    (t : TrackMetadata.t) (ts : list TrackMetadata.t) :
  Forall (fun x => f x = x) ts ->
  TrackMetadata.key (f t) = TrackMetadata.key t ->
  f <$> upsert_tracks t ts = upsert_tracks (f t) ts.
Proof.
  intros Hts Hk. induction Hts as [|x l Hx Hl IH]; cbn [upsert_tracks].
  - reflexivity.
  - rewrite Hk. case_bool_decide; rewrite fmap_cons.
    + f_equal. clear -Hl. induction Hl as [|y l Hy _ IH]; [reflexivity|].
      by rewrite fmap_cons, Hy, IH.
    + by rewrite Hx, IH.
Qed.

(** The asset table after an upsert under a key with no carriage
    return: the records that were there, and the new one as it reads
    back. *)
Lemma load_after_upsert (r : TrackMetadata.t) (s : Store)
    (ts : list TrackMetadata.t) :
  load_tracks s = Ok ts ->
  has_cr (TrackMetadata.key r) = false ->
  load_tracks
    (mkStore (config_dir s)
       (<[metadata_path s := TrackMetadata.to_csv_row <$> upsert_tracks r ts]>
          (files s))
       (delete (metadata_path s) (CACHE s)))
  = Ok (upsert_tracks (normalize (track_as_read r)) ts).
Proof.
  intros Hload Hcr.
  rewrite (load_stored _ (upsert_tracks r ts))
    by (unfold metadata_path; cbn; apply lookup_insert_eq).
  rewrite <- list_fmap_compose. f_equal.
  apply (fmap_upsert_tracks (normalize ∘ track_as_read)).
  - by apply loaded_tracks_fixed in Hload.
  - cbn. by apply universal_newlines_id.
Qed.

Lemma first_with_key_upsert_ne (k : string) (t : TrackMetadata.t)
    (ts : list TrackMetadata.t) :
  k ≠ TrackMetadata.key t ->
  first_with_key k (upsert_tracks t ts) = first_with_key k ts.
Proof.
  intros Hk. unfold first_with_key.
  induction ts as [|x ts IH]; cbn [upsert_tracks].
  - rewrite filter_cons_False by congruence. reflexivity.
  - case_bool_decide as Hx.
    + rewrite !filter_cons_False by congruence. reflexivity.
    + destruct (decide (TrackMetadata.key x = k)) as [Hxk|Hxk].
      * rewrite !filter_cons_True by done. reflexivity.
      * rewrite !filter_cons_False by done. apply IH.
Qed.

Lemma upsert_tracks_new (t : TrackMetadata.t) (ts : list TrackMetadata.t) :
  ¬ has_track_key (TrackMetadata.key t) ts ->
  upsert_tracks t ts = (ts ++ [t])%list.
Proof.
  unfold has_track_key. induction ts as [|x ts IH]; intros Hnew; [reflexivity|].
  cbn [upsert_tracks]. rewrite Exists_cons in Hnew.
  rewrite bool_decide_eq_false_2 by tauto.
  rewrite IH by tauto. reflexivity.
Qed.

Lemma str_app_inj (d a b : string) : d +:+ a = d +:+ b -> a = b.
Proof.
  induction d as [|c d IH]; [done|].
  rewrite !str_app_cons. intros [= H]. by apply IH.
Qed.

Lemma table_paths_differ (s : Store) : metadata_path s ≠ albums_path s.
Proof.
  unfold metadata_path, albums_path, path_div. intros H.
  apply str_app_inj in H. discriminate H.
Qed.

Lemma complete_rows_load (s : Store) :
  complete_rows TRACK_FIELDNAMES (asset_rows s) = true ->
  exists ts, load_tracks s = Ok ts /\ length ts = length (asset_rows s).
Proof.
  unfold load_tracks, asset_rows, complete_rows.
  rewrite read_track_run. cbn [fst].
  generalize (default [] (files s !! metadata_path s)). intros rows Hall.
  assert (_is_legacy_track_format (rows_as_read rows) = false) as ->.
  { destruct rows as [|r rows]; [reflexivity|]. cbn in Hall |- *.
    repeat (apply andb_true_iff in Hall as [Hall ?]).
    rewrite (has_key_as_read r "album_name").
    repeat match goal with
           | H : has_key r "album_name" && _ = true |- _ =>
             apply andb_true_iff in H as [-> _]
           | H : has_key r _ && _ = true |- _ =>
             apply andb_true_iff in H as [_ H]
           end.
    apply andb_false_r. }
  induction rows as [|r rows IH]; [by exists []|].
  cbn in Hall. apply andb_true_iff in Hall as [Hr Hrows].
  destruct (IH Hrows) as (ts & Hts & Hlen).
  unfold rows_as_read in *. cbn [fmap list_fmap mapM].
  fold (fmap (M:=list) (fun r : row => universal_newlines <$> r) rows).
  rewrite Hts.
  repeat (apply andb_true_iff in Hr as [? Hr]).
  unfold TrackMetadata.from_csv_row, getitem.
  repeat match goal with
         | H : has_key r ?k = true |- _ =>
           rewrite <- (has_key_as_read r k) in H; apply has_key_get in H;
           rewrite H; clear H
         end.
  cbn. eexists. split; [reflexivity|]. cbn. by rewrite Hlen.
Qed.



Lemma from_csv_row_raises (r : row) (e : exn) :
  TrackMetadata.from_csv_row r = Raise e ->
  exists c, c ∈ TRACK_FIELDNAMES /\ r !! c = None /\ e = KeyError c.
Proof.
  unfold TrackMetadata.from_csv_row, getitem.
  repeat match goal with
         | |- context [match r !! ?k with _ => _ end ≫= _] =>
           destruct (r !! k) eqn:?; simpl;
           [|intros [= <-]; exists k; split; [set_solver|done]]
         end.
  discriminate.
Qed.

Lemma from_csv_row_missing (r : row) (c : string) :
  c ∈ TRACK_FIELDNAMES -> r !! c = None ->
  exists e, TrackMetadata.from_csv_row r = Raise e.
Proof.
  intros Hc Hr. destruct (TrackMetadata.from_csv_row r) as [t|e] eqn:H;
    [exfalso|by eexists].
  revert H. unfold TrackMetadata.from_csv_row, getitem.
  repeat match goal with
         | |- context [match r !! ?k with _ => _ end ≫= _] =>
           destruct (r !! k) eqn:?; simpl; [|discriminate]
         end.
  intros _. unfold TRACK_FIELDNAMES in Hc.
  rewrite !elem_of_cons, elem_of_nil in Hc.
  repeat (destruct Hc as [->|Hc]; [congruence|]). done.
Qed.

Lemma upsert_track_raise (t : TrackMetadata.t) (s : Store) (e : exn) :
  load_tracks s = Raise e -> upsert_track_metadata t s = (Raise e, s).
Proof.
  intros Hload.
  assert (Hrun : _read_track_metadata (metadata_path s) false s = (Raise e, s)).
  { unfold load_tracks in Hload. rewrite read_track_run in *.
    f_equal. exact Hload. }
  unfold upsert_track_metadata, get_or_create_metadata_file_path,
    get_or_create_config_dir.
  rewrite !bind_run. cbn -[_read_track_metadata _write_csv].
  fold (metadata_path s). rewrite bind_run, Hrun. reflexivity.
Qed.

(** X6: a table with a column missing cannot be read.  When the header
    of the asset table lacks one of the seven columns, so that no row
    has it, and the table has a row and is not of the legacy schema,
    every lookup and every upsert raises [KeyError] for one of the
    seven columns that the table lacks, and the upsert leaves the files
    and the cache exactly as they were. *)
Theorem unreadable_table_fails_clean (s : Store) (rows : list row)
    (t : TrackMetadata.t) (c : string) :
  files s !! metadata_path s = Some rows ->
  rows ≠ [] ->
  c ∈ TRACK_FIELDNAMES ->
  Forall (fun r => r !! c = None) rows ->
  _is_legacy_track_format rows = false ->
  exists c', c' ∈ TRACK_FIELDNAMES /\
    (exists r, head rows = Some r /\ r !! c' = None) /\
    (forall key, get_file_metadata key s = (Raise (KeyError c'), s)) /\
    upsert_track_metadata t s = (Raise (KeyError c'), s).
Proof.
  intros Hfile Hne Hc Hall Hleg.
  destruct rows as [|r rows]; [done|]. clear Hne.
  apply Forall_cons in Hall as [Hr Hrows].
  assert (Hr' : (universal_newlines <$> r) !! c = None)
    by (by rewrite lookup_fmap, Hr).
  destruct (from_csv_row_missing _ c Hc Hr') as (e & He).
  destruct (from_csv_row_raises _ e He) as (c' & Hc' & Hmiss & ->).
  assert (Hload : load_tracks s = Raise (KeyError c')).
  { unfold load_tracks. rewrite read_track_run. cbn [fst].
    rewrite Hfile. cbn [default from_option id]. cbn zeta.
    assert (_is_legacy_track_format (rows_as_read (r :: rows)) = false) as ->.
    { cbn in Hleg |- *. by rewrite !has_key_as_read. }
    unfold rows_as_read. cbn [fmap list_fmap mapM]. by rewrite He. }
  exists c'. split; [exact Hc'|]. split; [|split].
  - exists r. split; [reflexivity|].
    rewrite lookup_fmap in Hmiss. by destruct (r !! c').
  - intros key. rewrite get_file_run, Hload. reflexivity.
  - by apply upsert_track_raise.
Qed.

Lemma unreadable_table_fails_clean_witness :
  exists c, c ∈ TRACK_FIELDNAMES /\
    (exists r,
       head [delete "genre" (TrackMetadata.to_csv_row sample_track)] = Some r /\
       r !! c = None) /\
    (forall key, get_file_metadata key torn_store
                 = (Raise (KeyError c), torn_store)) /\
    upsert_track_metadata known_track torn_store
    = (Raise (KeyError c), torn_store).
Proof.
  apply (unreadable_table_fails_clean torn_store
           [delete "genre" (TrackMetadata.to_csv_row sample_track)]
           known_track "genre").
  - reflexivity.
  - discriminate.
  - unfold TRACK_FIELDNAMES. do 5 apply list_elem_of_further.
    apply list_elem_of_here.
  - repeat constructor.
  - reflexivity.
Defined.

Lemma upsert_tracks_twice (t t' : TrackMetadata.t)
    (l : list TrackMetadata.t) :
  TrackMetadata.key t' = TrackMetadata.key t ->
  upsert_tracks t (upsert_tracks t' l) = upsert_tracks t l.
Proof.
  intros Hk. induction l as [|x l IH]; cbn [upsert_tracks].
  - rewrite bool_decide_eq_true_2 by done. reflexivity.
  - rewrite Hk. case_bool_decide as Hx; cbn [upsert_tracks].
    + rewrite bool_decide_eq_true_2 by done. reflexivity.
    + rewrite (bool_decide_eq_false_2 _ Hx), IH. reflexivity.
Qed.

Lemma upsert_albums_twice (a : AlbumMetadata.t) (l : list AlbumMetadata.t) :
  has_cr (AlbumMetadata.name a) = false ->
  Forall (fun x => album_has_cr x = false) l ->
  upsert_albums a (album_as_read <$> upsert_albums a l) = upsert_albums a l.
Proof.
  intros Hn. induction 1 as [|x l Hx Hl IH]; cbn [upsert_albums].
  - cbn. rewrite (universal_newlines_id _ Hn).
    rewrite bool_decide_eq_true_2 by done. by destruct a.
  - case_bool_decide as Hxa; rewrite fmap_cons; cbn [upsert_albums].
    + unfold album_as_read at 1 2.
      cbn [AlbumMetadata.name AlbumMetadata.artist].
      rewrite Hxa, (universal_newlines_id _ Hn).
      rewrite bool_decide_eq_true_2 by done.
      cbn. by rewrite (universal_newlines_id _ Hn), albums_as_read_id.
    + rewrite (album_as_read_id x Hx), (bool_decide_eq_false_2 _ Hxa), IH.
      reflexivity.
Qed.

Lemma track_has_cr_key (x : TrackMetadata.t) :
  track_has_cr x = false -> has_cr (TrackMetadata.key x) = false.
Proof.
  unfold track_has_cr. intros H.
  repeat (apply orb_false_iff in H as [H _]). exact H.
Qed.

(** No record that was read has a key with a carriage return. *)
Lemma clean_tracks_lack_key (k : string) (l : list TrackMetadata.t) :
  has_cr k = true ->
  Forall (fun x => track_has_cr x = false) l ->
  ¬ has_track_key k l.
Proof.
  intros Hk Hl. unfold has_track_key. rewrite Exists_exists.
  intros (x & Hx & <-). rewrite Forall_forall in Hl.
  apply Hl, track_has_cr_key in Hx. congruence.
Qed.

Lemma first_with_key_new (k : string) (l : list TrackMetadata.t) :
  ¬ has_track_key k l -> first_with_key k l = None.
Proof.
  unfold has_track_key, first_with_key.
  induction l as [|x l IH]; [reflexivity|]. rewrite Exists_cons.
  intros H. rewrite filter_cons_False by tauto. apply IH. tauto.
Qed.



Lemma legacy_rows_load (s : Store) (rows : list row) :
  files s !! metadata_path s = Some rows ->
  forallb is_legacy_row rows = true ->
  exists tracks, load_tracks s = Ok tracks /\ Forall2 migrated rows tracks.
Proof.
  intros Hfile Hall.
  destruct (migrate_legacy_rows rows Hall) as (tracks & Hts & Hms).
  exists tracks. split; [|done].
  unfold load_tracks. rewrite read_track_run, Hfile.
  cbn [fst default from_option id].
  destruct rows as [|r rows]; [by injection Hts as <-|].
  assert (_is_legacy_track_format (rows_as_read (r :: rows)) = true) as ->;
    [|by rewrite Hts].
  cbn in Hall. apply andb_true_iff in Hall as [Hr _].
  rewrite <- is_legacy_row_as_read in Hr.
  unfold is_legacy_row in Hr. apply andb_true_iff in Hr as [Hall Hname].
  cbn in Hall. repeat (apply andb_true_iff in Hall as [? Hall]).
  cbn. apply andb_true_iff. done.
Qed.

Lemma upsert_tracks_elem (t x : TrackMetadata.t) (l : list TrackMetadata.t) :
  (x = t \/ (x ∈ l /\ TrackMetadata.key x ≠ TrackMetadata.key t)) ->
  x ∈ upsert_tracks t l.
Proof.
  intros [->|[Hx Hk]].
  - induction l as [|y l IH]; cbn [upsert_tracks].
    + apply list_elem_of_here.
    + case_bool_decide; [apply list_elem_of_here|by apply list_elem_of_further].
  - induction l as [|y l IH]; [by apply elem_of_nil in Hx|].
    cbn [upsert_tracks]. apply elem_of_cons in Hx as [<-|Hx].
    + rewrite bool_decide_eq_false_2 by done. apply list_elem_of_here.
    + case_bool_decide; apply list_elem_of_further; [done|by apply IH].
Qed.

(** X8: the first upsert into a table of the legacy schema rewrites the
    whole table in the current schema.  Every legacy row is carried
    over as the record its migration gives (unless it has the key of
    the upserted record, which takes its place), and the table written
    is no longer recognized as legacy. *)
Theorem upsert_migrates_legacy_table (s : Store) (rows : list row)
    (t : TrackMetadata.t) :
  files s !! metadata_path s = Some rows ->
  forallb is_legacy_row rows = true ->
  exists tracks s1 l1,
    Forall2 migrated rows tracks /\
    upsert_track_metadata t s = (Ok tt, s1) /\
    files s1 !! metadata_path s1 = Some (TrackMetadata.to_csv_row <$> l1) /\
    t ∈ l1 /\
    (forall x, x ∈ tracks -> TrackMetadata.key x ≠ TrackMetadata.key t ->
               x ∈ l1) /\
    _is_legacy_track_format (TrackMetadata.to_csv_row <$> l1) = false.
Proof.
  intros Hfile Hall.
  destruct (legacy_rows_load s rows Hfile Hall) as (tracks & Hload & Hmig).
  exists tracks. eexists. exists (upsert_tracks t tracks).
  split; [exact Hmig|].
  split; [apply (upsert_track_run t s tracks Hload)|].
  split; [unfold metadata_path; cbn; apply lookup_insert_eq|].
  split; [apply upsert_tracks_elem; by left|].
  split; [intros x Hx Hk; apply upsert_tracks_elem; by right|].
  apply rows_not_legacy.
Qed.

Lemma upsert_migrates_legacy_table_witness :
  exists tracks s1 l1,
    Forall2 migrated legacy_rows tracks /\
    upsert_track_metadata sample_track legacy_store = (Ok tt, s1) /\
    files s1 !! metadata_path s1 = Some (TrackMetadata.to_csv_row <$> l1) /\
    sample_track ∈ l1 /\
    (forall x, x ∈ tracks ->
               TrackMetadata.key x ≠ TrackMetadata.key sample_track ->
               x ∈ l1) /\
    _is_legacy_track_format (TrackMetadata.to_csv_row <$> l1) = false.
Proof.
  apply (upsert_migrates_legacy_table legacy_store legacy_rows sample_track);
    reflexivity.
Defined.

(** ** The cache of the record store *)

Lemma read_track_at (p : string) (s s' : Store) :
  files s' !! p = files s !! p ->
  fst (_read_track_metadata p false s') = fst (_read_track_metadata p false s).
Proof. intros H. rewrite !read_track_run. cbn. by rewrite H. Qed.

Lemma read_album_at (p : string) (s s' : Store) :
  files s' !! p = files s !! p ->
  fst (_read_album_metadata p false s') = fst (_read_album_metadata p false s).
Proof. intros H. rewrite !read_album_run. cbn. by rewrite H. Qed.

Lemma read_track_cached_run (p : string) (s : Store) :
  _read_track_metadata p true s =
  match CACHE s !! p with
  | Some (CachedTracks l) => (Ok l, s)
  | _ =>
    match fst (_read_track_metadata p false s) with
    | Ok l => (Ok l, set_CACHE (<[p := CachedTracks l]>) s)
    | Raise e => (Raise e, s)
    end
  end.
Proof.
  rewrite read_track_run. cbn [fst].
  unfold _read_track_metadata, _read_csv_rows, get_state, lift_result,
    modify, mbind, M_bind, mret, M_ret.
  destruct (CACHE s !! p) as [[l|l]|]; [reflexivity| |];
    destruct (files s !! p) as [rows|]; cbn;
    try destruct (mapM _ _); reflexivity.
Qed.

Lemma read_album_cached_run (p : string) (s : Store) :
  _read_album_metadata p true s =
  match CACHE s !! p with
  | Some (CachedAlbums l) => (Ok l, s)
  | _ =>
    match fst (_read_album_metadata p false s) with
    | Ok l => (Ok l, set_CACHE (<[p := CachedAlbums l]>) s)
    | Raise e => (Raise e, s)
    end
  end.
Proof.
  rewrite read_album_run. cbn [fst].
  unfold _read_album_metadata, _read_csv_rows, get_state, lift_result,
    modify, mbind, M_bind, mret, M_ret.
  destruct (CACHE s !! p) as [[l|l]|]; [|reflexivity|];
    destruct (files s !! p) as [rows|]; cbn;
    try destruct (mapM _ _); reflexivity.
Qed.

Lemma coherent_after_write (s : Store) (p : string) (rows : list row) :
  cache_coherent s ->
  cache_coherent (mkStore (config_dir s) (<[p := rows]> (files s))
                    (delete p (CACHE s))).
Proof.
  intros Hs q. cbn [CACHE].
  destruct (decide (p = q)) as [<-|Hq]; [by rewrite lookup_delete_eq|].
  rewrite lookup_delete_ne by done. specialize (Hs q).
  destruct (CACHE s !! q) as [[l|l]|]; [| |done].
  - rewrite <- Hs. apply read_track_at. cbn. by apply lookup_insert_ne.
  - rewrite <- Hs. apply read_album_at. cbn. by apply lookup_insert_ne.
Qed.

Lemma coherent_after_fill (s : Store) (p : string) (c : cached) :
  cache_coherent s ->
  match c with
  | CachedTracks l => fst (_read_track_metadata p false s) = Ok l
  | CachedAlbums l => fst (_read_album_metadata p false s) = Ok l
  end ->
  cache_coherent (set_CACHE (<[p := c]>) s).
Proof.
  intros Hs Hc q. cbn [CACHE set_CACHE].
  destruct (decide (p = q)) as [<-|Hq].
  - rewrite lookup_insert_eq. destruct c as [l|l]; rewrite <- Hc.
    + by apply read_track_at.
    + by apply read_album_at.
  - rewrite lookup_insert_ne by done. specialize (Hs q).
    destruct (CACHE s !! q) as [[l|l]|]; [| |done]; rewrite <- Hs.
    + by apply read_track_at.
    + by apply read_album_at.
Qed.

Lemma upsert_album_raise (a : AlbumMetadata.t) (s : Store) (e : exn) :
  load_albums s = Raise e -> upsert_album_metadata a s = (Raise e, s).
Proof.
  intros Hload.
  assert (Hrun : _read_album_metadata (albums_path s) false s = (Raise e, s)).
  { unfold load_albums in Hload. rewrite read_album_run in *.
    f_equal. exact Hload. }
  unfold upsert_album_metadata, get_or_create_albums_file_path,
    get_or_create_config_dir.
  rewrite !bind_run. cbn -[_read_album_metadata _write_csv].
  fold (albums_path s). rewrite bind_run, Hrun. reflexivity.
Qed.

(** X9: the cache never goes stale through the store's own operations.
    When every cached list is what its file reads as, a cached read
    returns what the uncached read returns, and the property still
    holds after a cached read and after an upsert, whatever their
    outcome: [_write_csv] drops the entry of the file it rewrites. *)
Theorem cache_stays_coherent (s : Store) :
  cache_coherent s ->
  (forall p, no_albums_cached s p ->
     fst (_read_track_metadata p true s) = fst (_read_track_metadata p false s)
     /\ cache_coherent (snd (_read_track_metadata p true s))) /\
  (forall p, no_tracks_cached s p ->
     fst (_read_album_metadata p true s) = fst (_read_album_metadata p false s)
     /\ cache_coherent (snd (_read_album_metadata p true s))) /\
  (forall t, cache_coherent (snd (upsert_track_metadata t s))) /\
  (forall a, cache_coherent (snd (upsert_album_metadata a s))).
Proof.
  intros Hs. split; [|split; [|split]].
  - intros p Hp. rewrite read_track_cached_run. pose proof (Hs p) as Hsp.
    destruct (CACHE s !! p) as [[l|l]|] eqn:Hc.
    + split; [by rewrite Hsp|done].
    + by destruct (Hp l).
    + destruct (fst (_read_track_metadata p false s)) as [l|e] eqn:Hr;
        cbn [fst snd]; split; try done.
      by apply (coherent_after_fill s p (CachedTracks l)).
  - intros p Hp. rewrite read_album_cached_run. pose proof (Hs p) as Hsp.
    destruct (CACHE s !! p) as [[l|l]|] eqn:Hc.
    + by destruct (Hp l).
    + split; [by rewrite Hsp|done].
    + destruct (fst (_read_album_metadata p false s)) as [l|e] eqn:Hr;
        cbn [fst snd]; split; try done.
      by apply (coherent_after_fill s p (CachedAlbums l)).
  - intros t. destruct (load_tracks s) as [ts|e] eqn:Hload.
    + rewrite (upsert_track_run t s ts Hload). cbn [snd].
      by apply coherent_after_write.
    + by rewrite (upsert_track_raise t s e Hload).
  - intros a. destruct (load_albums s) as [l|e] eqn:Hload.
    + rewrite (upsert_album_run a s l Hload). cbn [snd].
      by apply coherent_after_write.
    + by rewrite (upsert_album_raise a s e Hload).
Qed.

Lemma cache_stays_coherent_witness :
  (forall p, no_albums_cached warm_store p ->
     fst (_read_track_metadata p true warm_store)
     = fst (_read_track_metadata p false warm_store)
     /\ cache_coherent (snd (_read_track_metadata p true warm_store))) /\
  (forall p, no_tracks_cached warm_store p ->
     fst (_read_album_metadata p true warm_store)
     = fst (_read_album_metadata p false warm_store)
     /\ cache_coherent (snd (_read_album_metadata p true warm_store))) /\
  (forall t, cache_coherent (snd (upsert_track_metadata t warm_store))) /\
  (forall a, cache_coherent (snd (upsert_album_metadata a warm_store))).
Proof.
  apply (cache_stays_coherent warm_store).
  intros p. cbn [CACHE warm_store].
  destruct (decide (p = "/cfg/metadata.csv")) as [->|Hp].
  - reflexivity.
  - rewrite lookup_singleton_ne by done. reflexivity.
Defined.

(** ** The tag codec: what is written is what is recognized and read *)

Lemma processed_dispatch (path : string) (f : AudioFile) :
  supported path f = true ->
  file_metadata.is_already_processed path f = has_marker f.
Proof.
  unfold supported, file_metadata.is_already_processed, endswith.
  generalize (String.rev (lower path)). intros r H.
  destruct f; try discriminate H; cbn in H |- *;
    destruct r as [|a r]; try discriminate H; cbn in H |- *;
    repeat match type of H with
           | (_ || _) = true => apply orb_true_iff in H as [H|H]
           | (_ && _) = true => apply andb_true_iff in H as [Ha H]
           end;
    apply bool_decide_eq_true in Ha; subst a; cbn; rewrite ?H;
    try reflexivity; by destruct (_has_marker_in_list _ _).
Qed.

Lemma has_marker_strings (o : pyobj) :
  existsb (fun v => contains v PROCESSED_MARKER) (obj_strings o) = true ->
  _has_marker_in_list o PROCESSED_MARKER = true.
Proof.
  destruct o as [|s|d|l|]; cbn; try discriminate.
  - by rewrite orb_false_r.
  - induction l as [|v l IH]; cbn; [done|].
    destruct v as [s|d|]; cbn; rewrite ?orb_true_iff; tauto.
Qed.

Lemma carries_has_marker (f : AudioFile) :
  carries_marker f = true -> has_marker f = true.
Proof.
  unfold carries_marker. destruct f; cbn [comment_values has_marker];
    try apply has_marker_strings; [|done].
  by rewrite has_marker_frames.
Qed.

(** What both kinds of writer achieve on a file they can open. *)
Lemma write_supported (easy_text : string -> string -> option string)
    (path : string) (meta : TrackMetadata.t) (f : AudioFile) :
  supported path f = true ->
  ogg_without_fields f = false ->
  exists f',
    write_file_metadata easy_text path meta f = Ok f' /\
    supported path f' = true /\ carries_marker f' = true.
Proof.
  intros Hsup Hogg. rewrite (write_dispatch easy_text path meta f Hsup).
  destruct (is_mp3 f) eqn:Hmp3.
  - destruct f as [easy id3| | | | |]; try discriminate Hmp3.
    cbn [writer_of].
    destruct (mp3_writer_frames easy_text meta easy id3) as (easy' & ->).
    eexists. split; [reflexivity|]. split; [exact Hsup|].
    destruct (carries_marker (Mp3 easy id3)) eqn:E; [exact E|].
    apply existsb_marker. exists PROCESSED_MARKER.
    split; [|apply contains_refl].
    cbn [comment_values]. apply elem_of_id3_values.
    exists own_key, [PROCESSED_MARKER].
    split; [apply lookup_insert_eq|apply list_elem_of_here].
  - assert (f ≠ NotAudio) as Hna by (intros ->; discriminate Hsup).
    destruct (dict_writer_comment easy_text meta f Hmp3 Hna Hogg)
      as (f' & Hw & Hmp3' & Hna' & Hogg' & Hwr & Hcv).
    exists f'. split; [exact Hw|]. split.
    + destruct f, f'; try done; cbn in Hwr, Hogg, Hw; rewrite ?Hogg in Hw;
        try discriminate Hw; congruence.
    + apply marker_value_carries. rewrite Hcv. case_bool_decide; [done|].
      apply elem_of_app. right. apply list_elem_of_here.
Qed.

(** X10: a file that [write_file_metadata] has written is recognized by
    [is_already_processed]: the stamp the writer leaves is the stamp
    the skip test looks for, in every supported container, whatever
    [EasyID3] makes of the texts.  The file is of the container its
    extension announces, and an Ogg file has at least one comment
    field (without one the Ogg writers fail, see [write_outcomes]). *)
Theorem written_file_is_processed
    (easy_text : string -> string -> option string)
    (path : string) (meta : TrackMetadata.t) (f : AudioFile) :
  supported path f = true ->
  ogg_without_fields f = false ->
  exists f',
    write_file_metadata easy_text path meta f = Ok f' /\
    file_metadata.is_already_processed path f' = true.
Proof.
  intros Hsup Hogg.
  destruct (write_supported easy_text path meta f Hsup Hogg)
    as (f' & Hw & Hsup' & Hc).
  exists f'. split; [exact Hw|].
  rewrite (processed_dispatch path f' Hsup'). by apply carries_has_marker.
Qed.

Lemma written_file_is_processed_witness :
  exists f',
    write_file_metadata plain_text "set.ogg" sample_track titled_opus = Ok f' /\
    file_metadata.is_already_processed "set.ogg" f' = true.
Proof.
  apply (written_file_is_processed plain_text "set.ogg" sample_track
           titled_opus); reflexivity.
Defined.

(** X11: the outcomes of [write_file_metadata].  It succeeds in two
    cases only: the file is of the container its extension announces
    (and, for an Ogg file, has at least one comment field), or the
    extension has no writer and the file is left as it was.  It fails
    in two ways: with the library's [MutagenError] for a file the
    chosen class cannot open, and with [AttributeError] for an Ogg
    file of the announced container that has no comment field. *)
Theorem write_outcomes (easy_text : string -> string -> option string)
    (path : string) (meta : TrackMetadata.t) (f : AudioFile) :
  (forall f', write_file_metadata easy_text path meta f = Ok f' ->
              (supported path f = true /\ ogg_without_fields f = false)
              \/ f' = f) /\
  (forall e, write_file_metadata easy_text path meta f = Raise e ->
             (e = MutagenError /\ supported path f = false) \/
             (e = AttributeError /\ supported path f = true /\
              ogg_without_fields f = true)) /\
  (supported path f = true -> ogg_without_fields f = true ->
   write_file_metadata easy_text path meta f = Raise AttributeError).
Proof.
  unfold write_file_metadata, supported, endswith.
  generalize (String.rev (lower path)). intros r.
  destruct r as [|a r]; cbn.
  { split; [intros f' [= <-]; by right|]. split; [intros e [=]|].
    by destruct f. }
  repeat match goal with
         | |- context [bool_decide (a = ?c)] =>
           destruct (decide (a = c)) as [->|N];
           [cbn|rewrite (bool_decide_eq_false_2 _ N); clear N]
         end;
    cbn;
    repeat match goal with
           | |- context [startswith r ?p] => destruct (startswith r p)
           end;
    cbn;
    (split; [intros f' H|split; [intros e H|intros H1 H2]]);
    destruct f as [? ?|t|t|t|t|]; cbn in *;
    try discriminate;
    try (destruct (bool_decide (t = ∅)); cbn in *);
    try discriminate;
    try (injection H as <-); auto.
Qed.

Lemma rev_cons (c : Ascii.ascii) (s : string) :
  String.rev (String c s) = String.rev s +:+ String c "".
Proof. unfold String.rev. cbn [String.rev_app]. apply rev_app_acc. Qed.

Lemma rev_involutive (s : string) : String.rev (String.rev s) = s.
Proof.
  induction s as [|c s IH]; [reflexivity|].
  rewrite rev_cons, rev_app_distr, IH. reflexivity.
Qed.

Lemma rev_basename_prefix (r : string) :
  exists rest, r = rev_basename r +:+ rest.
Proof.
  induction r as [|c r (rest & IH)]; [by exists ""|].
  cbn [rev_basename]. case_bool_decide.
  - by exists (String c r).
  - exists rest. rewrite str_app_cons. by rewrite <- IH.
Qed.

Lemma rev_split_dot_app (b : string) :
  forall e stem, rev_split_dot b = Some (e, stem) -> b = e +:+ stem.
Proof.
  induction b as [|c b IH]; intros e stem; [discriminate|].
  cbn [rev_split_dot]. case_bool_decide.
  - intros [= <- <-]. reflexivity.
  - destruct (rev_split_dot b) as [[e' stem']|]; [|discriminate].
    intros [= <- <-]. rewrite str_app_cons. by rewrite <- (IH e' stem').
Qed.

(** A path ends with the extension [os.path.splitext] finds in it. *)
Lemma splitext_rev (p e : string) :
  splitext_ext p = e -> e ≠ "" ->
  exists rest, String.rev p = String.rev e +:+ rest.
Proof.
  unfold splitext_ext. intros He Hne.
  destruct (rev_basename_prefix (String.rev p)) as (rest & Hp).
  destruct (rev_split_dot (rev_basename (String.rev p)))
    as [[e' stem]|] eqn:Hsplit; [|congruence].
  destruct (all_dots stem); [congruence|]. subst e.
  rewrite rev_involutive. exists (stem +:+ rest).
  rewrite Hp at 1. rewrite (rev_split_dot_app _ _ _ Hsplit).
  apply str_app_assoc.
Qed.

Lemma unwritten_no_writer (l : string) :
  splitext_ext l ∈ UNWRITTEN_EXTENSIONS ->
  endswith l ".mp3" = false /\ endswith l ".flac" = false /\
  endswith l ".m4a" = false /\ endswith l ".mp4" = false /\
  endswith l ".opus" = false /\ endswith l ".ogg" = false.
Proof.
  unfold UNWRITTEN_EXTENSIONS. rewrite !elem_of_cons, elem_of_nil.
  intros [H|[H|[H|[]]]];
    (destruct (splitext_rev l _ H) as (rest & Hrev); [discriminate|]);
    unfold endswith; rewrite Hrev; repeat split; reflexivity.
Qed.

(** X12: the extensions [.wav], [.aiff] and [.aif] are recognized by
    [is_audio_file] and so are listed for processing, but no reader or
    writer handles them: [write_file_metadata] returns without
    touching the file, [read_file_metadata] finds no tags, and
    [is_already_processed] answers [False] before and after the write,
    so such a file is never skipped as processed. *)
Theorem unwritten_audio_is_never_marked (py_str : pyitem -> string)
    (easy_text : string -> string -> option string) (path : string) (meta : TrackMetadata.t) (f : AudioFile) :
  splitext_ext (lower path) ∈ UNWRITTEN_EXTENSIONS ->
  is_audio_file path = true /\
  write_file_metadata easy_text path meta f = Ok f /\
  file_metadata.is_already_processed path f = false /\
  file_metadata.read_file_metadata py_str path (Some f) = None.
Proof.
  intros H. split.
  - unfold is_audio_file. apply bool_decide_eq_true.
    revert H. generalize (splitext_ext (lower path)). intros e.
    unfold UNWRITTEN_EXTENSIONS, AUDIO_EXTENSIONS.
    rewrite !elem_of_cons, !elem_of_nil. tauto.
  - destruct (unwritten_no_writer _ H) as (E1 & E2 & E3 & E4 & E5 & E6).
    unfold write_file_metadata, file_metadata.is_already_processed,
      file_metadata.read_file_metadata.
    rewrite E1, E2, E3, E4, E5, E6. repeat split.
Qed.

Lemma unwritten_audio_is_never_marked_witness :
  is_audio_file "Take One.WAV" = true /\
  write_file_metadata plain_text "Take One.WAV" sample_track NotAudio
    = Ok NotAudio /\
  file_metadata.is_already_processed "Take One.WAV" NotAudio = false /\
  file_metadata.read_file_metadata (fun _ => "") "Take One.WAV"
    (Some NotAudio) = None.
Proof.
  apply (unwritten_audio_is_never_marked (fun _ => "") plain_text
           "Take One.WAV" sample_track NotAudio).
  vm_compute. apply list_elem_of_here.
Defined.

Lemma read_dispatch (py_str : pyitem -> string) (path : string)
    (f : AudioFile) :
  supported path f = true ->
  file_metadata.read_file_metadata py_str path (Some f)
  = reader_of py_str f path f.
Proof.
  unfold supported, file_metadata.read_file_metadata, endswith.
  generalize (String.rev (lower path)). intros r H.
  destruct f; try discriminate H; cbn in H |- *;
    destruct r as [|a r]; try discriminate H; cbn in H |- *;
    repeat match type of H with
           | (_ || _) = true => apply orb_true_iff in H as [H|H]
           | (_ && _) = true => apply andb_true_iff in H as [Ha H]
           end;
    apply bool_decide_eq_true in Ha; subst a; cbn; rewrite ?H;
    try reflexivity;
    by destruct (file_metadata.from_vorbis_comment _ _ _).
Qed.

Lemma or_empty_Some (s : string) : or_empty (Some s) = s.
Proof.
  unfold or_empty, truthy. case_bool_decide; [done|]. reflexivity.
Qed.

Lemma from_fields_written (path tr ar al g : string)
    (aa d : option string) :
  existsb truthy [tr; ar; al; g] = true ->
  file_metadata.from_fields path (Some tr) (Some ar) (Some al) aa (Some g) d
  = Some (TrackMetadata.mk path tr ar
            (AlbumMetadata.mk al (or_empty (opt_or aa (Some ar)))) g d).
Proof.
  intros H. unfold file_metadata.from_fields.
  assert (existsb truthy_opt [Some tr; Some ar; Some al; Some g; d] = true)
    as ->.
  { cbn in H |- *. rewrite !orb_true_iff in *. tauto. }
  cbn [negb]. rewrite !or_empty_Some. reflexivity.
Qed.

Lemma from_fields_Some (path : string)
    (title artist album albumartist genre date : option string)
    (r : TrackMetadata.t) :
  file_metadata.from_fields path title artist album albumartist genre date
  = Some r ->
  TrackMetadata.key r = path /\ TrackMetadata.date r = date /\
  (has_text r || truthy_opt (TrackMetadata.date r) = true).
Proof.
  unfold file_metadata.from_fields, has_text.
  destruct (existsb truthy_opt _) eqn:E; [|discriminate].
  cbn [negb]. intros [= <-]. cbn. split; [done|]. split; [done|].
  cbn in E. rewrite !orb_true_iff in *.
  assert (Ht : forall o, truthy_opt o = true -> truthy (or_empty o) = true).
  { intros [s|]; [|discriminate]. cbn. intros Hs. by rewrite Hs. }
  destruct E as [E|[E|[E|[E|[E|E]]]]]; [..|discriminate]; auto 10.
Qed.

Lemma set_fields_lookup {V} (str : string -> V)
    (title artist album albumartist genre date : string)
    (meta : TrackMetadata.t) (t : gmap string V) :
  NoDup [title; artist; album; albumartist; genre; date] ->
  let t' := set_fields str title artist album albumartist genre date meta t in
  t' !! title = Some (str (TrackMetadata.track meta)) /\
  t' !! artist = Some (str (TrackMetadata.artist meta)) /\
  t' !! album
    = Some (str (AlbumMetadata.name (TrackMetadata.album meta))) /\
  t' !! albumartist
    = Some (str (AlbumMetadata.artist (TrackMetadata.album meta))) /\
  t' !! genre = Some (str (TrackMetadata.genre meta)) /\
  t' !! date = (if truthy_opt (TrackMetadata.date meta)
                then Some (str (default "" (TrackMetadata.date meta)))
                else t !! date) /\
  forall k, k ∉ [title; artist; album; albumartist; genre; date] ->
            t' !! k = t !! k.
Proof.
  intros Hnd.
  repeat match goal with
         | H : NoDup (_ :: _) |- _ => apply NoDup_cons in H as [? H]
         end.
  repeat match goal with
         | H : _ ∉ _ :: _ |- _ => apply not_elem_of_cons in H as [? H]
         end.
  cbn zeta. unfold set_fields.
  destruct (truthy_opt (TrackMetadata.date meta));
    repeat split; try (intros k Hk;
      repeat match goal with
             | H : _ ∉ _ :: _ |- _ => apply not_elem_of_cons in H as [? H]
             end);
    simplify_map_eq; reflexivity.
Qed.

Lemma safe_first_easy (py_str : pyitem -> string)
    (easy : gmap string string) (k : string) :
  file_metadata._safe_first py_str (file_metadata.easy_get easy k) = easy !! k.
Proof. unfold file_metadata.easy_get. by destruct (easy !! k). Qed.

Lemma truthy_date (d : option string) :
  truthy_opt d = true -> Some (default "" d) = d.
Proof. by destruct d. Qed.

(** The fields a reader fetches from a dictionary the writer wrote. *)
Lemma dict_written_fields (py_str : pyitem -> string)
    (title artist album albumartist genre date comment : string)
    (meta : TrackMetadata.t) (t : tags) :
  NoDup [comment; title; artist; album; albumartist; genre; date] ->
  let t' := write_dict title artist album albumartist genre date comment
              meta t in
  let get := fun k => file_metadata._safe_first py_str (tag_get t' k) in
  get title = Some (TrackMetadata.track meta) /\
  get artist = Some (TrackMetadata.artist meta) /\
  get album = Some (AlbumMetadata.name (TrackMetadata.album meta)) /\
  get albumartist = Some (AlbumMetadata.artist (TrackMetadata.album meta)) /\
  get genre = Some (TrackMetadata.genre meta) /\
  get date = (if truthy_opt (TrackMetadata.date meta)
              then TrackMetadata.date meta
              else file_metadata._safe_first py_str (tag_get t date)).
Proof.
  intros Hnd. apply NoDup_cons in Hnd as [Hc Hnd].
  destruct (set_fields_lookup OStr title artist album albumartist genre date
              meta t Hnd) as (H1 & H2 & H3 & H4 & H5 & H6 & _).
  repeat (apply not_elem_of_cons in Hc as [? Hc]).
  cbn beta zeta. unfold write_dict, tag_get.
  rewrite !lookup_insert_ne by done.
  rewrite H1, H2, H3, H4, H5, H6. repeat split.
  destruct (truthy_opt (TrackMetadata.date meta)) eqn:E; [|reflexivity].
  cbn. by apply truthy_date.
Qed.

Lemma std_keys_NoDup :
  NoDup ["comment"; "title"; "artist"; "album"; "albumartist"; "genre";
         "date"].
Proof. apply (bool_decide_eq_true_1 _). reflexivity. Qed.

Lemma mp4_keys_NoDup :
  NoDup [atom "cmt"; atom "nam"; atom "ART"; atom "alb"; "aART"; atom "gen";
         atom "day"].
Proof. apply (bool_decide_eq_true_1 _). reflexivity. Qed.

(** The album artist a reader answers with for a written record. *)
Lemma album_artist_read (aa ar : string) (ogg : bool) :
  or_empty (opt_or (if ogg then Some aa else None) (Some ar))
  = if ogg && truthy aa then aa else ar.
Proof.
  destruct ogg; cbn; [|apply or_empty_Some].
  unfold opt_or. cbn. destruct (truthy aa); apply or_empty_Some.
Qed.

Lemma dict_roundtrip (py_str : pyitem -> string) (path : string)
    (title artist album albumartist genre date comment : string)
    (meta : TrackMetadata.t) (t : tags) (ogg : bool) :
  NoDup [comment; title; artist; album; albumartist; genre; date] ->
  has_text meta = true ->
  let t' := write_dict title artist album albumartist genre date comment
              meta t in
  let get := fun k => file_metadata._safe_first py_str (tag_get t' k) in
  file_metadata.from_fields path (get title) (get artist) (get album)
    (if ogg then get albumartist else None) (get genre) (get date)
  = Some (TrackMetadata.mk path (TrackMetadata.track meta)
            (TrackMetadata.artist meta)
            (AlbumMetadata.mk (AlbumMetadata.name (TrackMetadata.album meta))
               (if ogg && truthy (AlbumMetadata.artist (TrackMetadata.album meta))
                then AlbumMetadata.artist (TrackMetadata.album meta)
                else TrackMetadata.artist meta))
            (TrackMetadata.genre meta)
            (if truthy_opt (TrackMetadata.date meta)
             then TrackMetadata.date meta
             else file_metadata._safe_first py_str (tag_get t date))).
Proof.
  intros Hnd Htext.
  destruct (dict_written_fields py_str title artist album albumartist genre
              date comment meta t Hnd) as (H1 & H2 & H3 & H4 & H5 & H6).
  cbn beta zeta in *. rewrite H1, H2, H3, H4, H5, H6.
  replace (if ogg then Some (AlbumMetadata.artist (TrackMetadata.album meta))
           else None)
    with (if ogg then Some (AlbumMetadata.artist (TrackMetadata.album meta))
          else @None string) by reflexivity.
  rewrite from_fields_written by exact Htext.
  rewrite album_artist_read. reflexivity.
Qed.

Lemma lookup_easy_set (easy_text : string -> string -> option string)
    (name v : string) (easy : gmap string string) (k : string) :
  easy_set easy_text name v easy !! k
  = if bool_decide (k = name) then easy_text name v else easy !! k.
Proof.
  unfold easy_set. destruct (easy_text name v); case_bool_decide;
    simplify_map_eq; reflexivity.
Qed.

Lemma truthy_or_empty (o : option string) :
  truthy (or_empty o) = truthy_opt o.
Proof. destruct o as [s|]; [|reflexivity]. cbn. by destruct (truthy s) eqn:E. Qed.

(** The fields the MP3 reader fetches from a file the writer wrote. *)
Lemma mp3_written_fields (easy_text : string -> string -> option string)
    (meta : TrackMetadata.t) (easy : gmap string string) (id3 : ID3) :
  exists easy' id3',
    _write_mp3 easy_text meta (Mp3 easy id3) = Ok (Mp3 easy' id3') /\
    easy' !! "title" = easy_text "title" (TrackMetadata.track meta) /\
    easy' !! "artist" = easy_text "artist" (TrackMetadata.artist meta) /\
    easy' !! "album"
      = easy_text "album" (AlbumMetadata.name (TrackMetadata.album meta)) /\
    easy' !! "genre" = easy_text "genre" (TrackMetadata.genre meta) /\
    easy' !! "date"
      = (if truthy_opt (TrackMetadata.date meta)
         then easy_text "date" (default "" (TrackMetadata.date meta))
         else easy !! "date") /\
    easy' !! "originaldate" = easy !! "originaldate".
Proof.
  eexists. eexists. split; [reflexivity|].
  destruct (truthy_opt (TrackMetadata.date meta));
    rewrite !lookup_easy_set; cbn; repeat split.
Qed.

(** X13: reading back what was written.  After [write_file_metadata]
    on a file of the container its extension announces (an Ogg file
    with at least one comment field), [read_file_metadata] returns a
    record with the path as its key and, as title, artist, album name
    and genre, the texts the file keeps of the written ones, provided
    one of them is not empty: the written texts themselves in the FLAC,
    MP4 and Ogg containers, what [EasyID3] makes of them in an MP3.  The
    album artist comes back only from the two Ogg containers; the MP3,
    FLAC and MP4 readers answer with the track artist in its place.  A
    record with a date gives back the date the file keeps of it; a
    record without one leaves the date of the file as it was. *)
Theorem write_then_read (py_str : pyitem -> string)
    (easy_text : string -> string -> option string) (path : string)
    (meta : TrackMetadata.t) (f : AudioFile) :
  supported path f = true ->
  ogg_without_fields f = false ->
  has_text (as_saved easy_text f meta) = true ->
  exists f' r,
    write_file_metadata easy_text path meta f = Ok f' /\
    file_metadata.read_file_metadata py_str path (Some f') = Some r /\
    TrackMetadata.key r = path /\
    TrackMetadata.track r = TrackMetadata.track (as_saved easy_text f meta) /\
    TrackMetadata.artist r
      = TrackMetadata.artist (as_saved easy_text f meta) /\
    AlbumMetadata.name (TrackMetadata.album r)
      = AlbumMetadata.name (TrackMetadata.album (as_saved easy_text f meta)) /\
    TrackMetadata.genre r = TrackMetadata.genre (as_saved easy_text f meta) /\
    AlbumMetadata.artist (TrackMetadata.album r)
      = (if is_ogg f
            && truthy (AlbumMetadata.artist (TrackMetadata.album meta))
         then AlbumMetadata.artist (TrackMetadata.album meta)
         else TrackMetadata.artist (as_saved easy_text f meta)) /\
    (truthy_opt (TrackMetadata.date meta) = true ->
     TrackMetadata.date r = saved_date easy_text f meta) /\
    (truthy_opt (TrackMetadata.date meta) = false ->
     forall r0,
       file_metadata.read_file_metadata py_str path (Some f) = Some r0 ->
       TrackMetadata.date r = TrackMetadata.date r0).
Proof.
  intros Hsup Hogg Htext.
  rewrite (write_dispatch easy_text path meta f Hsup).
  rewrite (read_dispatch py_str path f Hsup).
  destruct f as [easy id3|t|t|t|t|]; try discriminate Hsup;
    cbn [as_saved is_mp3] in *.
  - cbn [writer_of].
    destruct (mp3_written_fields easy_text meta easy id3)
      as (easy' & id3' & -> & H1 & H2 & H3 & H5 & H6 & H7).
    eexists. eexists. split; [reflexivity|].
    assert (Hsup' : supported path (Mp3 easy' id3') = true) by exact Hsup.
    rewrite (read_dispatch py_str path _ Hsup').
    cbn [reader_of file_metadata._from_mp3]. rewrite !safe_first_easy.
    rewrite H1, H2, H3, H5, H6, H7.
    unfold file_metadata.from_fields.
    assert (forall d, existsb truthy_opt
              [easy_text "title" (TrackMetadata.track meta);
               easy_text "artist" (TrackMetadata.artist meta);
               easy_text "album"
                 (AlbumMetadata.name (TrackMetadata.album meta));
               easy_text "genre" (TrackMetadata.genre meta); d] = true)
      as ->.
    { intros d. unfold has_text in Htext. cbn in Htext |- *.
      rewrite !truthy_or_empty in Htext.
      rewrite !orb_true_iff in *. tauto. }
    cbn [negb]. split; [reflexivity|]. cbn -[or_empty opt_or truthy_opt].
    do 6 (split; [reflexivity|]). split.
    + intros Hd. by rewrite Hd.
    + intros Hd r0 Hr0. rewrite Hd.
      apply from_fields_Some in Hr0 as (_ & -> & _). reflexivity.
  - cbn [writer_of _write_flac]. eexists. eexists. split; [reflexivity|].
    split.
    { rewrite read_dispatch by exact Hsup.
      cbn [reader_of file_metadata._from_flac].
      apply (dict_roundtrip py_str path "title" "artist" "album"
               "albumartist" "genre" "date" "comment" meta t false
               std_keys_NoDup Htext). }
    cbn. repeat split.
    + by intros ->.
    + intros -> r0 Hr0.
      apply from_fields_Some in Hr0 as (_ & -> & _). reflexivity.
  - cbn [writer_of _write_mp4]. eexists. eexists. split; [reflexivity|].
    split.
    { rewrite read_dispatch by exact Hsup.
      cbn [reader_of file_metadata._from_mp4].
      apply (dict_roundtrip py_str path (atom "nam") (atom "ART")
               (atom "alb") "aART" (atom "gen") (atom "day") (atom "cmt")
               meta t false mp4_keys_NoDup Htext). }
    cbn. repeat split.
    + by intros ->.
    + intros -> r0 Hr0.
      apply from_fields_Some in Hr0 as (_ & -> & _). reflexivity.
  - cbn in Hogg. cbn [writer_of _write_ogg_opus]. rewrite Hogg.
    eexists. eexists. split; [reflexivity|]. split.
    { rewrite read_dispatch by exact Hsup.
      cbn [reader_of file_metadata._from_ogg_opus
           file_metadata.from_vorbis_comment].
      apply (dict_roundtrip py_str path "title" "artist" "album"
               "albumartist" "genre" "date" "comment" meta t true
               std_keys_NoDup Htext). }
    cbn. repeat split.
    + by intros ->.
    + intros -> r0 Hr0.
      apply from_fields_Some in Hr0 as (_ & -> & _). reflexivity.
  - cbn in Hogg. cbn [writer_of _write_ogg_vorbis]. rewrite Hogg.
    eexists. eexists. split; [reflexivity|]. split.
    { rewrite read_dispatch by exact Hsup.
      cbn [reader_of file_metadata._from_ogg_vorbis
           file_metadata.from_vorbis_comment].
      apply (dict_roundtrip py_str path "title" "artist" "album"
               "albumartist" "genre" "date" "comment" meta t true
               std_keys_NoDup Htext). }
    cbn. repeat split.
    + by intros ->.
    + intros -> r0 Hr0.
      apply from_fields_Some in Hr0 as (_ & -> & _). reflexivity.
Qed.

(** The record with the numbered genre written into the MP3 that had a
    date: the genre read back is the name [EasyID3] gives the number,
    the album artist is the track artist, and the date is gone. *)
Lemma write_then_read_witness :
  exists f' r,
    write_file_metadata numbered_genre_text "live.mp3" numbered_track
      dated_mp3 = Ok f' /\
    file_metadata.read_file_metadata (fun _ => "") "live.mp3" (Some f')
      = Some r /\
    TrackMetadata.key r = "live.mp3" /\
    TrackMetadata.track r = "Opening" /\
    TrackMetadata.artist r = "Some DJ" /\
    AlbumMetadata.name (TrackMetadata.album r) = "Festival 2022" /\
    TrackMetadata.genre r = "Rock" /\
    AlbumMetadata.artist (TrackMetadata.album r) = "Some DJ" /\
    (truthy_opt (TrackMetadata.date numbered_track) = true ->
     TrackMetadata.date r = None) /\
    (truthy_opt (TrackMetadata.date numbered_track) = false ->
     forall r0,
       file_metadata.read_file_metadata (fun _ => "") "live.mp3"
         (Some dated_mp3) = Some r0 ->
       TrackMetadata.date r = TrackMetadata.date r0).
Proof.
  apply (write_then_read (fun _ => "") numbered_genre_text "live.mp3"
           numbered_track dated_mp3); reflexivity.
Defined.

(** X14: what [read_file_metadata] answers with.  A record is returned
    only for a file that exists and is of the container its extension
    announces; its key is the path it was read from, and at least one of
    title, artist, album, genre and date is not empty. *)
Theorem read_answers (py_str : pyitem -> string) (path : string)
    (file : option AudioFile) (r : TrackMetadata.t) :
  file_metadata.read_file_metadata py_str path file = Some r ->
  TrackMetadata.key r = path /\
  (has_text r || truthy_opt (TrackMetadata.date r) = true) /\
  exists f, file = Some f /\ supported path f = true.
Proof.
  destruct file as [f|]; [|discriminate]. intros H.
  assert (Hsup : supported path f = true).
  { revert H. unfold file_metadata.read_file_metadata, supported, endswith.
    generalize (String.rev (lower path)). intros l.
    destruct l as [|a l]; cbn; [discriminate|].
    repeat match goal with
           | |- context [bool_decide (a = ?c)] =>
             destruct (decide (a = c)) as [->|N];
             [cbn|rewrite (bool_decide_eq_false_2 _ N); clear N]
           end;
      cbn;
      repeat match goal with
             | |- context [startswith l ?p] => destruct (startswith l p)
             end;
      cbn; destruct f; cbn; try discriminate; done. }
  rewrite (read_dispatch py_str path f Hsup) in H.
  assert (Hr : TrackMetadata.key r = path /\
               (has_text r || truthy_opt (TrackMetadata.date r) = true)).
  { destruct f; cbn in H; try discriminate H;
      apply from_fields_Some in H as (? & ? & ?); done. }
  destruct Hr as [Hk Ht]. split; [exact Hk|]. split; [exact Ht|].
  by exists f.
Qed.

Lemma read_answers_witness :
  TrackMetadata.key (TrackMetadata.mk "old.flac" "" "" (AlbumMetadata.mk "" "")
                       "" (Some "1999")) = "old.flac" /\
  (has_text (TrackMetadata.mk "old.flac" "" "" (AlbumMetadata.mk "" "") ""
               (Some "1999"))
   || truthy_opt (Some "1999") = true) /\
  exists f, Some dated_flac = Some f /\ supported "old.flac" f = true.
Proof.
  apply (read_answers (fun _ => "") "old.flac" (Some dated_flac)).
  reflexivity.
Defined.

(** ** Recognizing audio files *)

Lemma lower_app (a b : string) : lower (a +:+ b) = lower a +:+ lower b.
Proof.
  induction a as [|c a IH]; [reflexivity|].
  rewrite str_app_cons. cbn [lower]. rewrite str_app_cons, IH. reflexivity.
Qed.

Lemma str_app_nil_l (s : string) : "" +:+ s = s.
Proof. reflexivity. Qed.

Lemma rev_basename_cons (c : Ascii.ascii) (r : string) :
  c ≠ sep -> rev_basename (String c r) = String c (rev_basename r).
Proof. intros H. cbn [rev_basename]. by rewrite bool_decide_eq_false_2. Qed.

Lemma rev_split_dot_cons (c : Ascii.ascii) (r : string) :
  c ≠ extsep ->
  rev_split_dot (String c r)
  = match rev_split_dot r with
    | Some (e, stem) => Some (String c e, stem)
    | None => None
    end.
Proof. intros H. cbn [rev_split_dot]. by rewrite bool_decide_eq_false_2. Qed.

Lemma rev_split_dot_dot (c : Ascii.ascii) (r : string) :
  c = extsep -> rev_split_dot (String c r) = Some (String c "", r).
Proof. intros H. cbn [rev_split_dot]. by rewrite bool_decide_eq_true_2. Qed.

(** X15: [is_audio_file] looks at the extension only, in any letter
    case and under any directory: a path [stem + ext] whose extension
    is one of the nine recognized ones, however capitalized, is an
    audio file exactly when a name precedes the extension in its last
    component; a bare [.mp3], or [dir/.FLAC], is not one. *)
Theorem audio_extension_any_case (stem ext : string) :
  lower ext ∈ AUDIO_EXTENSIONS ->
  is_audio_file (stem +:+ ext) = negb (bare_name (lower stem)).
Proof.
  intros Hin. unfold is_audio_file, bare_name, splitext_ext.
  rewrite lower_app, rev_app_distr.
  generalize dependent (lower ext). intros e Hin.
  generalize (String.rev (lower stem)). intros R.
  unfold AUDIO_EXTENSIONS in Hin. rewrite !elem_of_cons, elem_of_nil in Hin.
  repeat (destruct Hin as [->|Hin]; [|]); try done;
    cbn [String.rev String.rev_app]; rewrite !str_app_cons, str_app_nil_l;
    rewrite !rev_basename_cons by (vm_compute; intros [=]);
    rewrite !rev_split_dot_cons by (vm_compute; intros [=]);
    rewrite rev_split_dot_dot by reflexivity;
    destruct (all_dots (rev_basename R)); reflexivity.
Qed.

Lemma audio_extension_any_case_witness :
  is_audio_file ("Live Sets/Opening Night" +:+ ".FLAC")
  = negb (bare_name (lower "Live Sets/Opening Night")).
Proof.
  apply (audio_extension_any_case "Live Sets/Opening Night" ".FLAC").
  vm_compute. do 1 apply list_elem_of_further. apply list_elem_of_here.
Defined.

(** ** The configuration *)

Lemma pull_without_repo_run (env : Env) (w : World) :
  truthy_opt (config w !! "sync_repo") = false ->
  pull_metadata env w = (Ok false, w).
Proof.
  intros H. unfold pull_metadata. rewrite bind_run, get_sync_repo_run.
  rewrite H. reflexivity.
Qed.

Lemma push_without_repo_run (env : Env) (w : World) :
  truthy_opt (config w !! "sync_repo") = false ->
  push_metadata env w = (Ok false, w).
Proof.
  intros H. unfold push_metadata. rewrite bind_run, get_sync_repo_run.
  rewrite H. reflexivity.
Qed.

(** X16: [set_sync_repo(url)] stores the address under [sync_repo] and
    touches nothing else: [get_sync_repo()] then returns it, the other
    keys of the configuration, the tables and the clone are as before.
    Storing the empty string switches the synchronization off: pull and
    push then return [False] and do nothing. *)
Theorem set_sync_repo_then_get (repo_url : string) (w : World) :
  exists w',
    set_sync_repo repo_url w = (Ok tt, w') /\
    get_sync_repo w' = (Ok (Some repo_url), w') /\
    store w' = store w /\ clone w' = clone w /\ log w' = log w /\
    (forall k, k ≠ "sync_repo" -> config w' !! k = config w !! k) /\
    (repo_url = "" ->
     forall env, pull_metadata env w' = (Ok false, w') /\
                 push_metadata env w' = (Ok false, w')).
Proof.
  eexists. split; [reflexivity|]. cbn.
  split; [|split; [by destruct w as [[] ? ? ?]|split; [done|split; [done|split]]]].
  - rewrite get_sync_repo_run. cbn. by rewrite lookup_insert_eq.
  - intros k Hk. by rewrite lookup_insert_ne.
  - intros -> env. split.
    + apply pull_without_repo_run. cbn. by rewrite lookup_insert_eq.
    + apply push_without_repo_run. cbn. by rewrite lookup_insert_eq.
Qed.

(** ** The album selector of the confirmation form *)

(** X17: the options [_build_album_options] offers.  The default value
    is always the value of one of the options; every known album is
    offered under its name, and the entry for creating an album comes
    last.  The default is the album of the proposed record whenever it
    has a name, known or not, and otherwise the first known album, or
    the entry for creating one when no album is known. *)
Theorem album_options_default_is_offered (initial : TrackMetadata.t)
    (albums : list AlbumMetadata.t) :
  let options := fst (ui_confirm._build_album_options initial albums) in
  let default_value := snd (ui_confirm._build_album_options initial albums) in
  let initial_name := AlbumMetadata.name (TrackMetadata.album initial) in
  default_value ∈ snd <$> options /\
  last options = Some ("Create new...", "__create__") /\
  (forall a, a ∈ albums -> AlbumMetadata.name a ∈ snd <$> options) /\
  (initial_name ≠ "" -> default_value = initial_name) /\
  (initial_name = "" ->
   default_value = match albums with
                   | a :: _ => AlbumMetadata.name a
                   | [] => "__create__"
                   end).
Proof.
  cbn zeta. unfold ui_confirm._build_album_options.
  set (n := AlbumMetadata.name (TrackMetadata.album initial)).
  set (known := (fun a => (ui_confirm.album_label (AlbumMetadata.name a)
                             (AlbumMetadata.artist a),
                           AlbumMetadata.name a)) <$> albums).
  set (opts := (known ++ [("Create new...", "__create__")])%list).
  set (lbl := if truthy _ then _ else _).
  assert (Hlast : last opts = Some ("Create new...", "__create__"))
    by apply last_snoc.
  assert (Hknown : forall a, a ∈ albums -> AlbumMetadata.name a ∈ snd <$> opts).
  { intros a Ha. unfold opts, known. rewrite fmap_app, elem_of_app. left.
    rewrite <- list_fmap_compose. apply list_elem_of_fmap. by exists a. }
  assert (Hhead : match snd <$> opts with
                  | v :: _ => v
                  | [] => "__create__"
                  end = match albums with
                        | a :: _ => AlbumMetadata.name a
                        | [] => "__create__"
                        end)
    by (unfold opts, known; by destruct albums).
  unfold or_None, truthy.
  destruct (decide (n = "")) as [Hn|Hn].
  - rewrite (bool_decide_eq_true_2 _ Hn). cbn [negb andb truthy_opt fst snd].
    split; [|split; [exact Hlast|split; [exact Hknown|split; [done|]]]].
    + rewrite Hhead. destruct albums as [|a l]; [|apply Hknown; by left].
      apply list_elem_of_here.
    + intros _. exact Hhead.
  - rewrite (bool_decide_eq_false_2 _ Hn). cbn [negb andb truthy_opt].
    unfold truthy. rewrite (bool_decide_eq_false_2 _ Hn).
    cbn [negb andb default from_option id].
    destruct (decide (n ∈ snd <$> opts)) as [Hin|Hin].
    + rewrite (bool_decide_eq_true_2 _ Hin). cbn [negb fst snd].
      rewrite (bool_decide_eq_true_2 _ Hin).
      split; [exact Hin|split; [exact Hlast|split; [exact Hknown|done]]].
    + rewrite (bool_decide_eq_false_2 _ Hin). cbn [negb fst snd].
      rewrite bool_decide_eq_true_2 by apply list_elem_of_here.
      split; [apply list_elem_of_here|].
      split; [by rewrite last_cons, Hlast|].
      split; [intros a Ha; apply list_elem_of_further; by apply Hknown|done].
Qed.

(** ** The sync manager *)

Lemma logged_nil (w : World) : logged w [] = w.
Proof. destruct w. unfold logged. cbn. by rewrite app_nil_r. Qed.

Lemma logged_logged (w : World) (a b : list Event) :
  logged (logged w a) b = logged w (a ++ b).
Proof. unfold logged. cbn. by rewrite app_assoc. Qed.

Lemma run_git_run (env : Env) (args : list string) (cwd : string)
    (check : bool) (w : World) :
  _run_git env args cwd check w =
  (let r := fst (subprocess_run env ("git" :: args) (Some cwd)
                   (files (store w))) in
   if check && negb (bool_decide (returncode r = 0%Z))
   then Raise CalledProcessError else Ok r,
   logged (with_files w (snd (subprocess_run env ("git" :: args) (Some cwd)
                                (files (store w)))))
     [EvSubprocess ("git" :: args) (Some cwd)]).
Proof.
  unfold _run_git, run, spawn, emit, raise.
  rewrite !bind_run. cbn.
  destruct (subprocess_run env _ _ _) as [r fs]. cbn.
  destruct (check && _); reflexivity.
Qed.

Lemma copy_if_exists_run (src dst : string) (w : World) :
  copy_if_exists src dst w =
  (Ok tt,
   match files (store w) !! src with
   | Some content =>
     logged (with_files w (<[dst := content]> (files (store w))))
       [EvCopy src dst]
   | None => w
   end).
Proof.
  unfold copy_if_exists, get_state, emit, modify. rewrite bind_run.
  destruct (files (store w) !! src); reflexivity.
Qed.

Lemma set_store_id (w : World) : set_store (fun _ => store w) w = w.
Proof. by destruct w. Qed.

Lemma ensure_cloned_run (env : Env) (repo_url : string) (w : World) :
  clone w = GitRepo ->
  _ensure_repo_cloned env repo_url w = (Ok (repo_dir_of w), w).
Proof.
  intros H. unfold _ensure_repo_cloned, get_git_repo_dir, lift_store,
    get_or_create_config_dir, get_state.
  rewrite !bind_run. cbn. rewrite set_store_id, bind_run. cbn.
  rewrite H. reflexivity.
Qed.

Lemma with_repo_lock_run {A} (env : Env) (body : M World A) (w : World) :
  lock_free env = true ->
  with_repo_lock env body w =
  (fst (body (logged w [EvLockAcquire])),
   logged (snd (body (logged w [EvLockAcquire]))) [EvLockRelease]).
Proof.
  intros H. unfold with_repo_lock. rewrite H. cbn.
  by destruct (body _).
Qed.

(** X18: a lock that stays held.  With a repository configured and the
    lock not to be had, [pull_metadata] and [push_metadata] raise the
    lock's [Timeout] and leave everything as it was, and a [process]
    run with sync enabled ends with that exception before any file is
    listed or processed. *)
Theorem held_lock_stops_sync (env : Env) (args : Namespace) (w : World)
    (p : string) :
  lock_free env = false ->
  truthy_opt (config w !! "sync_repo") = true ->
  no_sync args = false ->
  validate_api_key env = Ok tt ->
  validate_path env (default "." (opt_or (path args) (Some "."))) = Ok p ->
  pull_metadata env w = (Raise Timeout, w) /\
  push_metadata env w = (Raise Timeout, w) /\
  cmd_process env args w = (Raise Timeout, w).
Proof.
  intros Hlock Hrepo Hsync Hkey Hpath.
  assert (Hpull : pull_metadata env w = (Raise Timeout, w)).
  { unfold pull_metadata. rewrite bind_run, get_sync_repo_run, Hrepo.
    unfold with_repo_lock. by rewrite Hlock. }
  split; [exact Hpull|]. split.
  - unfold push_metadata. rewrite bind_run, get_sync_repo_run, Hrepo.
    unfold with_repo_lock. by rewrite Hlock.
  - unfold cmd_process. rewrite Hkey, Hpath, Hsync.
    rewrite bind_run.
    assert ((if negb (dry_run args) then lift_result (Ok tt) else mret tt) w
            = (Ok tt, w)) as -> by (by destruct (dry_run args)).
    rewrite bind_run. unfold lift_result at 1. cbn [negb].
    rewrite !bind_run, Hpull. reflexivity.
Qed.

Lemma held_lock_stops_sync_witness :
  pull_metadata locked_env synced_world = (Raise Timeout, synced_world) /\
  push_metadata locked_env synced_world = (Raise Timeout, synced_world) /\
  cmd_process locked_env process_args synced_world
    = (Raise Timeout, synced_world).
Proof.
  apply (held_lock_stops_sync locked_env process_args synced_world "/music");
    reflexivity.
Defined.

Lemma git_commands_app (a b : list Event) :
  git_commands (a ++ b) = (git_commands a ++ git_commands b)%list.
Proof. apply omap_app. Qed.

Lemma sync_step_trans (w w1 w2 : World) (fs1 fs2 : gmap string (list row))
    (c1 c2 : list (list string)) :
  sync_step w w1 fs1 c1 -> sync_step w1 w2 fs2 c2 ->
  sync_step w w2 fs2 (c1 ++ c2).
Proof.
  intros (_ & Hd1 & Hc1 & Hg1 & Hl1 & e1 & He1 & Hm1)
         (Hf2 & Hd2 & Hc2 & Hg2 & Hl2 & e2 & He2 & Hm2).
  repeat split; try congruence.
  exists (e1 ++ e2)%list.
  rewrite He2, He1, app_assoc, git_commands_app, Hm1, Hm2. done.
Qed.

Lemma sync_step_logged (w : World) (evs : list Event) :
  sync_step w (logged w evs) (files (store w)) (git_commands evs).
Proof. repeat split. by exists evs. Qed.

Lemma sync_step_copy (src dst : string) (w : World) :
  copy_if_exists src dst w = (Ok tt, snd (copy_if_exists src dst w)) /\
  sync_step w (snd (copy_if_exists src dst w))
    (copied src dst (files (store w))) [].
Proof.
  rewrite copy_if_exists_run. unfold copied. cbn [snd].
  split; [reflexivity|].
  destruct (files (store w) !! src).
  - repeat split. by eexists.
  - repeat split. exists []. by rewrite app_nil_r.
Qed.

Lemma sync_step_git (env : Env) (args : list string) (cwd : string)
    (check : bool) (w : World) :
  sync_step w (snd (_run_git env args cwd check w))
    (snd (subprocess_run env ("git" :: args) (Some cwd) (files (store w))))
    [args].
Proof. rewrite run_git_run. repeat split. by eexists. Qed.

Lemma run_git_result (env : Env) (args : list string) (cwd : string)
    (check : bool) (w : World) :
  _run_git env args cwd check w =
  (let r := fst (subprocess_run env ("git" :: args) (Some cwd)
                   (files (store w))) in
   if check && negb (bool_decide (returncode r = 0%Z))
   then Raise CalledProcessError else Ok r,
   snd (_run_git env args cwd check w)).
Proof. rewrite run_git_run. reflexivity. Qed.

Lemma sync_step_drop (w w' : World) (fs : gmap string (list row))
    (cmds : list (list string)) :
  sync_step w w' fs cmds ->
  git_commands (drop (length (log w)) (log w')) = cmds.
Proof.
  intros (_ & _ & _ & _ & _ & evs & -> & <-). by rewrite drop_app_length.
Qed.

Lemma copied_lookup (src dst k : string) (fs : gmap string (list row)) :
  copied src dst fs !! k
  = if bool_decide (k = dst)
    then match fs !! src with
         | Some content => Some content
         | None => fs !! dst
         end
    else fs !! k.
Proof.
  unfold copied. case_bool_decide as Hk.
  - subst k. destruct (fs !! src); [apply lookup_insert_eq|done].
  - destruct (fs !! src); [by apply lookup_insert_ne|done].
Qed.

Lemma sync_to_repo_run (filename repo_dir : string) (w : World) :
  _sync_file_to_repo filename repo_dir w
  = copy_if_exists (path_div (config_dir (store w)) filename)
      (path_div repo_dir filename) w.
Proof.
  unfold _sync_file_to_repo, lift_store, get_or_create_config_dir.
  rewrite bind_run. cbn. by rewrite set_store_id.
Qed.

Lemma sync_from_repo_run (filename repo_dir : string) (w : World) :
  _sync_file_from_repo filename repo_dir w
  = copy_if_exists (path_div repo_dir filename)
      (path_div (config_dir (store w)) filename) w.
Proof.
  unfold _sync_file_from_repo, lift_store, get_or_create_config_dir.
  rewrite bind_run. cbn. by rewrite set_store_id.
Qed.

Lemma path_div_inj (d a b : string) : path_div d a = path_div d b -> a = b.
Proof.
  unfold path_div. intros H. apply str_app_inj in H. by injection H.
Qed.

Lemma repo_path_not_table (d a b : string) :
  b ∈ TABLES -> path_div (path_div d "metadata-repo") a ≠ path_div d b.
Proof.
  unfold TABLES, path_div. rewrite !elem_of_cons, elem_of_nil.
  rewrite str_app_assoc.
  intros [->|[->|[]]] H; apply str_app_inj in H; discriminate H.
Qed.

(** The body of [pull_metadata] under the lock, on a cloned
    repository. *)
Lemma pull_body_run (env : Env) (repo_url : string) (w : World) :
  clone w = GitRepo ->
  exists w',
    (repo_dir ← _ensure_repo_cloned env repo_url;
     _ ← _run_git env ["pull"; "--rebase"] repo_dir false;
     _ ← _sync_file_from_repo "metadata.csv" repo_dir;
     _ ← _sync_file_from_repo "albums.csv" repo_dir;
     mret true) w = (Ok true, w') /\
    sync_step w w'
      (copied (path_div (repo_dir_of w) "albums.csv")
         (path_div (config_dir (store w)) "albums.csv")
         (copied (path_div (repo_dir_of w) "metadata.csv")
            (path_div (config_dir (store w)) "metadata.csv")
            (snd (subprocess_run env ["git"; "pull"; "--rebase"]
                    (Some (repo_dir_of w)) (files (store w))))))
      [["pull"; "--rebase"]].
Proof.
  intros Hclone.
  rewrite bind_run, ensure_cloned_run by exact Hclone.
  pose proof (sync_step_git env ["pull"; "--rebase"] (repo_dir_of w) false w)
    as H1.
  rewrite bind_run, run_git_result. cbn [andb].
  set (w1 := snd (_run_git env ["pull"; "--rebase"] (repo_dir_of w) false w))
    in *.
  rewrite bind_run, sync_from_repo_run.
  destruct (sync_step_copy (path_div (repo_dir_of w) "metadata.csv")
              (path_div (config_dir (store w1)) "metadata.csv") w1)
    as [E2 H2].
  set (w2 := snd (copy_if_exists _ _ w1)) in *. rewrite E2.
  rewrite bind_run, sync_from_repo_run.
  destruct (sync_step_copy (path_div (repo_dir_of w) "albums.csv")
              (path_div (config_dir (store w2)) "albums.csv") w2)
    as [E3 H3].
  set (w3 := snd (copy_if_exists _ _ w2)) in *. rewrite E3.
  exists w3. split; [reflexivity|].
  pose proof (sync_step_trans _ _ _ _ _ _ _ H1 H2) as H12.
  pose proof (sync_step_trans _ _ _ _ _ _ _ H12 H3) as H123.
  destruct H1 as (Hf1 & Hd1 & _). destruct H2 as (Hf2 & Hd2 & _).
  rewrite Hd2, Hd1, Hf2, Hf1, Hd1 in H123. exact H123.
Qed.

(** X19: what a pull changes.  With a repository configured and cloned,
    [pull_metadata] returns [True] whatever [git pull --rebase] answers,
    its return code is not looked at, and that is the one [git] command
    run.  Each table the clone then holds replaces the local one, a
    table the clone lacks leaves the local one as it is, and the cache
    of the record store is not invalidated. *)
Theorem pull_takes_tables_of_clone (env : Env) (w : World) :
  lock_free env = true ->
  truthy_opt (config w !! "sync_repo") = true ->
  clone w = GitRepo ->
  let fs := snd (subprocess_run env ["git"; "pull"; "--rebase"]
                   (Some (repo_dir_of w)) (files (store w))) in
  exists w',
    pull_metadata env w = (Ok true, w') /\
    (forall name, name ∈ TABLES ->
       files (store w') !! path_div (config_dir (store w)) name
       = match fs !! path_div (repo_dir_of w) name with
         | Some content => Some content
         | None => fs !! path_div (config_dir (store w)) name
         end) /\
    CACHE (store w') = CACHE (store w) /\
    clone w' = GitRepo /\ config w' = config w /\
    git_commands (drop (length (log w)) (log w')) = [["pull"; "--rebase"]].
Proof.
  intros Hlock Hrepo Hclone fs.
  unfold pull_metadata. rewrite bind_run, get_sync_repo_run, Hrepo.
  cbn [negb]. rewrite (with_repo_lock_run env _ _ Hlock).
  destruct (pull_body_run env (default "" (config w !! "sync_repo"))
              (logged w [EvLockAcquire]) Hclone) as (w1 & -> & Hstep).
  cbn [fst snd]. eexists. split; [reflexivity|].
  pose proof (sync_step_trans _ _ _ _ _ _ _
                (sync_step_logged w [EvLockAcquire])
                (sync_step_trans _ _ _ _ _ _ _ Hstep
                   (sync_step_logged w1 [EvLockRelease]))) as H.
  cbn [git_commands omap app] in H.
  pose proof (sync_step_drop _ _ _ _ H) as Hcmds.
  destruct H as (_ & _ & Hc & Hg & Hl & _).
  destruct Hstep as (Hf & _).
  split; [|rewrite Hl, Hclone; repeat split; try done; exact Hcmds].
  intros name Hname. cbn [logged store files]. rewrite Hf.
  change (repo_dir_of (logged w [EvLockAcquire])) with (repo_dir_of w).
  change (config_dir (store (logged w [EvLockAcquire])))
    with (config_dir (store w)).
  change (files (store (logged w [EvLockAcquire]))) with (files (store w)).
  fold fs. rewrite !copied_lookup.
  assert (Hrepo_ne : forall a b, b ∈ TABLES ->
            path_div (repo_dir_of w) a ≠ path_div (config_dir (store w)) b)
    by (intros a b Hb; by apply repo_path_not_table).
  unfold TABLES in Hname. rewrite !elem_of_cons, elem_of_nil in Hname.
  destruct Hname as [->|[->|[]]].
  - rewrite (bool_decide_eq_false_2
               (path_div (config_dir (store w)) "metadata.csv"
                = path_div (config_dir (store w)) "albums.csv"))
      by (intros H%path_div_inj; discriminate H).
    rewrite bool_decide_eq_true_2 by done. reflexivity.
  - rewrite bool_decide_eq_true_2 by done. rewrite ?copied_lookup.
    rewrite !bool_decide_eq_false_2; [reflexivity|..].
    + intros H%path_div_inj; discriminate H.
    + apply Hrepo_ne. unfold TABLES. set_solver.
Qed.

Lemma pull_takes_tables_of_clone_witness :
  let fs := snd (subprocess_run quiet_env ["git"; "pull"; "--rebase"]
                   (Some (repo_dir_of synced_world))
                   (files (store synced_world))) in
  exists w',
    pull_metadata quiet_env synced_world = (Ok true, w') /\
    (forall name, name ∈ TABLES ->
       files (store w') !! path_div (config_dir (store synced_world)) name
       = match fs !! path_div (repo_dir_of synced_world) name with
         | Some content => Some content
         | None => fs !! path_div (config_dir (store synced_world)) name
         end) /\
    CACHE (store w') = CACHE (store synced_world) /\
    clone w' = GitRepo /\ config w' = config synced_world /\
    git_commands (drop (length (log synced_world)) (log w'))
    = [["pull"; "--rebase"]].
Proof.
  apply (pull_takes_tables_of_clone quiet_env synced_world); reflexivity.
Defined.

Ltac step_copy :=
  match goal with
  | |- context [copy_if_exists ?src ?dst ?w0] =>
    let E := fresh "E" in
    let H := fresh "Hstep" in
    let w' := fresh "w" in
    destruct (sync_step_copy src dst w0) as [E H];
    set (w' := snd (copy_if_exists src dst w0)) in *;
    rewrite E; clear E
  end.

Ltac step_git :=
  match goal with
  | |- context [_run_git ?env ?args ?cwd ?check ?w0] =>
    let H := fresh "Hstep" in
    let w' := fresh "w" in
    pose proof (sync_step_git env args cwd check w0) as H;
    rewrite (run_git_result env args cwd check w0);
    set (w' := snd (_run_git env args cwd check w0)) in *
  end.

Lemma last_logged (w : World) (e : Event) : last (log (logged w [e])) = Some e.
Proof. cbn. apply last_snoc. Qed.

(** The body of [push_metadata] under the lock, on a cloned repository,
    as far as [git status]: what remains to be done takes the answer of
    [git status] when its return code is 0. *)
Lemma push_body_status (env : Env) (repo_url : string) (w : World)
    (rest : string -> CompletedProcess -> M World bool) :
  clone w = GitRepo ->
  exists w3,
    (exists fs, sync_step w w3 fs [["status"; "--porcelain"]]) /\
    exists r,
      (exists fs, r = fst (subprocess_run env ["git"; "status"; "--porcelain"]
                             (Some (repo_dir_of w)) fs)) /\
      (repo_dir ← _ensure_repo_cloned env repo_url;
       _ ← _sync_file_to_repo "metadata.csv" repo_dir;
       _ ← _sync_file_to_repo "albums.csv" repo_dir;
       r ← _run_git env ["status"; "--porcelain"] repo_dir true;
       rest repo_dir r) w
      = if bool_decide (returncode r = 0%Z)
        then rest (repo_dir_of w) r w3
        else (Raise CalledProcessError, w3).
Proof.
  intros Hclone.
  rewrite bind_run, ensure_cloned_run by exact Hclone.
  rewrite bind_run, sync_to_repo_run. step_copy.
  rewrite bind_run, sync_to_repo_run. step_copy.
  rewrite bind_run. step_git.
  exists w2. split.
  - eexists.
    exact (sync_step_trans _ _ _ _ _ _ _
             (sync_step_trans _ _ _ _ _ _ _ Hstep Hstep0) Hstep1).
  - exists (fst (subprocess_run env ["git"; "status"; "--porcelain"]
                   (Some (repo_dir_of w)) (files (store w1)))).
    split; [by eexists|]. cbn zeta. cbn [andb].
    by destruct (bool_decide _).
Qed.

Lemma locked_run_of_log (w w2 : World) (evs : list Event)
    (cmds : list (list string)) :
  log w2 = ((log w ++ [EvLockAcquire]) ++ evs)%list ->
  git_commands evs = cmds ->
  locked_run w (logged w2 [EvLockRelease]) cmds /\
  drop (length (log w)) (log (logged w2 [EvLockRelease]))
  = (EvLockAcquire :: evs ++ [EvLockRelease])%list.
Proof.
  intros Hlog Hcmds.
  assert (Hdrop : drop (length (log w)) (log (logged w2 [EvLockRelease]))
                  = (EvLockAcquire :: evs ++ [EvLockRelease])%list).
  { cbn [logged log]. rewrite Hlog, <- !app_assoc, drop_app_length.
    reflexivity. }
  split; [|exact Hdrop]. unfold locked_run. rewrite Hdrop.
  split; [|split; [done|cbn [logged log]; apply last_snoc]].
  change (EvLockAcquire :: (evs ++ [EvLockRelease])%list)
    with ([EvLockAcquire] ++ (evs ++ [EvLockRelease]))%list.
  rewrite !git_commands_app, Hcmds. cbn. by rewrite app_nil_r.
Qed.

Lemma locked_run_intro (w w2 : World) (fs : gmap string (list row))
    (cmds : list (list string)) :
  sync_step (logged w [EvLockAcquire]) w2 fs cmds ->
  locked_run w (logged w2 [EvLockRelease]) cmds.
Proof.
  intros (_ & _ & _ & _ & _ & evs & Hlog & Hcmds).
  by apply (locked_run_of_log w w2 evs cmds).
Qed.

Lemma push_run (env : Env) (w : World) :
  lock_free env = true ->
  truthy_opt (config w !! "sync_repo") = true ->
  clone w = GitRepo ->
  exists w3 r,
    (exists fs, sync_step (logged w [EvLockAcquire]) w3 fs
                  [["status"; "--porcelain"]]) /\
    (exists fs, r = fst (subprocess_run env ["git"; "status"; "--porcelain"]
                           (Some (repo_dir_of w)) fs)) /\
    push_metadata env w =
    (fst (if bool_decide (returncode r = 0%Z)
          then push_after_status env (repo_dir_of w) r w3
          else (Raise CalledProcessError, w3)),
     logged (snd (if bool_decide (returncode r = 0%Z)
                  then push_after_status env (repo_dir_of w) r w3
                  else (Raise CalledProcessError, w3)))
       [EvLockRelease]).
Proof.
  intros Hlock Hrepo Hclone.
  unfold push_metadata. rewrite bind_run, get_sync_repo_run, Hrepo.
  cbn [negb]. rewrite (with_repo_lock_run env _ _ Hlock).
  destruct (push_body_status env (default "" (config w !! "sync_repo"))
              (logged w [EvLockAcquire]) (push_after_status env) Hclone)
    as (w3 & Hstep & r & Hr & Heq).
  exists w3, r. split; [exact Hstep|]. split; [exact Hr|].
  unfold push_after_status in Heq at 1. rewrite Heq. reflexivity.
Qed.

(** X20: a push with nothing to commit.  On a cloned repository, when
    [git status --porcelain] succeeds and prints nothing but white
    space, [push_metadata] returns [True] having run that one [git]
    command: no add, no commit, no push.  The lock is taken first and
    released last. *)
Theorem push_clean_tree (env : Env) (w : World) :
  lock_free env = true ->
  truthy_opt (config w !! "sync_repo") = true ->
  clone w = GitRepo ->
  git_answers env w ["status"; "--porcelain"]
    (fun r => returncode r = 0%Z /\ all_whitespace (stdout r) = true) ->
  exists w',
    push_metadata env w = (Ok true, w') /\
    locked_run w w' [["status"; "--porcelain"]].
Proof.
  intros Hlock Hrepo Hclone Hstatus.
  destruct (push_run env w Hlock Hrepo Hclone)
    as (w3 & r & (fs & Hstep) & (fs' & ->) & ->).
  destruct (Hstatus fs') as [Hrc Hws].
  rewrite (bool_decide_eq_true_2 _ Hrc). unfold push_after_status.
  rewrite Hws. cbn [fst snd mret M_ret].
  eexists. split; [reflexivity|]. by eapply locked_run_intro.
Qed.

Lemma push_clean_tree_witness :
  exists w',
    push_metadata quiet_env synced_world = (Ok true, w') /\
    locked_run synced_world w' [["status"; "--porcelain"]].
Proof.
  apply (push_clean_tree quiet_env synced_world); try reflexivity.
  intros fs. split; reflexivity.
Defined.

(** X21: a failing [git status] or [git add] is not caught.  On a
    cloned repository, when [git status --porcelain] returns a non-zero
    code, or reports changes and [git add] returns a non-zero code,
    [push_metadata] raises [CalledProcessError]; nothing is committed or
    pushed, and the lock is released on the way out. *)
Theorem push_git_failure_escapes (env : Env) (w : World) :
  lock_free env = true ->
  truthy_opt (config w !! "sync_repo") = true ->
  clone w = GitRepo ->
  (git_answers env w ["status"; "--porcelain"]
     (fun r => returncode r ≠ 0%Z) ->
   exists w',
     push_metadata env w = (Raise CalledProcessError, w') /\
     locked_run w w' [["status"; "--porcelain"]]) /\
  (git_answers env w ["status"; "--porcelain"]
     (fun r => returncode r = 0%Z /\ all_whitespace (stdout r) = false) ->
   git_answers env w ["add"; "metadata.csv"; "albums.csv"]
     (fun r => returncode r ≠ 0%Z) ->
   exists w',
     push_metadata env w = (Raise CalledProcessError, w') /\
     locked_run w w' [["status"; "--porcelain"];
                      ["add"; "metadata.csv"; "albums.csv"]]).
Proof.
  intros Hlock Hrepo Hclone.
  destruct (push_run env w Hlock Hrepo Hclone)
    as (w3 & r & (fs & Hstep) & (fs' & ->) & ->).
  split.
  - intros Hstatus. rewrite (bool_decide_eq_false_2 _ (Hstatus fs')).
    cbn [fst snd]. eexists. split; [reflexivity|].
    by eapply locked_run_intro.
  - intros Hstatus Hadd. destruct (Hstatus fs') as [Hrc Hws].
    rewrite (bool_decide_eq_true_2 _ Hrc). unfold push_after_status.
    rewrite Hws, bind_run. step_git.
    cbn zeta. rewrite (bool_decide_eq_false_2 _ (Hadd (files (store w3)))).
    cbn [fst snd negb andb]. eexists. split; [reflexivity|].
    eapply locked_run_intro.
    exact (sync_step_trans _ _ _ _ _ _ _ Hstep Hstep0).
Qed.

Lemma push_git_failure_escapes_witness :
  exists w',
    push_metadata (git_env "status") synced_world
      = (Raise CalledProcessError, w') /\
    locked_run synced_world w' [["status"; "--porcelain"]].
Proof.
  apply (proj1 (push_git_failure_escapes (git_env "status") synced_world
                  eq_refl eq_refl eq_refl)).
  intros fs. discriminate.
Defined.

(** X22: what [push_metadata] returns once there is something to
    commit.  On a cloned repository where [git status] reports changes
    and [git add] succeeds: a [git commit] that fails without saying
    "nothing to commit" makes it return [False] and [git push] is not
    run; after any other commit it runs [git push] and returns whether
    that succeeded. *)
Theorem push_reports_commit_and_push (env : Env) (w : World) :
  lock_free env = true ->
  truthy_opt (config w !! "sync_repo") = true ->
  clone w = GitRepo ->
  git_answers env w ["status"; "--porcelain"]
    (fun r => returncode r = 0%Z /\ all_whitespace (stdout r) = false) ->
  git_answers env w ["add"; "metadata.csv"; "albums.csv"]
    (fun r => returncode r = 0%Z) ->
  (git_answers env w ["commit"; "-m"; "Update metadata from song-classifier"]
     (fun r => returncode r ≠ 0%Z /\
               contains (stdout r) "nothing to commit" = false) ->
   exists w',
     push_metadata env w = (Ok false, w') /\
     locked_run w w'
       [["status"; "--porcelain"]; ["add"; "metadata.csv"; "albums.csv"];
        ["commit"; "-m"; "Update metadata from song-classifier"]]) /\
  (forall pushed : bool,
     git_answers env w ["commit"; "-m"; "Update metadata from song-classifier"]
       (fun r => returncode r = 0%Z \/
                 contains (stdout r) "nothing to commit" = true) ->
     git_answers env w ["push"]
       (fun r => bool_decide (returncode r = 0%Z) = pushed) ->
     exists w',
       push_metadata env w = (Ok pushed, w') /\
       locked_run w w'
         [["status"; "--porcelain"]; ["add"; "metadata.csv"; "albums.csv"];
          ["commit"; "-m"; "Update metadata from song-classifier"];
          ["push"]]).
Proof.
  intros Hlock Hrepo Hclone Hstatus Hadd.
  destruct (push_run env w Hlock Hrepo Hclone)
    as (w3 & r & (fs & Hstep) & (fs' & ->) & ->).
  destruct (Hstatus fs') as [Hrc Hws].
  rewrite (bool_decide_eq_true_2 _ Hrc). unfold push_after_status.
  rewrite Hws, bind_run. step_git.
  cbn zeta. rewrite (bool_decide_eq_true_2 _ (Hadd (files (store w3)))).
  cbn [negb andb]. rewrite bind_run. step_git. cbn zeta. cbn [andb].
  split.
  - intros Hcommit. destruct (Hcommit (files (store w0))) as [Hc Hn].
    rewrite (bool_decide_eq_false_2 _ Hc), Hn.
    cbn [fst snd negb andb mret M_ret]. eexists. split; [reflexivity|].
    eapply locked_run_intro.
    exact (sync_step_trans _ _ _ _ _ _ _
             (sync_step_trans _ _ _ _ _ _ _ Hstep Hstep0) Hstep1).
  - intros pushed Hcommit Hpush.
    assert (negb (bool_decide
                    (returncode
                       (fst (subprocess_run env
                               ["git"; "commit"; "-m";
                                "Update metadata from song-classifier"]
                               (Some (repo_dir_of w)) (files (store w0))))
                     = 0%Z))
            && negb (contains
                       (stdout
                          (fst (subprocess_run env
                                  ["git"; "commit"; "-m";
                                   "Update metadata from song-classifier"]
                                  (Some (repo_dir_of w)) (files (store w0)))))
                       "nothing to commit") = false) as ->.
    { destruct (Hcommit (files (store w0))) as [Hc|Hn].
      - by rewrite (bool_decide_eq_true_2 _ Hc).
      - rewrite Hn. apply andb_false_r. }
    rewrite bind_run. step_git. cbn zeta. cbn [andb].
    rewrite (Hpush (files (store w1))).
    assert (Hrun : locked_run w (logged w2 [EvLockRelease])
              [["status"; "--porcelain"];
               ["add"; "metadata.csv"; "albums.csv"];
               ["commit"; "-m"; "Update metadata from song-classifier"];
               ["push"]]).
    { eapply locked_run_intro.
      exact (sync_step_trans _ _ _ _ _ _ _
               (sync_step_trans _ _ _ _ _ _ _
                  (sync_step_trans _ _ _ _ _ _ _ Hstep Hstep0) Hstep1)
               Hstep2). }
    destruct pushed; cbn [negb fst snd]; eexists;
      (split; [reflexivity|exact Hrun]).
Qed.

Lemma push_reports_commit_and_push_witness :
  exists w',
    push_metadata (git_env "commit") synced_world = (Ok false, w') /\
    locked_run synced_world w'
      [["status"; "--porcelain"]; ["add"; "metadata.csv"; "albums.csv"];
       ["commit"; "-m"; "Update metadata from song-classifier"]].
Proof.
  apply (proj1 (push_reports_commit_and_push (git_env "commit") synced_world
                  eq_refl eq_refl eq_refl
                  (fun fs => conj eq_refl eq_refl) (fun fs => eq_refl))).
  intros fs. split; [discriminate|reflexivity].
Defined.

Lemma ensure_clone_fails (env : Env) (repo_url : string) (w : World) :
  clone w ≠ GitRepo ->
  clone_fails env w repo_url ->
  exists w' msg,
    _ensure_repo_cloned env repo_url w = (Raise (RuntimeError msg), w') /\
    startswith msg "Failed to clone repository: " = true /\
    exists evs, log w' = (log w ++ evs)%list /\
                git_commands evs = [["clone"; repo_url; repo_dir_of w]] /\
                forall src dst, EvCopy src dst ∉ evs.
Proof.
  intros Hclone Hfail.
  unfold _ensure_repo_cloned, get_git_repo_dir, lift_store,
    get_or_create_config_dir, get_state.
  rewrite !bind_run. cbn. rewrite set_store_id, bind_run. cbn.
  fold (repo_dir_of w).
  destruct (clone w) eqn:Hc; [| |done];
    unfold rmtree, run, spawn, emit, modify, raise, mbind, M_bind, mret,
      M_ret; cbn;
    match goal with
    | |- context [subprocess_run env ?argv ?cwd ?fs] =>
      pose proof (Hfail fs) as Hrc;
      destruct (subprocess_run env argv cwd fs) as [r fs'] eqn:E
    end;
    cbn in Hrc |- *; rewrite (bool_decide_eq_false_2 _ Hrc); cbn;
    eexists; eexists; (split; [reflexivity|]);
    (split; [apply startswith_app_self|]);
    eexists; (split; [cbn; rewrite <- ?app_assoc; reflexivity|]);
    (split; [reflexivity|]);
    intros src dst Hin; cbn [app] in Hin;
    rewrite !elem_of_cons, elem_of_nil in Hin;
    repeat (destruct Hin as [Hin|Hin]; try discriminate Hin); done.
Qed.

(** X23: a repository that cannot be cloned.  With a repository
    configured, no valid clone in place and [git clone] failing,
    [pull_metadata] and [push_metadata] both raise [RuntimeError] with
    the message "Failed to clone repository: ..." and end in the same
    state: [git clone] is the one [git] command run, no table is
    copied, and the lock is released. *)
Theorem clone_failure_stops_sync (env : Env) (w : World) :
  lock_free env = true ->
  truthy_opt (config w !! "sync_repo") = true ->
  clone w ≠ GitRepo ->
  clone_fails env w (default "" (config w !! "sync_repo")) ->
  exists w' msg,
    pull_metadata env w = (Raise (RuntimeError msg), w') /\
    push_metadata env w = (Raise (RuntimeError msg), w') /\
    startswith msg "Failed to clone repository: " = true /\
    locked_run w w'
      [["clone"; default "" (config w !! "sync_repo"); repo_dir_of w]] /\
    (forall src dst, EvCopy src dst ∉ drop (length (log w)) (log w')).
Proof.
  intros Hlock Hrepo Hclone Hfail.
  destruct (ensure_clone_fails env (default "" (config w !! "sync_repo"))
              (logged w [EvLockAcquire]) Hclone Hfail)
    as (w1 & msg & Hrun & Hmsg & evs & Hlog & Hcmds & Hcopy).
  destruct (locked_run_of_log w w1 evs _ Hlog Hcmds) as [Hlocked Hdrop].
  exists (logged w1 [EvLockRelease]), msg.
  split; [|split; [|split; [exact Hmsg|split; [exact Hlocked|]]]].
  - unfold pull_metadata. rewrite bind_run, get_sync_repo_run, Hrepo.
    cbn [negb]. rewrite (with_repo_lock_run env _ _ Hlock).
    rewrite bind_run, Hrun. reflexivity.
  - unfold push_metadata. rewrite bind_run, get_sync_repo_run, Hrepo.
    cbn [negb]. rewrite (with_repo_lock_run env _ _ Hlock).
    rewrite bind_run, Hrun. reflexivity.
  - intros src dst. rewrite Hdrop.
    rewrite elem_of_cons, elem_of_app, elem_of_cons, elem_of_nil.
    intros [H|[H|[H|[]]]]; try discriminate H. by apply (Hcopy src dst).
Qed.

(** Every [git clone] fails. *)
Lemma clone_failure_stops_sync_witness :
  exists w' msg,
    pull_metadata (git_env "clone") uncloned_world
      = (Raise (RuntimeError msg), w') /\
    push_metadata (git_env "clone") uncloned_world
      = (Raise (RuntimeError msg), w') /\
    startswith msg "Failed to clone repository: " = true /\
    locked_run uncloned_world w'
      [["clone"; "git@example.org:meta.git"; "/cfg/metadata-repo"]] /\
    (forall src dst,
       EvCopy src dst ∉ drop (length (log uncloned_world)) (log w')).
Proof.
  apply (clone_failure_stops_sync (git_env "clone") uncloned_world);
    try reflexivity.
  - discriminate.
  - intros fs. discriminate.
Defined.

(** ** The pipeline: what a run can and cannot do *)

Lemma frame_refl (P : Event -> bool) (ks : bool) (w : World) :
  frame P ks w w.
Proof. repeat split. exists []. by rewrite app_nil_r. Qed.

Lemma frame_trans (P : Event -> bool) (ks : bool) (w w1 w2 : World) :
  frame P ks w w1 -> frame P ks w1 w2 -> frame P ks w w2.
Proof.
  intros (Hs1 & Hc1 & Hl1 & e1 & He1 & Hp1) (Hs2 & Hc2 & Hl2 & e2 & He2 & Hp2).
  split; [intros Hk; rewrite Hs2, Hs1 by done; done|].
  split; [congruence|]. split; [congruence|].
  exists (e1 ++ e2)%list. rewrite He2, He1, app_assoc, forallb_app, Hp1, Hp2.
  done.
Qed.

Lemma keeps_ret (P : Event -> bool) (ks : bool) {A} (a : A) :
  keeps P ks (mret a : M World A).
Proof. intros w. apply frame_refl. Qed.

Lemma keeps_lift_result (P : Event -> bool) (ks : bool) {A} (r : result A) :
  keeps P ks (lift_result r : M World A).
Proof. intros w. apply frame_refl. Qed.

Lemma keeps_raise (P : Event -> bool) (ks : bool) {A} (e : exn) :
  keeps P ks (raise e : M World A).
Proof. intros w. apply frame_refl. Qed.

Lemma keeps_bind (P : Event -> bool) (ks : bool) {A B} (m : M World A)
    (f : A -> M World B) :
  keeps P ks m -> (forall a, keeps P ks (f a)) -> keeps P ks (m ≫= f).
Proof.
  intros Hm Hf w. rewrite bind_run. specialize (Hm w).
  destruct (m w) as [[a|e] w1]; cbn [snd] in *; [|exact Hm].
  eapply frame_trans; [exact Hm|apply Hf].
Qed.

Lemma keeps_emit (P : Event -> bool) (ks : bool) (e : Event) :
  P e = true -> keeps P ks (emit e).
Proof.
  intros He w. repeat split. exists [e]. cbn. by rewrite He.
Qed.

Lemma keeps_lift_store (P : Event -> bool) (ks : bool) {A} (m : M Store A) :
  (ks = true -> forall s, snd (m s) = s) -> keeps P ks (lift_store m).
Proof.
  intros Hm w. unfold lift_store.
  destruct (m (store w)) as [r s] eqn:E. cbn.
  split; [|repeat split; exists []; by rewrite app_nil_r].
  intros Hk. specialize (Hm Hk (store w)). by rewrite E in Hm.
Qed.

Lemma get_file_keeps_store (key : option string) (s : Store) :
  snd (get_file_metadata key s) = s.
Proof. by rewrite get_file_run. Qed.

Ltac keeps_go :=
  repeat first
    [ progress lazy beta iota
    | apply keeps_ret
    | apply keeps_lift_result
    | apply keeps_raise
    | apply keeps_emit; reflexivity
    | apply keeps_lift_store; first [discriminate|intros _; apply get_file_keeps_store|by intros _ []]
    | apply keeps_bind; [|intros ?]
    | match goal with
      | |- keeps _ _ (if ?b then _ else _) => destruct b
      | |- keeps _ _ (match ?x with _ => _ end) => destruct x
      end ].

Lemma classify_keeps_read_only (env : Env) (filename base_path : string)
    (t : Transport)
    (skip_processed_files skip_files_in_metadata dry_run : bool) :
  keeps read_only_call true
    (classify_filename env filename base_path t skip_processed_files
       skip_files_in_metadata dry_run).
Proof.
  unfold classify_filename, load_file, remove_local_copy,
    get_or_create_temp_dir, get_or_create_config_dir.
  keeps_go.
Qed.

Lemma classify_keeps_no_sync (env : Env) (filename base_path : string)
    (t : Transport)
    (skip_processed_files skip_files_in_metadata dry_run : bool) :
  keeps no_sync_call false
    (classify_filename env filename base_path t skip_processed_files
       skip_files_in_metadata dry_run).
Proof.
  unfold classify_filename, load_file, remove_local_copy,
    get_or_create_temp_dir, get_or_create_config_dir.
  keeps_go.
Qed.

Lemma process_loop_keeps (P : Event -> bool) (ks : bool) (env : Env)
    (base_path : string) (t : Transport)
    (skip_processed skip_in_metadata dry_run : bool) :
  (forall filename,
     keeps P ks (classify_filename env filename base_path t skip_processed
                   skip_in_metadata dry_run)) ->
  forall files n,
    keeps P ks (process_loop env files base_path t skip_processed
                  skip_in_metadata dry_run n).
Proof.
  intros Hc files. induction files as [|f files IH]; intros n;
    cbn [process_loop]; [apply keeps_ret|].
  apply keeps_bind; [apply Hc|]. intros r. apply IH.
Qed.

(** X24: a dry run changes nothing.  Whatever the files, the transport,
    the skip flags and the answers of the collaborators, and whether the
    batch ends normally or with an exception, [process_files] with
    [dry_run] set leaves the record store, the configuration and the
    clone as they were, and makes no call that changes the store, asks
    the operator, writes tags or publishes a file. *)
Theorem dry_run_batch_is_read_only (env : Env) (files : list string)
    (base_path : string) (t : Transport)
    (skip_processed skip_in_metadata verbose : bool) (w : World) :
  let w' := snd (process_files env files base_path t skip_processed
                   skip_in_metadata true verbose w) in
  store w' = store w /\ config w' = config w /\ clone w' = clone w /\
  exists evs, log w' = (log w ++ evs)%list /\
              forallb read_only_call evs = true.
Proof.
  cbn zeta. unfold process_files.
  destruct (process_loop_keeps read_only_call true env base_path t
              skip_processed skip_in_metadata true
              (fun f => classify_keeps_read_only env f base_path t
                          skip_processed skip_in_metadata true) files 0 w)
    as (Hs & Hrest).
  split; [by apply Hs|exact Hrest].
Qed.

Lemma process_and_sync_keeps_no_sync (env : Env) (args : Namespace)
    (files : list string) (path : string) (t : Transport)
    (skip_processed skip_in_metadata : bool) :
  no_sync args = true ->
  keeps no_sync_call false
    (process_and_sync env args files path t skip_processed skip_in_metadata).
Proof.
  intros Hns w. unfold process_and_sync, process_files. rewrite Hns.
  pose proof (process_loop_keeps no_sync_call false env path t skip_processed
                skip_in_metadata (dry_run args)
                (fun f => classify_keeps_no_sync env f path t skip_processed
                            skip_in_metadata (dry_run args)) files 0 w) as H.
  destruct (process_loop env files path t skip_processed skip_in_metadata
              (dry_run args) 0 w) as [[n|e] w'].
  - exact H.
  - destruct e; exact H.
Qed.

(** X25: [--no-sync] keeps the sync manager out of the run.  Whatever
    the other arguments, the files and the answers of the collaborators,
    and whether the run ends normally, with an exit or with an
    exception, [cmd_process] with [no_sync] set never takes the lock,
    runs no subprocess, copies no table and removes no directory; the
    configuration and the clone are as before. *)
Theorem no_sync_runs_no_git (env : Env) (args : Namespace) (w : World) :
  no_sync args = true ->
  let w' := snd (cmd_process env args w) in
  config w' = config w /\ clone w' = clone w /\
  exists evs, log w' = (log w ++ evs)%list /\
              forallb no_sync_call evs = true.
Proof.
  intros Hns. cbn zeta.
  assert (H : keeps no_sync_call false (cmd_process env args)).
  { unfold cmd_process, sys_exit, transport_list_files. rewrite Hns.
    keeps_go. by apply process_and_sync_keeps_no_sync. }
  destruct (H w) as (_ & Hrest). exact Hrest.
Qed.

Lemma no_sync_runs_no_git_witness :
  let w' := snd (cmd_process interrupting_env no_sync_args synced_world) in
  config w' = config synced_world /\ clone w' = clone synced_world /\
  exists evs, log w' = (log synced_world ++ evs)%list /\
              forallb no_sync_call evs = true.
Proof.
  apply (no_sync_runs_no_git interrupting_env no_sync_args synced_world).
  reflexivity.
Defined.

(** X26: how a batch composes.  Processing [l1 ++ l2] is processing
    [l1] and then, if that ended normally, [l2] from the state and the
    count reached; an exception from an asset of [l1] ends the batch
    there and no asset of [l2] is looked at.  The count a batch returns
    lies between the count it started from and that count plus the
    number of its files. *)
Theorem batch_stops_at_first_failure (env : Env) (l1 l2 : list string)
    (base_path : string) (t : Transport)
    (skip_processed skip_in_metadata dry_run : bool) (n : nat) (w : World) :
  process_loop env (l1 ++ l2) base_path t skip_processed skip_in_metadata
    dry_run n w
  = match process_loop env l1 base_path t skip_processed skip_in_metadata
            dry_run n w with
    | (Ok m, w1) =>
      process_loop env l2 base_path t skip_processed skip_in_metadata
        dry_run m w1
    | (Raise e, w1) => (Raise e, w1)
    end /\
  forall m w1,
    process_loop env l1 base_path t skip_processed skip_in_metadata
      dry_run n w = (Ok m, w1) ->
    (n <= m <= n + length l1)%nat.
Proof.
  revert n w. induction l1 as [|f l1 IH]; intros n w.
  - split; [reflexivity|]. intros m w1 [= <- <-]. cbn. lia.
  - cbn [app process_loop length]. rewrite !bind_run.
    destruct (classify_filename env f base_path t skip_processed
                skip_in_metadata dry_run w) as [[r|e] w0].
    + destruct (IH (match r with Some _ => S n | None => n end) w0)
        as [Heq Hcount].
      split; [exact Heq|]. intros m w1 Hm. specialize (Hcount m w1 Hm).
      destruct r; lia.
    + split; [reflexivity|]. discriminate.
Qed.

(** ** The pipeline: one asset *)

Lemma triple_true {A} (Pre : World -> Prop) (m : M World A) :
  triple Pre m (fun _ _ => True).
Proof. by intros w a w' _ _. Qed.

Lemma triple_ret {A} (Pre : World -> Prop) (a : A)
    (Post : A -> World -> Prop) :
  (forall w, Pre w -> Post a w) -> triple Pre (mret a) Post.
Proof. intros H w b w' Hpre [= <- <-]. by apply H. Qed.

Lemma triple_raise {A} (Pre : World -> Prop) (e : exn)
    (Post : A -> World -> Prop) :
  triple Pre (raise e) Post.
Proof. intros w a w' _ H. discriminate H. Qed.

Lemma triple_bind {A B} (Pre : World -> Prop) (Mid : A -> World -> Prop)
    (Post : B -> World -> Prop) (m : M World A) (f : A -> M World B) :
  triple Pre m Mid -> (forall a, triple (Mid a) (f a) Post) ->
  triple Pre (m ≫= f) Post.
Proof.
  intros Hm Hf w b w' Hpre. rewrite bind_run.
  destruct (m w) as [[a|e] w1] eqn:E; [|discriminate].
  intros Hrun. exact (Hf a w1 b w' (Hm w a w1 Hpre E) Hrun).
Qed.

(** Outside dry-run the pipeline has one way to return: a skip. *)
Lemma classify_returns_skip (env : Env) (filename base_path : string)
    (t : Transport) (skip_processed_files skip_files_in_metadata : bool) :
  triple (fun _ => True)
    (classify_filename env filename base_path t skip_processed_files
       skip_files_in_metadata false)
    (fun r _ => r = None).
Proof.
  unfold classify_filename.
  apply (triple_bind _ (fun _ _ => True)); [apply triple_true|intros known].
  destruct known; [by apply triple_ret|].
  do 4 (apply (triple_bind _ (fun _ _ => True)); [apply triple_true|intros ?]).
  apply (triple_bind _ (fun _ _ => True)); [apply triple_true|intros processed].
  destruct processed.
  { apply (triple_bind _ (fun _ _ => True)); [apply triple_true|intros ?].
    by apply triple_ret. }
  do 2 (apply (triple_bind _ (fun _ _ => True)); [apply triple_true|intros ?]).
  lazy iota. apply triple_raise.
Qed.

Lemma process_loop_counts_nothing (env : Env) (base_path : string)
    (t : Transport) (skip_processed skip_in_metadata : bool)
    (files : list string) :
  forall (n : nat) (w : World) (m : nat) (w' : World),
    process_loop env files base_path t skip_processed skip_in_metadata
      false n w = (Ok m, w') ->
    m = n.
Proof.
  induction files as [|f files IH]; intros n w m w'; cbn [process_loop].
  - by intros [= <- <-].
  - rewrite bind_run.
    destruct (classify_filename env f base_path t skip_processed
                skip_in_metadata false w) as [[r|e] w1] eqn:E;
      [|discriminate].
    rewrite (classify_returns_skip env f base_path t skip_processed
               skip_in_metadata w r w1 I E).
    apply IH.
Qed.

(** X27: outside dry-run no asset gets past the confirmation.
    [confirm_metadata] is a coroutine function and [classify_filename]
    calls it without awaiting it, so what it names [confirmed] is a
    coroutine object and reading its [album] raises [AttributeError].
    An asset that reaches the dry-run test with dry-run off therefore
    ends in that exception right after the inference; whatever happens,
    [classify_filename] then never returns a record and leaves the
    record store, the configuration and the clone as they were, having
    made no call that changes the store, asks the operator, writes tags
    or publishes; and a batch that returns has counted no file. *)
Theorem confirmation_is_never_awaited (env : Env)
    (filename base_path : string) (t : Transport)
    (skip_processed_files skip_files_in_metadata : bool) (w : World) :
  (forall existing ai,
     reaches_dry_run_check env filename base_path t skip_processed_files
       skip_files_in_metadata w existing ai ->
     exists evs,
       classify_filename env filename base_path t skip_processed_files
         skip_files_in_metadata false w
       = (Raise AttributeError,
          mkWorld (store w) (config w) (clone w) (log w ++ evs)%list) /\
       EvInfer filename existing ∈ evs) /\
  (forall r w',
     classify_filename env filename base_path t skip_processed_files
       skip_files_in_metadata false w = (r, w') ->
     (forall c, r ≠ Ok (Some c)) /\
     store w' = store w /\ config w' = config w /\ clone w' = clone w /\
     exists evs, log w' = (log w ++ evs)%list /\
                 forallb read_only_call evs = true) /\
  (forall files verbose r w',
     process_files env files base_path t skip_processed_files
       skip_files_in_metadata false verbose w = (r, w') ->
     store w' = store w /\ forall n, r = Ok n -> n = 0%nat).
Proof.
  split; [|split].
  - intros existing ai (Hstart & Hfetch & Hread & Hproc & Hinfer).
    exists ((if skip_files_in_metadata then [EvStoreGet (Some filename)]
             else [])
            ++ [EvLoadFile filename base_path;
                EvReadTags (local_copy t filename base_path w)]
            ++ (if skip_processed_files
                then [EvIsProcessed (local_copy t filename base_path w)]
                else [])
            ++ [EvInfer filename existing])%list.
    split.
    + assert (Hknown : skip_files_in_metadata = true ->
                exists l, get_file_metadata (Some filename) (store w)
                          = (Ok l, store w) /\ lookup_truthy l = false).
      { intros E. destruct (Hstart E) as (l & Hl & Hlt).
        exists l. split; [by apply get_file_pure|done]. }
      clear Hstart.
      unfold classify_filename, load_file, remove_local_copy,
        get_or_create_temp_dir, lift_result, lift_store, emit, raise,
        get_or_create_config_dir, mbind, M_bind, mret, M_ret.
      destruct skip_files_in_metadata;
        [destruct (Hknown eq_refl) as (l & Hl & Hlt)|];
        destruct skip_processed_files; try specialize (Hproc eq_refl);
        destruct t; cbn -[get_file_metadata os_path_join path_div] in *;
        repeat (first [rewrite Hl | rewrite Hlt | rewrite Hfetch
                      | rewrite Hread | rewrite Hproc | rewrite Hinfer];
                cbn -[get_file_metadata os_path_join path_div]);
        rewrite <- ?app_assoc; reflexivity.
    + rewrite !elem_of_app. right. right. right. apply list_elem_of_here.
  - intros r w' Hrun. split.
    + intros c ->.
      by pose proof (classify_returns_skip env filename base_path t
                       skip_processed_files skip_files_in_metadata w _ w' I
                       Hrun).
    + destruct (classify_keeps_read_only env filename base_path t
                  skip_processed_files skip_files_in_metadata false w)
        as (Hs & Hrest).
      rewrite Hrun in Hs, Hrest. cbn [snd] in Hs, Hrest.
      split; [by apply Hs|exact Hrest].
  - intros files verbose r w' Hrun. unfold process_files in Hrun. split.
    + destruct (process_loop_keeps read_only_call true env base_path t
                  skip_processed_files skip_files_in_metadata false
                  (fun f => classify_keeps_read_only env f base_path t
                              skip_processed_files skip_files_in_metadata
                              false) files 0 w) as (Hs & _).
      rewrite Hrun in Hs. by apply Hs.
    + intros n ->.
      by apply (process_loop_counts_nothing _ _ _ _ _ _ _ _ _ _ Hrun).
Qed.

(** The asset of the integration test, processed for real in a world
    where every collaborator succeeds. *)
Lemma confirmation_is_never_awaited_witness :
  exists evs,
    classify_filename quiet_env "test_song.mp3" "/music" LocalTransport
      false false false empty_world
    = (Raise AttributeError,
       mkWorld (store empty_world) (config empty_world) (clone empty_world)
         (log empty_world ++ evs)%list) /\
    EvInfer "test_song.mp3" None ∈ evs.
Proof.
  apply (proj1 (confirmation_is_never_awaited quiet_env "test_song.mp3"
                  "/music" LocalTransport false false empty_world)
           None (inferred_track "test_song.mp3")).
  repeat split; try discriminate.
Defined.

(** X28: a file that carries the marker is not classified again.  When
    the asset gets as far as the test for the marker, the test is
    enabled and the file is reported as processed, the pipeline returns
    [None]: the inference is never called, no call changes the store,
    asks the operator, writes tags or publishes, the store is as
    before, and over WebDAV the last call removes the downloaded
    copy. *)
Theorem marked_file_is_skipped (env : Env) (filename base_path : string)
    (t : Transport) (skip_files_in_metadata dry_run : bool) (w : World)
    (existing : option TrackMetadata.t) :
  reaches_processed_check env filename base_path t skip_files_in_metadata w
    existing ->
  is_already_processed env (local_copy t filename base_path w) = Ok true ->
  exists evs,
    classify_filename env filename base_path t true skip_files_in_metadata
      dry_run w = (Ok None, logged w evs) /\
    (forall f e, EvInfer f e ∉ evs) /\
    forallb read_only_call evs = true /\
    (cleanup_local_files t = true ->
     last evs = Some (EvRemove (local_copy t filename base_path w))).
Proof.
  intros (Hstart & Hfetch & Hread) Hproc.
  exists ((if skip_files_in_metadata then [EvStoreGet (Some filename)] else [])
          ++ [EvLoadFile filename base_path;
              EvReadTags (local_copy t filename base_path w);
              EvIsProcessed (local_copy t filename base_path w)]
          ++ (if cleanup_local_files t
              then [EvRemove (local_copy t filename base_path w)] else []))%list.
  split; [|split; [|split]].
  - assert (Hknown : skip_files_in_metadata = true ->
              exists l, get_file_metadata (Some filename) (store w)
                        = (Ok l, store w) /\ lookup_truthy l = false).
    { intros E. destruct (Hstart E) as (l & Hl & Hlt).
      exists l. split; [by apply get_file_pure|done]. }
    clear Hstart.
    unfold classify_filename, load_file, remove_local_copy, logged,
      get_or_create_temp_dir, lift_result, lift_store, emit,
      get_or_create_config_dir, mbind, M_bind, mret, M_ret.
    destruct skip_files_in_metadata;
      [destruct (Hknown eq_refl) as (l & Hl & Hlt)|];
      destruct t; cbn -[get_file_metadata os_path_join path_div] in *;
      repeat (first [rewrite Hl | rewrite Hlt | rewrite Hfetch | rewrite Hread
                    | rewrite Hproc];
              cbn -[get_file_metadata os_path_join path_div]);
      rewrite <- ?app_assoc; reflexivity.
  - intros f e.
    destruct skip_files_in_metadata, (cleanup_local_files t); cbn;
      rewrite ?elem_of_cons, elem_of_nil; intros Hin;
      repeat (destruct Hin as [Hin|Hin]; try discriminate Hin); done.
  - destruct skip_files_in_metadata, (cleanup_local_files t); reflexivity.
  - intros ->. by destruct skip_files_in_metadata.
Qed.

Lemma marked_file_is_skipped_witness :
  exists evs,
    classify_filename marked_env "a.mp3" "/remote"
      (WebdavTransport "https://dav.example.org" None None) true true false
      empty_world = (Ok None, logged empty_world evs) /\
    (forall f e, EvInfer f e ∉ evs) /\
    forallb read_only_call evs = true /\
    (cleanup_local_files (WebdavTransport "https://dav.example.org" None None)
       = true ->
     last evs
     = Some (EvRemove (local_copy
                         (WebdavTransport "https://dav.example.org" None None)
                         "a.mp3" "/remote" empty_world))).
Proof.
  apply (marked_file_is_skipped marked_env "a.mp3" "/remote"
           (WebdavTransport "https://dav.example.org" None None) true false
           empty_world None).
  - split; [|split; reflexivity]. intros _. eexists. split; reflexivity.
  - reflexivity.
Defined.

(** X29: a run that cannot start.  Outside dry-run a missing API key,
    and in any mode a path that [validate_path] rejects with
    [ValueError], end [cmd_process] with exit code 1 before the sync
    manager, the transport or any file is touched: the world is as it
    was.  In dry-run the API key is not looked at. *)
Theorem invalid_start_exits (env : Env) (args : Namespace) (w : World) :
  (dry_run args = false /\ validate_api_key env = Raise MissingAPIKeyError) \/
  ((dry_run args = true \/ validate_api_key env = Ok tt) /\
   exists msg,
     validate_path env (default "." (opt_or (path args) (Some ".")))
     = Raise (ValueError msg)) ->
  cmd_process env args w = (Raise (SystemExit 1), w).
Proof.
  intros [[Hdry Hkey]|[Hstart (msg & Hpath)]]; unfold cmd_process.
  - rewrite Hdry, Hkey. reflexivity.
  - rewrite Hpath, bind_run.
    assert ((if negb (dry_run args)
             then match validate_api_key env with
                  | Raise MissingAPIKeyError => sys_exit 1
                  | r => lift_result r
                  end
             else mret tt) w = (Ok tt, w)) as ->.
    { destruct Hstart as [->| ->]; [reflexivity|]. by destruct (dry_run args). }
    reflexivity.
Qed.

Lemma invalid_start_exits_witness :
  cmd_process keyless_env process_args synced_world
  = (Raise (SystemExit 1), synced_world).
Proof.
  apply (invalid_start_exits keyless_env process_args synced_world).
  left. split; reflexivity.
Defined.

(** ** The batch command *)

(** X30: an interrupted batch is never pushed.  The assignment
    to [files_processed] takes place only when the batch returns, so
    the handler of [KeyboardInterrupt] finds the variable at its initial
    0 and its test [files_processed > 0] fails: whatever the arguments
    and however many assets the batch went through, the command leaves
    with exit code 130 from the state the interrupt left, without
    calling [push_metadata]. *)
Theorem interrupt_skips_push (env : Env) (args : Namespace)
    (files : list string) (path : string) (t : Transport)
    (skip_processed skip_in_metadata : bool) (w w' : World) :
  process_files env files path t skip_processed skip_in_metadata
    (dry_run args) (verbose args) w = (Raise KeyboardInterrupt, w') ->
  process_and_sync env args files path t skip_processed skip_in_metadata w
  = (Raise (SystemExit 130), w').
Proof.
  intros H. unfold process_and_sync. rewrite H.
  rewrite andb_false_r. reflexivity.
Qed.

(** The batch of [a.mp3] and [b.mp3], cancelled at the second. *)
Lemma interrupt_skips_push_witness :
  process_and_sync interrupting_env dry_run_args ["a.mp3"; "b.mp3"] "/music"
    LocalTransport true true synced_world
  = (Raise (SystemExit 130),
     snd (process_files interrupting_env ["a.mp3"; "b.mp3"] "/music"
            LocalTransport true true true false synced_world)).
Proof.
  apply (interrupt_skips_push interrupting_env dry_run_args
           ["a.mp3"; "b.mp3"] "/music" LocalTransport true true synced_world).
  vm_compute. reflexivity.
Defined.
